(** * krlib: a shallow embedding of [src/index.js]

    The command line tool keeps the shared dependency [kr-library] in step
    across the components of a monorepo.  This development embeds the
    program in Rocq, class by class, and proves the properties of its
    specification against the embedding.

    Layout: Part I holds the definitions (JavaScript built-ins, the
    [semver] package, then one module per class of [src/index.js]);
    Part II holds the lemmas and theorems: the properties the
    specification states, then further properties of the code. *)

From Stdlib Require Import String Ascii List ZArith NArith Lia Bool.
From Stdlib Require Import DecimalString DecimalN DecimalPos DecimalFacts.
From stdpp Require Import base option list gmap strings.

Local Open Scope string_scope.

(* ===================================================================== *)
(** * Part I: definitions                                                 *)
(* ===================================================================== *)

(** ** Errors and results *)

(** A JavaScript exception, by constructor, with its message. *)
Inductive exn : Type :=
| TypeError (msg : string)
| Error (msg : string).

(** The result of code that may throw. *)
Inductive result (A : Type) : Type :=
| Ok (a : A)
| Throw (e : exn).
Arguments Ok {A} a.
Arguments Throw {A} e.

Definition rbind {A B} (r : result A) (k : A -> result B) : result B :=
  match r with
  | Ok a => k a
  | Throw e => Throw e
  end.

(** ** JavaScript strings

    A string is a sequence of code units; the embedding uses [string],
    whose units are bytes, so [String.length] is the [length] property
    of a string of ASCII characters. *)
Module JS.

Definition code (c : ascii) : N := N_of_ascii c.

(** The class <<[0-9]>>. *)
Definition is_digit (c : ascii) : bool :=
  (48 <=? code c)%N && (code c <=? 57)%N.

(** The class <<[a-zA-Z]>>. *)
Definition is_alpha (c : ascii) : bool :=
  ((65 <=? code c)%N && (code c <=? 90)%N)
  || ((97 <=? code c)%N && (code c <=? 122)%N).

(** White space removed by [trim], among the characters of [ascii]. *)
Definition is_space (c : ascii) : bool :=
  ((9 <=? code c)%N && (code c <=? 13)%N) || (code c =? 32)%N.

Fixpoint all (p : ascii -> bool) (s : string) : bool :=
  match s with
  | "" => true
  | String c r => p c && all p r
  end.

(** The longest prefix whose characters satisfy [p], and the rest: what a
    greedy <<[..]*>> consumes. *)
Fixpoint span (p : ascii -> bool) (s : string) : string * string :=
  match s with
  | "" => ("", "")
  | String c r =>
      if p c then let (a, b) := span p r in (String c a, b) else ("", s)
  end.

Fixpoint drop_while (p : ascii -> bool) (s : string) : string :=
  match s with
  | "" => ""
  | String c r => if p c then drop_while p r else s
  end.

Fixpoint rev_acc (s acc : string) : string :=
  match s with
  | "" => acc
  | String c r => rev_acc r (String c acc)
  end.

Definition rev (s : string) : string := rev_acc s "".

(** [String.prototype.trim]. *)
Definition trim (s : string) : string :=
  rev (drop_while is_space (rev (drop_while is_space s))).

(** [s.split(sep)] for a separator of one character: never empty. *)
Fixpoint split (sep : ascii) (s : string) : list string :=
  match s with
  | "" => [""]
  | String c r =>
      if Ascii.eqb c sep then "" :: split sep r
      else match split sep r with
           | [] => [String c ""]
           | w :: ws => String c w :: ws
           end
  end.

(** [s.split('\n')[0]]. *)
Definition first_line (s : string) : string :=
  match split "010" s with
  | [] => ""
  | l :: _ => l
  end.

(** [s.startsWith(p)], with what follows the prefix. *)
Fixpoint strip_prefix (p s : string) : option string :=
  match p with
  | "" => Some s
  | String a p' =>
      match s with
      | "" => None
      | String b s' => if Ascii.eqb a b then strip_prefix p' s' else None
      end
  end.

(** [s.includes(p)], also [/p/.test(s)] for a pattern [p] of literal
    characters. *)
Fixpoint includes (p s : string) : bool :=
  match strip_prefix p s with
  | Some _ => true
  | None =>
      match s with
      | "" => false
      | String _ r => includes p r
      end
  end.

(** [s.replace(p, by)] for a string pattern: the first occurrence only. *)
Fixpoint replace (p by_ s : string) : string :=
  match strip_prefix p s with
  | Some r => by_ ++ r
  | None =>
      match s with
      | "" => ""
      | String c r => String c (replace p by_ r)
      end
  end.

Fixpoint repeat (c : ascii) (n : nat) : string :=
  match n with
  | O => ""
  | S k => String c (repeat c k)
  end.

(** [s.padEnd(n, ' ')]: a string already [n] long or longer is
    returned as it is. *)
Definition padEnd (s : string) (n : nat) (c : ascii) : string :=
  s ++ repeat c (n - String.length s).

(** [xs.join(sep)]. *)
Definition join (sep : string) (xs : list string) : string :=
  String.concat sep xs.

(** The value [+s] of a string of decimal digits, before rounding. *)
Fixpoint number_acc (acc : N) (s : string) : N :=
  match s with
  | "" => acc
  | String c r => number_acc (10 * acc + (code c - 48))%N r
  end.

Definition number (s : string) : N := number_acc 0 s.

(** The integer a Number holds for the integer [n]: [n] itself up to
    [2^53], and beyond that the nearest multiple of the spacing of
    doubles there, ties to the even one. *)
Definition to_double (n : N) : N :=
  let k := (N.size n - 53)%N in
  let q := N.shiftr n k in
  let r := (n - N.shiftl q k)%N in
  let half := N.shiftl 1 (k - 1) in
  if (k =? 0)%N then n
  else if (half <? r)%N || ((half =? r)%N && N.odd q)
       then N.shiftl (q + 1) k
       else N.shiftl q k.

End JS.

(** ** The regular expressions of [src/index.js] *)
Module Regex.

(** One match of <<LIT[0-9]*\.[0-9]*\.[0-9]*>> at the head of [s]: the
    text matched and what follows it.  A dot is not a digit, so the
    greedy runs of digits never give a character back. *)
Definition match_at (lit s : string) : option (string * string) :=
  match JS.strip_prefix lit s with
  | None => None
  | Some r0 =>
      let (d1, r1) := JS.span JS.is_digit r0 in
      match r1 with
      | String "." r1' =>
          let (d2, r2) := JS.span JS.is_digit r1' in
          match r2 with
          | String "." r2' =>
              let (d3, r3) := JS.span JS.is_digit r2' in
              Some (lit ++ d1 ++ "." ++ d2 ++ "." ++ d3, r3)
          | _ => None
          end
      | _ => None
      end
  end.

(** The scan of the flag [g]: try each position from the left; after a
    match, go on from its end.  [skip] counts the characters of the
    last match still to pass.  [lit] is not empty. *)
Fixpoint scan (lit : string) (skip : nat) (s : string) : list string :=
  match s with
  | "" => []
  | String _ r =>
      match skip with
      | S k => scan lit k r
      | O =>
          match match_at lit s with
          | Some (m, _) => m :: scan lit (String.length m - 1) r
          | None => scan lit 0 r
          end
      end
  end.

(** [s.match(/LIT[0-9]*\.[0-9]*\.[0-9]*/g)]: [None] is [null]. *)
Definition match_all (lit s : string) : option (list string) :=
  match scan lit 0 s with
  | [] => None
  | ms => Some ms
  end.

(** Membership in a class <<[...]>> whose source [cls] holds none of
    the characters that are special inside a class. *)
Fixpoint in_class (cls : string) (c : ascii) : bool :=
  match cls with
  | "" => false
  | String a r => Ascii.eqb a c || in_class r c
  end.

(** [s.match(new RegExp('[' + cls + ']', 'g'))]: the characters of [s]
    that are in the class, one match each; [None] is [null]. *)
Fixpoint class_scan (cls s : string) : list string :=
  match s with
  | "" => []
  | String c r =>
      if in_class cls c then String c "" :: class_scan cls r
      else class_scan cls r
  end.

Definition match_class (cls s : string) : option (list string) :=
  match class_scan cls s with
  | [] => None
  | ms => Some ms
  end.

End Regex.

(** ** JSON documents and property access *)

(** A value as [JSON.parse] builds it.  An array is an object too: code
    may hang named properties on it ([props]), which [JSON.stringify]
    leaves out.  Numbers are kept as integers; the program only tests
    them for truthiness. *)
#[warnings="-register-all"]
Inductive json : Type :=
| JNull
| JBool (b : bool)
| JNum (n : Z)
| JStr (s : string)
| JArr (items : list json) (props : list (string * json))
| JObj (fields : list (string * json)).

(** A JavaScript value the program handles: [None] is [undefined]. *)
Definition jsval : Type := option json.

Module Json.

(** The first binding of [k]: keys of an object are unique. *)
Fixpoint assoc {A} (k : string) (l : list (string * A)) : option A :=
  match l with
  | [] => None
  | (k', v) :: r => if String.eqb k k' then Some v else assoc k r
  end.

(** [o[k] = v] on the own properties [l]: an existing key keeps its
    place, a new one goes last. *)
Fixpoint assoc_set {A} (k : string) (v : A) (l : list (string * A))
  : list (string * A) :=
  match l with
  | [] => [(k, v)]
  | (k', v') :: r =>
      if String.eqb k k' then (k, v) :: r else (k', v') :: assoc_set k v r
  end.

(** [j[k]] for a key [k] that no prototype defines (here [version],
    [dependencies], [kr-library]). *)
Definition get (j : json) (k : string) : result jsval :=
  match j with
  | JNull => Throw (TypeError ("Cannot read properties of null (reading '" ++ k ++ "')"))
  | JObj l => Ok (assoc k l)
  | JArr _ props => Ok (assoc k props)
  | _ => Ok None
  end.

(** [j[k]] where [j] may be [undefined]. *)
Definition get_val (j : jsval) (k : string) : result jsval :=
  match j with
  | None => Throw (TypeError ("Cannot read properties of undefined (reading '" ++ k ++ "')"))
  | Some j => get j k
  end.

(** [j[k] = v] in strict mode (the body of a class is strict): the
    object after the assignment, or the [TypeError]. *)
Definition set (j : jsval) (k : string) (v : json) : result json :=
  match j with
  | None => Throw (TypeError ("Cannot set properties of undefined (setting '" ++ k ++ "')"))
  | Some JNull => Throw (TypeError ("Cannot set properties of null (setting '" ++ k ++ "')"))
  | Some (JObj l) => Ok (JObj (assoc_set k v l))
  | Some (JArr items props) => Ok (JArr items (assoc_set k v props))
  | Some _ => Throw (TypeError ("Cannot create property '" ++ k ++ "'"))
  end.

(** [if (v)]. *)
Definition truthy (v : jsval) : bool :=
  match v with
  | None | Some JNull => false
  | Some (JBool b) => b
  | Some (JNum n) => negb (n =? 0)%Z
  | Some (JStr s) => negb (String.eqb s "")
  | Some _ => true
  end.

(** [String(n)] for an integer. *)
Definition of_Z (n : Z) : string := NilZero.string_of_int (Z.to_int n).

(** [String(v)], as a template literal or [+] on a string applies it;
    an array joins its items with commas, [null] items as nothing. *)
Fixpoint str (j : json) : string :=
  match j with
  | JNull => "null"
  | JBool true => "true"
  | JBool false => "false"
  | JNum n => of_Z n
  | JStr s => s
  | JArr items _ =>
      (fix go (l : list json) : string :=
         let item x := match x with JNull => "" | _ => str x end in
         match l with
         | [] => ""
         | [x] => item x
         | x :: r => item x ++ "," ++ go r
         end) items
  | JObj _ => "[object Object]"
  end.

(** [xs.join(sep)] on an array of values. *)
Definition join (sep : string) (xs : list json) : string :=
  JS.join sep (map (fun x => match x with JNull => "" | _ => str x end) xs).

Definition to_string (v : jsval) : string :=
  match v with
  | None => "undefined"
  | Some j => str j
  end.

(** [a + b] where [a] is a string or [undefined]: a concatenation when
    either side, once primitive, is a string; the number [NaN]
    otherwise. *)
Definition plus (a : option string) (b : jsval) : string :=
  match a, b with
  | Some x, _ => x ++ to_string b
  | None, Some (JStr _ | JArr _ _ | JObj _) => "undefined" ++ to_string b
  | None, _ => "NaN"
  end.

(** [JSON.parse(JSON.stringify(j, null, 2))]: the document a file
    holds once [j] is written to it. *)
Fixpoint document (j : json) : json :=
  match j with
  | JArr items _ => JArr (map document items) []
  | JObj l => JObj (map (fun kv => (fst kv, document (snd kv))) l)
  | _ => j
  end.

End Json.

(** ** The [semver] package

    [src/index.js] requires the npm package [semver] and calls its
    [compare], [lt] and [maxSatisfying].  The package is not part of the
    repository; this module follows its strict (non-loose) grammar and
    its comparison: [new SemVer(v)] checks the length, trims, matches
    <<^v?MAIN(-PRERELEASE)?(\+BUILD)?$>>, converts the three numbers and
    refuses those above [MAX_SAFE_INTEGER]; [compare] is [compareMain]
    then [comparePre]. *)
Module Semver.

Definition MAX_LENGTH : nat := 256.
Definition MAX_SAFE_INTEGER : N := 9007199254740991.

Inductive identifier : Type :=
| IdNum (n : N)
| IdStr (s : string).

Record SemVer : Type := mkSemVer {
  major : N;
  minor : N;
  patch : N;
  prerelease : list identifier;
}.

(** <<0|[1-9]\d*>> against a whole token. *)
Definition numeric_identifier (s : string) : bool :=
  match s with
  | "" => false
  | String c "" => JS.is_digit c
  | String c r => JS.is_digit c && negb (Ascii.eqb c "0") && JS.all JS.is_digit r
  end.

(** The class <<[a-zA-Z0-9-]>>. *)
Definition is_id_char (c : ascii) : bool :=
  JS.is_digit c || JS.is_alpha c || Ascii.eqb c "-".

(** <<0|[1-9]\d*|\d*[a-zA-Z-][a-zA-Z0-9-]*>> against a whole token. *)
Definition prerelease_identifier (s : string) : bool :=
  match s with
  | "" => false
  | _ => JS.all is_id_char s
         && (numeric_identifier s || negb (JS.all JS.is_digit s))
  end.

(** <<[a-zA-Z0-9-]+>> against a whole token. *)
Definition build_identifier (s : string) : bool :=
  match s with
  | "" => false
  | _ => JS.all is_id_char s
  end.

(** A prerelease identifier of digits below [MAX_SAFE_INTEGER] becomes
    a number; any other stays a string. *)
Definition to_identifier (s : string) : identifier :=
  if JS.all JS.is_digit s && (JS.to_double (JS.number s) <? MAX_SAFE_INTEGER)%N
  then IdNum (JS.number s)
  else IdStr s.

(** <<\+BUILD>> up to the end, or nothing. *)
Definition build_ok (s : string) : bool :=
  match s with
  | "" => true
  | String "+" b => forallb build_identifier (JS.split "." b)
  | _ => false
  end.

(** What may follow the patch number: <<(-PRERELEASE)?(\+BUILD)?$>>;
    the prerelease identifiers when it matches. *)
Definition parse_tail (s : string) : option (list string) :=
  match s with
  | String "-" r =>
      let (pre, b) := JS.span (fun c => negb (Ascii.eqb c "+")) r in
      if forallb prerelease_identifier (JS.split "." pre) && build_ok b
      then Some (JS.split "." pre)
      else None
  | _ => if build_ok s then Some [] else None
  end.

(** One number of the main version and what follows it. *)
Definition parse_number (s : string) : option (string * string) :=
  let (d, r) := JS.span JS.is_digit s in
  if numeric_identifier d then Some (d, r) else None.

(** <<v?>>: the numbers do not start with a [v], so one at the head is
    the optional one. *)
Definition strip_v (s : string) : string :=
  match s with
  | String "v" r => r
  | _ => s
  end.

(** The groups 1 to 4 of the match of the full pattern. *)
Definition match_full (s : string) : option (string * string * string * list string) :=
  match parse_number (strip_v s) with
  | Some (ma, String "." s1) =>
      match parse_number s1 with
      | Some (mi, String "." s2) =>
          match parse_number s2 with
          | Some (pa, s3) =>
              match parse_tail s3 with
              | Some pre => Some (ma, mi, pa, pre)
              | None => None
              end
          | None => None
          end
      | _ => None
      end
  | _ => None
  end.

(** [new SemVer(version)] on a string. *)
Definition parse_string (version : string) : result SemVer :=
  if (MAX_LENGTH <? String.length version)%nat
  then Throw (TypeError "version is longer than 256 characters")
  else
    match match_full (JS.trim version) with
    | None => Throw (TypeError ("Invalid Version: " ++ version))
    | Some (ma, mi, pa, pre) =>
        if (MAX_SAFE_INTEGER <? JS.to_double (JS.number ma))%N
        then Throw (TypeError "Invalid major version")
        else if (MAX_SAFE_INTEGER <? JS.to_double (JS.number mi))%N
        then Throw (TypeError "Invalid minor version")
        else if (MAX_SAFE_INTEGER <? JS.to_double (JS.number pa))%N
        then Throw (TypeError "Invalid patch version")
        else Ok {| major := JS.number ma; minor := JS.number mi;
                   patch := JS.number pa;
                   prerelease := map to_identifier pre |}
    end.

(** [new SemVer(version)]: a value that is not a string is refused. *)
Definition parse (version : jsval) : result SemVer :=
  match version with
  | Some (JStr s) => parse_string s
  | _ => Throw (TypeError ("Invalid Version: " ++ Json.to_string version))
  end.

(** The first non-zero of two results of a comparison: [a || b]. *)
Definition or_else (a b : Z) : Z := if (a =? 0)%Z then b else a.

Definition compare_num (a b : N) : Z :=
  if (a =? b)%N then 0%Z else if (a <? b)%N then (-1)%Z else 1%Z.

Definition compare_str (a b : string) : Z :=
  match String.compare a b with
  | Eq => 0%Z
  | Lt => (-1)%Z
  | Gt => 1%Z
  end.

(** [compareIdentifiers]: two strings of digits as numbers, a
    string of digits below any other, the others by code units. *)
Definition compareIdentifiers (a b : identifier) : Z :=
  let str i := match i with IdNum n => None | IdStr s => Some s end in
  let num i :=
    match i with
    | IdNum n => Some n
    | IdStr s => if JS.all JS.is_digit s && negb (String.eqb s "")
                 then Some (JS.to_double (JS.number s)) else None
    end in
  match num a, num b with
  | Some x, Some y => compare_num x y
  | Some _, None => (-1)%Z
  | None, Some _ => 1%Z
  | None, None =>
      match str a, str b with
      | Some x, Some y => compare_str x y
      | _, _ => 0%Z
      end
  end.

(** [a === b] on two identifiers. *)
Definition identifier_eqb (a b : identifier) : bool :=
  match a, b with
  | IdNum x, IdNum y => (x =? y)%N
  | IdStr x, IdStr y => String.eqb x y
  | _, _ => false
  end.

Definition compareMain (a b : SemVer) : Z :=
  or_else (compare_num (major a) (major b))
    (or_else (compare_num (minor a) (minor b))
       (compare_num (patch a) (patch b))).

(** The loop of [comparePre] over the two lists of identifiers. *)
Fixpoint compare_ids (a b : list identifier) : Z :=
  match a, b with
  | [], [] => 0%Z
  | _ :: _, [] => 1%Z
  | [], _ :: _ => (-1)%Z
  | x :: a', y :: b' =>
      if identifier_eqb x y then compare_ids a' b' else compareIdentifiers x y
  end.

Definition comparePre (a b : SemVer) : Z :=
  match prerelease a, prerelease b with
  | _ :: _, [] => (-1)%Z
  | [], _ :: _ => 1%Z
  | [], [] => 0%Z
  | pa, pb => compare_ids pa pb
  end.

Definition compare_semver (a b : SemVer) : Z :=
  or_else (compareMain a b) (comparePre a b).

(** [semver.compare(a, b)]: [-1], [0] or [1], or the [TypeError] of
    the version that does not parse. *)
Definition compare (a b : jsval) : result Z :=
  rbind (parse a) (fun va =>
  rbind (parse b) (fun vb =>
  Ok (compare_semver va vb))).

(** [semver.lt(a, b)]. *)
Definition lt (a b : jsval) : result bool :=
  rbind (compare a b) (fun c => Ok (c <? 0)%Z).

(** [range.test(v)] for the range <<*>>: a version that does not parse
    is refused, not thrown; so is one with a prerelease. *)
Definition satisfies_any (v : string) : option SemVer :=
  match parse_string v with
  | Ok sv => match prerelease sv with [] => Some sv | _ => None end
  | Throw _ => None
  end.

(** The loop of [maxSatisfying]: [max] and [maxSV] so far. *)
Fixpoint max_loop (vs : list string) (best : option (string * SemVer))
  : option (string * SemVer) :=
  match vs with
  | [] => best
  | v :: vs' =>
      match satisfies_any v with
      | None => max_loop vs' best
      | Some sv =>
          match best with
          | None => max_loop vs' (Some (v, sv))
          | Some (_, msv) =>
              if (compare_semver msv sv =? -1)%Z
              then max_loop vs' (Some (v, sv))
              else max_loop vs' best
          end
      end
  end.

(** [semver.maxSatisfying(versions, '*')]: [None] is [null]. *)
Definition maxSatisfying (versions : list string) : option string :=
  option_map fst (max_loop versions None).

End Semver.

(** ** The process and its world *)

(** A file on disk: a JSON document (the text is kept as the document it
    parses to), or a text that does not parse. *)
Inductive file : Type :=
| Doc (j : json)
| Garbage.

(** The configuration [krlib.config.json] holds:
    <<{ url : ..., component : { name : path, ... } }>>; the components
    are in the order in which [for ... in] enumerates them. *)
Record Config : Type := mkConfig {
  url : string;
  component : list (string * string);
}.

(** What the process writes and starts, in order. *)
Inductive event : Type :=
| Info (msg : string)      (* Utils.loggerInfo *)
| Success (msg : string)   (* Utils.loggerSuccess *)
| Warning (msg : string)   (* Utils.loggerWarning *)
| Failure (msg : string)   (* Utils.loggerError *)
| Spawned (cwd : string) (args : list string).   (* spawn('npm', args, { cwd }) *)

(** A piece of the output of a child process. *)
Inductive chunk : Type :=
| Stdout (data : string)
| Stderr (data : string).

(** A run of [npm], of a child that was started and has closed: what
    it prints, and the code of its [close] event ([None] when a signal
    ended it). *)
Record proc : Type := mkProc {
  output : list chunk;
  exit_code : option Z;
}.

(** What the program asks of the machine it runs on, and does not
    change: the commands it executes, the [path] module, the
    configuration at the root of the repository.  The machine is one on
    which the children that [spawn] starts do start and close: [npm]
    gives the run of each.  When several children run together, their
    events come in an order that is the machine's: [turns] names, time
    after time, the child that is heard next, among those that run and
    have something to say; a number beyond them lets the next timer
    fire. *)
Record Host : Type := mkHost {
  exec : string -> result string;         (* stdout of a command, or its failure *)
  npm : string -> list string -> proc;    (* cwd, arguments *)
  path_join : string -> string -> string;
  path_resolve : string -> string;
  config_at : string -> result Config;    (* require(<root>/krlib.config.json) *)
  stack : exn -> string;                  (* err.stack *)
  turns : list nat;                       (* the order in which children are heard *)
}.

(** The state the program changes. *)
Record World : Type := mkWorld {
  files : gmap string file;     (* the disk *)
  modules : gmap string json;   (* the cache of [require]: objects by file name *)
  constant : option Config;     (* [Constant], once merged with an [Environment] *)
  stdin : list string;          (* the [data] events still to come *)
  listeners : list string;      (* the [data] handlers on stdin: the class of each *)
  trace : list event;
}.

(** How a computation ends: with a value, with an exception, with
    [process.exit(code)], or on an [await] that is never resumed. *)
Inductive outcome (A : Type) : Type :=
| Done (a : A)
| Thrown (e : exn)
| Exited (code : Z)
| Waiting.
Arguments Done {A} a.
Arguments Thrown {A} e.
Arguments Exited {A} code.
Arguments Waiting {A}.

Definition M (A : Type) : Type := World -> outcome A * World.

Definition ret {A} (a : A) : M A := fun w => (Done a, w).

Definition bind {A B} (m : M A) (k : A -> M B) : M B :=
  fun w =>
    match m w with
    | (Done a, w') => k a w'
    | (Thrown e, w') => (Thrown e, w')
    | (Exited c, w') => (Exited c, w')
    | (Waiting, w') => (Waiting, w')
    end.

Declare Scope js_scope.
Delimit Scope js_scope with js.
Notation "'let*' x ':=' m 'in' k" := (bind m (fun x => k))
  (at level 10, x pattern, m at level 100, k at level 200) : js_scope.
Notation "m1 ';;' m2" := (bind m1 (fun _ => m2))
  (at level 100, m2 at level 200, right associativity) : js_scope.
Local Open Scope js_scope.

Definition throw {A} (e : exn) : M A := fun w => (Thrown e, w).

(** [process.exit(code)]. *)
Definition exit {A} (code : Z) : M A := fun w => (Exited code, w).

Definition lift {A} (r : result A) : M A :=
  match r with
  | Ok a => ret a
  | Throw e => throw e
  end.

(** [try { m } catch (err) { h err }]: an exit is not an exception. *)
Definition try_catch {A} (m : M A) (h : exn -> M A) : M A :=
  fun w =>
    match m w with
    | (Thrown e, w') => h e w'
    | r => r
    end.

Definition get_world : M World := fun w => (Done w, w).

Definition emit (e : event) : M unit :=
  fun w => (Done tt, mkWorld (files w) (modules w) (constant w) (stdin w)
                       (listeners w) (trace w ++ [e])).

(** [`${err}`]. *)
Definition exn_to_string (e : exn) : string :=
  match e with
  | TypeError m => "TypeError: " ++ m
  | Error m => "Error: " ++ m
  end.

(** [err.message]. *)
Definition message (e : exn) : string :=
  match e with
  | TypeError m | Error m => m
  end.

(** [existsSync(path)]. *)
Definition existsSync (path : string) : M bool :=
  fun w => (Done (bool_decide (is_Some (files w !! path))), w).

(** [require(path)] of a JSON file: the object in the cache, or the file
    parsed and put in the cache.  Every caller gets the same object. *)
Definition require (path : string) : M json :=
  fun w =>
    match modules w !! path with
    | Some j => (Done j, w)
    | None =>
        match files w !! path with
        | Some (Doc j) =>
            (Done j, mkWorld (files w) (<[path := j]> (modules w)) (constant w)
                       (stdin w) (listeners w) (trace w))
        | Some Garbage => (Thrown (Error ("Unexpected token in JSON: " ++ path)), w)
        | None => (Thrown (Error ("Cannot find module '" ++ path ++ "'")), w)
        end
    end.

(** An assignment to a property of the object [require(path)] returned:
    the cache holds that object, so it holds the change. *)
Definition mutate_module (path : string) (j : json) : M unit :=
  fun w => (Done tt, mkWorld (files w) (<[path := j]> (modules w)) (constant w)
                       (stdin w) (listeners w) (trace w)).

(** [writeFileAsync(path, JSON.stringify(j, null, 2))]. *)
Definition writeFileAsync (path : string) (j : json) : M unit :=
  fun w => (Done tt, mkWorld (<[path := Doc (Json.document j)]> (files w)) (modules w)
                       (constant w) (stdin w) (listeners w) (trace w)).

(** ** [Constant]: the constants, and after [Cli.run] merged an
    [Environment] into it, the getters of the configuration.  Before the
    merge these getters are [undefined]. *)
Module Constant.

Definition COMPONENT_PKG_FILE : string := "package.json".
Definition KR_LIB_PKG_FILE : string := "node_modules/kr-library/package.json".
Definition MINIMUM_NPM_VERSION : string := "5.7.1".
Definition ENVIRONMENT_CONFIG_FILE : string := "krlib.config.json".

Definition COMPONENT_DIRECTORIES (w : World) : option (list (string * string)) :=
  component <$> constant w.

Definition KR_LIB_URL (w : World) : option string :=
  url <$> constant w.

Definition KR_LIB_NPM_URL (w : World) : option string :=
  (fun c => "git+" ++ url c ++ "#semver:") <$> constant w.

(** [Constant = Object.assign(new Environment(rootPath), Constant)]. *)
Definition merge (h : Host) (rootPath : string) : M unit :=
  let* c := lift (config_at h rootPath) in
  fun w => (Done tt, mkWorld (files w) (modules w) (Some c) (stdin w)
                       (listeners w) (trace w)).

End Constant.

Module Utils.

Definition loggerInfo (msg : string) : M unit := emit (Info msg).
Definition loggerSuccess (msg : string) : M unit := emit (Success msg).
Definition loggerWarning (msg : string) : M unit := emit (Warning msg).
Definition loggerError (msg : string) : M unit := emit (Failure msg).

Definition getGitRootDirectorySync (h : Host) : M string :=
  let* rawPath :=
    try_catch
      (let* cmd := lift (exec h "git rev-parse --show-toplevel") in
       ret (JS.first_line cmd))
      (fun err =>
         loggerError (exn_to_string err);;
         throw (Error "Could not get root directory from git")) in
  ret (path_resolve h rawPath).

Definition checkLeyserkidsRepositoryAsync (h : Host) : M bool :=
  try_catch
    (let* cmd := lift (exec h "git remote get-url --push origin") in
     let name := JS.first_line cmd in
     ret (JS.includes "gcleyser/" name))
    (fun err =>
       loggerError (exn_to_string err);;
       throw (Error "Could not get repository name from git")).

(** [`git ls-remote --tags --refs ${Constant.KR_LIB_URL}`]. *)
Definition ls_remote_command (w : World) : string :=
  "git ls-remote --tags --refs " ++ Json.to_string (JStr <$> Constant.KR_LIB_URL w).

(** The tags of the remote, stripped of <<refs/tags/v>>, and the
    largest of them: a string, or [null] when no tag is a version. *)
Definition getLatestVersionAsync (h : Host) : M jsval :=
  try_catch
    (let* w := get_world in
     let* cmd := lift (exec h (ls_remote_command w)) in
     match Regex.match_all "refs/tags/v" cmd with
     | None => throw (TypeError "Cannot read properties of null (reading 'map')")
     | Some ms =>
         let tags := map (JS.replace "refs/tags/v" "") ms in
         ret (Some (match Semver.maxSatisfying tags with
                    | Some v => JStr v
                    | None => JNull
                    end))
     end)
    (fun err =>
       loggerError (exn_to_string err);;
       throw (Error "Could not obtain latest version number from remote git")).

Definition getNpmVersionAsync (h : Host) : M string :=
  try_catch
    (let* cmd := lift (exec h "npm --version") in
     ret (JS.first_line cmd))
    (fun err =>
       loggerError (exn_to_string err);;
       throw (Error "Could not get npm version, please make sure npm has been installed")).

(** The e-mail of the git user: a failure of the command is caught and
    dropped. *)
Definition getGitUserAsync (h : Host) : M string :=
  try_catch
    (let* cmd := lift (exec h "git config user.email") in
     ret (JS.first_line cmd))
    (fun _ => ret "").

(** The version of the tool itself; [dirname] is [__dirname].  The
    variable [version] stays [undefined] when the file holds a falsy
    value. *)
Definition getCliVersion (h : Host) (dirname : string) : M jsval :=
  try_catch
    (let* config := require (path_join h dirname "../package.json") in
     if Json.truthy (Some config) then lift (Json.get config "version") else ret None)
    (fun err =>
       loggerError (exn_to_string err);;
       throw (Error "Failed to detect current version of the globally installed kr-library")).

End Utils.

Module PackageInstaller.

(** The handlers of [child.stdout] and [child.stderr]. *)
Definition on_data (c : chunk) : list event :=
  match c with
  | Stdout data => [Info data]
  | Stderr data =>
      if negb (JS.includes "npm update check failed" data) then [Failure data] else []
  end.

Fixpoint emit_all (es : list event) : M unit :=
  match es with
  | [] => ret tt
  | e :: r => emit e;; emit_all r
  end.

(** The child is spawned, its output is logged as it comes, and the
    promise resolves with the code of [close].  The promise has no other
    way to settle: the code listens to no [error] event, and a [Host]
    has only children that start and close. *)
Definition _installPackage (h : Host) (installPath : string) (paramArray : list string)
  : M (option Z) :=
  let child := npm h installPath paramArray in
  emit (Spawned installPath paramArray);;
  emit_all (concat (map on_data (output child)));;
  ret (exit_code child).

Definition code_to_string (code : option Z) : string :=
  Json.to_string (Some (match code with Some c => JNum c | None => JNull end)).

Definition please_wait (installPath : string) (version : jsval) : string :=
  "Please wait, installing kr-library(" ++ Json.to_string version ++ ") into "
  ++ installPath ++ " . . .".

(** The arguments of [npm]: <<install git+URL#semver:VERSION>>. *)
Definition install_args (w : World) (version : jsval) : list string :=
  ["install"; Json.plus (Constant.KR_LIB_NPM_URL w) version].

(** What [installSpecificVersionAsync] logs once [npm] has closed. *)
Definition report (installPath : string) (code : option Z) : event :=
  match code with
  | Some 0%Z => Success ("Install kr-library into " ++ installPath ++ " successfully")
  | _ => Failure ("Failed install kr-library at " ++ installPath ++ " with code: "
                  ++ code_to_string code)
  end.

(** What one install logs, from the wait to the report. *)
Definition events (h : Host) (w : World) (installPath : string) (version : jsval)
  : list event :=
  let child := npm h installPath (install_args w version) in
  [Info (please_wait installPath version); Spawned installPath (install_args w version)]
  ++ concat (map on_data (output child))
  ++ [report installPath (exit_code child)].

Definition installSpecificVersionAsync (h : Host) (installPath : string) (version : jsval)
  : M unit :=
  Utils.loggerInfo (please_wait installPath version);;
  let* w := get_world in
  let* code := _installPackage h installPath (install_args w version) in
  emit (report installPath code).

(** What [installComponently] logs once [npm] has closed. *)
Definition report_install (installPath : string) (code : option Z) : event :=
  match code with
  | Some 0%Z => Success ("Run 'npm install' at [" ++ installPath ++ "] successfully")
  | _ => Failure ("Failed to run 'npm install' at [" ++ installPath ++ "] with code: "
                  ++ code_to_string code)
  end.

Definition installComponently (h : Host) (installPath : string) : M unit :=
  Utils.loggerInfo ("Please wait, Running 'npm install' at " ++ installPath ++ " . . .");;
  let* code := _installPackage h installPath ["install"] in
  emit (report_install installPath code).

End PackageInstaller.

(** A component, once [initialize] has run. *)
Record Component_t : Type := mkComponent {
  componentName : string;
  componentPath : string;
  packageJson : string;
  krLibraryPackageJson : string;
  exist : bool;
  currentVersion : jsval;
  expectedVersion : string;
}.

Module Component.

Definition _checkExist (krLibraryPackageJson : string) : M bool :=
  existsSync krLibraryPackageJson.

Definition _getCurrentVersion (krLibraryPackageJson : string) : M jsval :=
  let* e := _checkExist krLibraryPackageJson in
  if negb e then ret (Some (JStr ""))
  else
    try_catch
      (let* m := require krLibraryPackageJson in
       lift (Json.get m "version"))
      (fun err =>
         Utils.loggerError (exn_to_string err);;
         throw (Error ("Could load " ++ krLibraryPackageJson
                       ++ ", please make the file vailed"))).

(** [npmUrl.match(/#semver:[0-9]*\.[0-9]*\.[0-9]*/g)[0].replace('#semver:', '')]. *)
Definition pinned_version (npmUrl : jsval) : result string :=
  match npmUrl with
  | Some (JStr s) =>
      match Regex.match_all "#semver:" s with
      | Some (m :: _) => Ok (JS.replace "#semver:" "" m)
      | _ => Throw (TypeError "Cannot read properties of null (reading '0')")
      end
  | _ => Throw (TypeError "npmUrl.match is not a function")
  end.

Definition _getExpectedVersion (packageJson : string) : M string :=
  try_catch
    (let* pkg := require packageJson in
     let* deps := lift (Json.get pkg "dependencies") in
     let* npmUrl := lift (Json.get_val deps "kr-library") in
     if Json.truthy npmUrl then lift (pinned_version npmUrl) else ret "")
    (fun err =>
       Utils.loggerError (exn_to_string err);;
       throw (Error ("Could load " ++ packageJson ++ ", please make the file vailed"))).

(** [new Component(componentName, componentPath).initialize()]. *)
Definition initialize (h : Host) (componentName componentPath : string) : M Component_t :=
  let packageJson := path_join h componentPath Constant.COMPONENT_PKG_FILE in
  let krLibraryPackageJson := path_join h componentPath Constant.KR_LIB_PKG_FILE in
  let* exist := _checkExist krLibraryPackageJson in
  let* currentVersion := _getCurrentVersion krLibraryPackageJson in
  let* expectedVersion := _getExpectedVersion packageJson in
  ret (mkComponent componentName componentPath packageJson krLibraryPackageJson
         exist currentVersion expectedVersion).

Definition compareVersion (c : Component_t) : M Z :=
  let* e := _checkExist (krLibraryPackageJson c) in
  if negb e then ret (-2)%Z
  else lift (Semver.compare (currentVersion c) (Some (JStr (expectedVersion c)))).

(** The object [pkg] is the one the cache of [require] holds: the
    assignment changes it there, before the file is written. *)
Definition setVersionAsync (c : Component_t) (version : string) : M unit :=
  let* pkg := require (packageJson c) in
  let* deps := lift (Json.get pkg "dependencies") in
  let* w := get_world in
  let* deps' := lift (Json.set deps "kr-library"
                        (JStr (Json.plus (Constant.KR_LIB_NPM_URL w) (Some (JStr version))))) in
  let* pkg' := lift (Json.set (Some pkg) "dependencies" deps') in
  mutate_module (packageJson c) pkg';;
  writeFileAsync (packageJson c) pkg'.

End Component.

Record Collection_t : Type := mkCollection {
  root : string;
  components : list Component_t;
  latestVersion : jsval;
}.

(** ** Timers, children and [Promise.all]

    A batch of installs makes one promise per component; the function of
    index [i] sets a timer of [i * 500] ms, so that the timers fire in
    the order of the indices.  The callback of a timer runs an install.
    What the install does before it awaits its child, the spawn
    included, happens at once when the timer fires; what it logs after
    that, it logs as the output of the child arrives and when the child
    closes, between the events of the other children that run.  The
    promise settles when the install ends, and the batch awaits
    [Promise.all] of the promises. *)
Module Timers.

(** What the callback of a timer logs, in order, and how it ends. *)
Definition job : Type := list event * outcome unit.

(** The install [m] when it starts in [w]: an install logs, and changes
    nothing else. *)
Definition job_of (m : M unit) (w : World) : job :=
  let r := m (mkWorld (files w) (modules w) (constant w) (stdin w) (listeners w) []) in
  (trace (snd r), fst r).

(** What a job logs when its timer fires, up to the spawn of its child,
    and what it logs later. *)
Fixpoint sync (es : list event) : list event * list event :=
  match es with
  | [] => ([], [])
  | Spawned cwd args :: r => ([Spawned cwd args], r)
  | e :: r => let (a, b) := sync r in (e :: a, b)
  end.

(** [es] is logged, then the batch goes on as [k]. *)
Definition say (es : list event) (k : list event * outcome unit)
  : list event * outcome unit :=
  ((es ++ fst k)%list, snd k).

(** The promise of a job that has nothing left to log settles as its
    install ended: [resolve()] after a return; [reject(err)] after a
    throw, and then [Promise.all] rejects at once and the [await] of the
    batch throws; after a [process.exit] nothing goes on; an install that
    never ends leaves [Promise.all] pending, unless another promise
    rejects. *)
Definition settle (j : job) (k : list event * outcome unit) : list event * outcome unit :=
  match j with
  | (_ :: _, _) | ([], Done _) => k
  | ([], Thrown e) => ([], Thrown e)
  | ([], Exited c) => ([], Exited c)
  | ([], Waiting) => (fst k, match snd k with Done _ => Waiting | o => o end)
  end.

(** The [n]-th of the running jobs that have something left to log is
    heard: its next event, the job after it, the jobs after it. *)
Fixpoint hear (n : nat) (running : list job) : option (event * job * list job) :=
  match running with
  | [] => None
  | (e :: todo, o) :: r =>
      match n with
      | O => Some (e, (todo, o), (todo, o) :: r)
      | S k =>
          match hear k r with
          | Some (e', j, r') => Some (e', j, (e :: todo, o) :: r')
          | None => None
          end
      end
  | j0 :: r =>
      match hear n r with
      | Some (e', j, r') => Some (e', j, j0 :: r')
      | None => None
      end
  end.

(** Each job runs to its end before the next one is heard or started. *)
Fixpoint in_order (jobs : list job) : list event * outcome unit :=
  match jobs with
  | [] => ([], Done tt)
  | j :: r => say (fst j) (settle ([], snd j) (in_order r))
  end.

(** The batch from the point where the jobs [running] have started and
    the timers of [pending] have not fired: what is logged from there
    on, and how [Promise.all] settles.  A turn is a running job that is
    heard or, when it names none, the next timer that fires; once
    [turns] is over, the jobs that are left run in order. *)
Fixpoint weave (turns : list nat) (running pending : list job)
  : list event * outcome unit :=
  match turns with
  | [] => in_order (running ++ pending)
  | n :: turns' =>
      match hear n running with
      | Some (e, j, running') => say [e] (settle j (weave turns' running' pending))
      | None =>
          match pending with
          | [] => weave turns' running pending
          | p :: pending' =>
              let (a, b) := sync (fst p) in
              say a (settle (b, snd p) (weave turns' (running ++ [(b, snd p)]) pending'))
          end
      end
  end.

(** [await Promise.all(jobs)], every timer still to fire. *)
Definition all (turns : list nat) (jobs : list job) : list event * outcome unit :=
  weave turns [] jobs.

End Timers.

Module LeyserkidsComponentCollection.

(** [componentsConfig.hasOwnProperty(key)] for a key that the loop
    enumerates.  The method is the one of [Object.prototype], unless a
    component of the configuration has that very name: the property is
    then its directory, a string, and the call throws. *)
Definition hasOwnProperty (componentsConfig : list (string * string)) (key : string)
  : result bool :=
  match Json.assoc "hasOwnProperty" componentsConfig with
  | Some _ => Throw (TypeError "componentsConfig.hasOwnProperty is not a function")
  | None => Ok (bool_decide (is_Some (Json.assoc key componentsConfig)))
  end.

(** The loop over the keys of [componentsConfig], from [keys] on. *)
Fixpoint init_each (h : Host) (root : string) (componentsConfig keys : list (string * string))
  : M (list Component_t) :=
  match keys with
  | [] => ret []
  | (key, dir) :: r =>
      let* own := lift (hasOwnProperty componentsConfig key) in
      if own then
        let* c := Component.initialize h key (path_join h root dir) in
        let* cs := init_each h root componentsConfig r in
        ret (c :: cs)
      else init_each h root componentsConfig r
  end.

(** Over [undefined] the loop does not run. *)
Definition _initComponents (h : Host) (root : string) : M (list Component_t) :=
  let* w := get_world in
  match Constant.COMPONENT_DIRECTORIES w with
  | None => ret []
  | Some componentsConfig => init_each h root componentsConfig componentsConfig
  end.

(** [new LeyserkidsComponentCollection(root, latestVersion)]. *)
Definition new (h : Host) (root : string) (latestVersion : jsval) : M Collection_t :=
  let* cs := _initComponents h root in
  ret (mkCollection root cs latestVersion).

Definition find (pkgs : Collection_t) (name : string) : option Component_t :=
  List.find (fun c => String.eqb (componentName c) name) (components pkgs).

Definition getUnInstalled (pkgs : Collection_t) : list Component_t :=
  List.filter (fun c => negb (exist c)) (components pkgs).

(** [xs.filter(p)] for a predicate that may throw: the first exception
    ends the filter. *)
Fixpoint filter_r {A} (p : A -> result bool) (xs : list A) : result (list A) :=
  match xs with
  | [] => Ok []
  | x :: r =>
      rbind (p x) (fun b =>
      rbind (filter_r p r) (fun ys =>
      Ok (if b then x :: ys else ys)))
  end.

Definition getUnExpected (pkgs : Collection_t) : result (list Component_t) :=
  filter_r (fun c => Semver.lt (currentVersion c) (Some (JStr (expectedVersion c))))
    (components pkgs).

Definition getUnLatested (pkgs : Collection_t) : result (list Component_t) :=
  filter_r (fun c => Semver.lt (Some (JStr (expectedVersion c))) (latestVersion pkgs))
    (components pkgs).

(** [await Promise.all(asyncInstallFuncs.map((func) => func()))]: what
    the batch logs, and how it ends. *)
Definition await_all (h : Host) (asyncInstallFuncs : list Timers.job) : M unit :=
  fun w =>
    let r := Timers.all (turns h) asyncInstallFuncs in
    (snd r,
     mkWorld (files w) (modules w) (constant w) (stdin w) (listeners w) (trace w ++ fst r)).

(** One timer per component, in the order of the array; its callback
    installs the version that [versionFinderFunc] gives. *)
Definition installPackagesWithVersionAsync (h : Host) (componentArray : list Component_t)
  (versionFinderFunc : Component_t -> jsval) : M unit :=
  fun w =>
    let asyncInstallFuncs :=
      map (fun component =>
             Timers.job_of
               (PackageInstaller.installSpecificVersionAsync h (componentPath component)
                  (versionFinderFunc component)) w)
        componentArray in
    await_all h asyncInstallFuncs w.

(** The batch of plain installs, with the same timers. *)
Definition installPackagesAsync (h : Host) (componentArray : list Component_t) : M unit :=
  fun w =>
    let asyncInstallFuncs :=
      map (fun component =>
             Timers.job_of (PackageInstaller.installComponently h (componentPath component)) w)
        componentArray in
    await_all h asyncInstallFuncs w.

Definition installLatestAsync (h : Host) (pkgs : Collection_t)
  (componentArray : list Component_t) : M unit :=
  installPackagesWithVersionAsync h componentArray (fun _ => latestVersion pkgs).

Definition installExpectAsync (h : Host) (componentArray : list Component_t) : M unit :=
  installPackagesWithVersionAsync h componentArray
    (fun c => Some (JStr (expectedVersion c))).

(** The collection is built without a latest version. *)
Definition checkVersion (h : Host) (componentName : string) : M Z :=
  let* root := Utils.getGitRootDirectorySync h in
  let* instance := new h root None in
  match find instance componentName with
  | None => throw (TypeError "Cannot read properties of undefined (reading 'compareVersion')")
  | Some c => Component.compareVersion c
  end.

Definition checkVersionWithAssert (h : Host) (componentName : string) : M unit :=
  let* r := checkVersion h componentName in
  if (r <? 0)%Z then
    Utils.loggerError "Oops, The kr-library is outdated, Please run `krlib` to update";;
    exit 1
  else ret tt.

End LeyserkidsComponentCollection.

(** The line feed, as a string. *)
Definition nl : string := String "010" "".

Module TableBuilder.

(** A cell of the table; [str] is [undefined] until the layout. *)
Record cell : Type := mkCell {
  rawStr : string;
  length : nat;
  col : nat;
  str : option string;
}.

(** A row is an object of four cells; the code reaches them through
    [Object.values(row)], which this list is. *)
Definition row : Type := list cell.

Definition HEADER_NAME : list string := ["Module"; "Installed"; "Expected"; "Latest"].
Definition margin : string := "    ".

(** [xs.sort((ra, rb) => ra.col - rb.col)]: a stable sort. *)
Fixpoint insert (x : cell) (xs : list cell) : list cell :=
  match xs with
  | [] => [x]
  | y :: r => if (col x <=? col y)%nat then x :: xs else y :: insert x r
  end.

Definition sort (xs : list cell) : list cell := foldr insert [] xs.

Definition header : row :=
  [ mkCell "Module" (String.length "Module") 0 None;
    mkCell "Installed" (String.length "Installed") 1 None;
    mkCell "Expected" (String.length "Expected") 2 None;
    mkCell "Latest" (String.length "Latest") 3 None ].

(** A cell for a value with [length] and [padEnd].  Of a value that is
    not a string, either [length] cannot be read (here) or [padEnd] is
    not a function (in the layout): [showInstalledStatus] throws a
    [TypeError] before it prints the table. *)
Definition cell_of (v : jsval) (c : nat) : result cell :=
  match v with
  | Some (JStr s) => Ok (mkCell s (String.length s) c None)
  | _ => Throw (TypeError ("Cannot lay out " ++ Json.to_string v))
  end.

Definition row_of (pkgs : Collection_t) (c : Component_t) : result row :=
  rbind (cell_of (currentVersion c) 1) (fun cur =>
  rbind (cell_of (latestVersion pkgs) 3) (fun latest =>
  Ok [ mkCell (componentName c) (String.length (componentName c)) 0 None;
       cur;
       mkCell (expectedVersion c) (String.length (expectedVersion c)) 2 None;
       latest ])).

Fixpoint map_r {A B} (f : A -> result B) (xs : list A) : result (list B) :=
  match xs with
  | [] => Ok []
  | x :: r => rbind (f x) (fun y => rbind (map_r f r) (fun ys => Ok (y :: ys)))
  end.

(** [this.data] after [readSourceDate(pkgs)]. *)
Definition readSourceDate (pkgs : Collection_t) : result (list row) :=
  map_r (row_of pkgs) (components pkgs).

(** The loop over [acc]: [acc[i] = col[i] > acc[i] ? col[i] : acc[i]]. *)
Fixpoint widen (acc lens : list nat) : list nat :=
  match acc with
  | [] => []
  | a :: acc' =>
      match lens with
      | [] => acc
      | l :: lens' => (if (a <? l)%nat then l else a) :: widen acc' lens'
      end
  end.

(** The loop over [cols]: [col[i].str = col[i].rawStr.padEnd(cols[i], ' ') + margin]. *)
Fixpoint pad (cols : list nat) (cells : list cell) : list cell :=
  match cols, cells with
  | w :: cols', c :: cells' =>
      mkCell (rawStr c) (length c) (col c) (Some (JS.padEnd (rawStr c) w " " ++ margin))
      :: pad cols' cells'
  | _, _ => cells
  end.

(** The widths of the four columns over the rows. *)
Definition columns (data : list row) : list nat :=
  fold_left (fun acc cur => widen acc (map length (sort cur))) data [0; 0; 0; 0]%nat.

(** [xs.reduce((acc, cur) => acc + cur)] without a first value, on a
    list that is not empty. *)
Definition sum (xs : list nat) : nat :=
  match xs with
  | [] => 0
  | x :: r => fold_left Nat.add r x
  end.

Record layout : Type := mkLayout {
  data : list row;
  cols : list nat;
  width : nat;
  line : string;
}.

(** The header is put first, and every cell gets its [str]. *)
Definition _computeLayout (data0 : list row) : layout :=
  let data1 := header :: data0 in
  let cols := columns data1 in
  let width := (sum cols + (List.length HEADER_NAME - 1) * String.length margin)%nat in
  mkLayout (map (fun r => pad cols (sort r)) data1) cols width (JS.repeat "-" width).

(** The text of a row: its [str]s, one after the other. *)
Definition row_text (curRow : row) : string :=
  match map (fun c => Json.to_string (JStr <$> str c)) (sort curRow) with
  | [] => ""
  | x :: r => fold_left String.append r x
  end.

(** The [reduce] of [build] from the row of index [idx] on. *)
Fixpoint build_from (line : string) (idx : nat) (rows : list row) (accRow : string) : string :=
  match rows with
  | [] => accRow
  | curRow :: r =>
      let insert :=
        match idx with
        | 0%nat => ""
        | 1%nat => nl ++ line ++ nl
        | _ => nl
        end in
      build_from line (S idx) r (accRow ++ insert ++ row_text curRow)
  end.

Definition build (data0 : list row) : string :=
  let l := _computeLayout data0 in
  build_from (line l) 0 (data l) "".

(** The four cells that [readSourceDate] and the header put in a row. *)
Definition cells (a b c d : string) : row :=
  [ mkCell a (String.length a) 0 None; mkCell b (String.length b) 1 None;
    mkCell c (String.length c) 2 None; mkCell d (String.length d) 3 None ].

(** The text of a row of the table whose columns are [w0] to [w3] wide. *)
Definition padded (w0 w1 w2 w3 : nat) (a b c d : string) : string :=
  (JS.padEnd a w0 " " ++ margin) ++ (JS.padEnd b w1 " " ++ margin)
  ++ (JS.padEnd c w2 " " ++ margin) ++ (JS.padEnd d w3 " " ++ margin).

End TableBuilder.

Module Cli.

Definition LOGO : string :=
  "    __ __         __    _ __                         " ++ nl ++
  "   / //_/_____   / /   (_) /_  _________ ________  __" ++ nl ++
  "  / ,<  / ___/  / /   / / __ \/ ___/ __ `/ ___/ / / /" ++ nl ++
  " / /| |/ /     / /___/ / /_/ / /  / /_/ / /  / /_/ / " ++ nl ++
  "/_/ |_/_/     /_____/_/_.___/_/   \__,_/_/   \__, /  " ++ nl ++
  "                                            /____/   " ++ nl.

Definition showLogo : M unit := Utils.loggerInfo LOGO.

(** The source of the class between the brackets of
    [new RegExp(`[${expectedInputs.join('|')}]`, 'g')]. *)
Definition matcher (expectedInputs : list json) : string :=
  Json.join "|" expectedInputs.

(** The test of a [data] handler: exactly one match, which it
    resolves with. *)
Definition accepts (cls data : string) : option string :=
  match Regex.match_class cls data with
  | Some [m] => Some m
  | _ => None
  end.

(** One [data] event through the handlers on stdin, oldest first:
    each one that does not accept warns; one that accepts pauses
    stdin. *)
Fixpoint dispatch (handlers : list string) (data : string) : list event * bool :=
  match handlers with
  | [] => ([], false)
  | cls :: r =>
      let (es, paused) := dispatch r data in
      match accepts cls data with
      | Some _ => (es, true)
      | None => (Warning "Invalied input" :: es, paused)
      end
  end.

(** The wait for the promise of the handler [cls], the last one put on
    stdin: the answer, the input left, what was logged.  No handler is
    ever removed; when an older one pauses stdin and this one did not
    accept, or when the input ends, the promise stays pending. *)
Fixpoint await_input (handlers : list string) (cls : string) (input : list string)
  : outcome string * list string * list event :=
  match input with
  | [] => (Waiting, [], [])
  | data :: r =>
      let (es, paused) := dispatch handlers data in
      match accepts cls data with
      | Some m => (Done m, r, es)
      | None =>
          if paused then (Waiting, r, es)
          else let '(o, r', es') := await_input handlers cls r in (o, r', (es ++ es')%list)
      end
  end.

Definition getUserInputAsync (expectedInputs : list json) : M string :=
  fun w =>
    let cls := matcher expectedInputs in
    let handlers := (listeners w ++ [cls])%list in
    let '(o, r, es) := await_input handlers cls (stdin w) in
    (o, mkWorld (files w) (modules w) (constant w) r handlers (trace w ++ es)%list).

Definition checkEnvironmentAsync (h : Host) : M unit :=
  let* ok := Utils.checkLeyserkidsRepositoryAsync h in
  if negb ok then
    Utils.loggerError "Please run this command in leyserkids directory!";;
    exit 1
  else ret tt.

Definition obtainLatestVersionAsync (h : Host) : M jsval :=
  Utils.loggerInfo "Obtaining the version number . . .";;
  let* version := Utils.getLatestVersionAsync h in
  Utils.loggerSuccess ("The latest kr-library is " ++ Json.to_string version);;
  ret version.

Definition showInstalledStatus (pkgs : Collection_t) : M unit :=
  Utils.loggerInfo (nl ++ "Overview" ++ nl ++ "========");;
  let* data := lift (TableBuilder.readSourceDate pkgs) in
  Utils.loggerInfo (TableBuilder.build data).

(** The inputs every prompt of the orchestrator expects: [['y', ['n']]]. *)
Definition yes_no : list json := [JStr "y"; JArr [JStr "n"] []].

Definition checkFullyInstalled (h : Host) (pkgs : Collection_t) : M unit :=
  let unInstalled := LeyserkidsComponentCollection.getUnInstalled pkgs in
  if (0 <? List.length unInstalled)%nat then
    Utils.loggerError (nl ++ "Oops, The kr-library is not fully installed, " ++ nl ++ nl
                       ++ "Type [y] to confirm install or [n] to exit");;
    let* ipt := getUserInputAsync yes_no in
    if String.eqb ipt "y" then
      LeyserkidsComponentCollection.installExpectAsync h unInstalled;;
      exit 0
    else exit 0
  else ret tt.

Definition checkExpectedVersion (h : Host) (pkgs : Collection_t) : M unit :=
  let* unExpected := lift (LeyserkidsComponentCollection.getUnExpected pkgs) in
  if (0 <? List.length unExpected)%nat then
    Utils.loggerError (nl ++ "Oops, The kr-library is outdated, " ++ nl ++ nl
                       ++ "Type [y] to confirm install or [n] to ignore");;
    let* ipt := getUserInputAsync yes_no in
    if String.eqb ipt "y" then
      LeyserkidsComponentCollection.installExpectAsync h unExpected;;
      exit 0
    else ret tt
  else ret tt.

Definition checkLatestVersion (h : Host) (pkgs : Collection_t) : M unit :=
  let* unLatested := lift (LeyserkidsComponentCollection.getUnLatested pkgs) in
  if (0 <? List.length unLatested)%nat then
    Utils.loggerWarning (nl ++ "The latest version kr-library is available, " ++ nl ++ nl
                         ++ "Type [y] to confirm update to latest or [n] to ignore");;
    let* ipt := getUserInputAsync yes_no in
    if String.eqb ipt "y" then
      LeyserkidsComponentCollection.installLatestAsync h pkgs unLatested;;
      exit 0
    else ret tt
  else ret tt.

Definition checkNPMVersion (h : Host) : M unit :=
  let* npmVersion := Utils.getNpmVersionAsync h in
  let* low := lift (Semver.lt (Some (JStr npmVersion))
                      (Some (JStr Constant.MINIMUM_NPM_VERSION))) in
  if low then
    Utils.loggerError ("Oops! The npm version is too low. " ++ nl ++ nl
                       ++ "Please update npm (gte 5.7.1)");;
    exit 1
  else ret tt.

(** The body of [run] up to the display of the table: the checks of
    the environment, the discovery, the table. *)
Definition discover (h : Host) : M Collection_t :=
  showLogo;;
  checkEnvironmentAsync h;;
  checkNPMVersion h;;
  let* rootPath := Utils.getGitRootDirectorySync h in
  Constant.merge h rootPath;;
  let* latestVersion := obtainLatestVersionAsync h in
  let* pkgs := LeyserkidsComponentCollection.new h rootPath latestVersion in
  showInstalledStatus pkgs;;
  ret pkgs.

(** The three reconciliations, in order. *)
Definition reconcile (h : Host) (pkgs : Collection_t) : M unit :=
  checkFullyInstalled h pkgs;;
  checkExpectedVersion h pkgs;;
  checkLatestVersion h pkgs.

Definition run (h : Host) : M unit :=
  try_catch
    (let* pkgs := discover h in reconcile h pkgs)
    (fun err =>
       Utils.loggerError ("Failed to run krlib, err: " ++ message err ++ " "
                          ++ String "013" nl ++ " " ++ stack h err);;
       exit 1).

End Cli.

(** ** The batch of installs, step by step

    [installPackagesWithVersionAsync] makes one promise per component.
    The timer of index [i] is set to [i * 500] ms, so the timers fire in
    the order of the indices; a child that runs logs as its output
    comes, and its promise settles when [installSpecificVersionAsync]
    returns: [resolve()] after a return, [reject(err)] after a throw.
    [Promise.all] resolves once every promise has resolved. *)
Module Batch.
Section Batch.

Variable h : Host.
Variable w : World.
Variable componentArray : list Component_t.
Variable versionFinderFunc : Component_t -> jsval.

Definition silent (w0 : World) : World :=
  mkWorld (files w0) (modules w0) (constant w0) (stdin w0) (listeners w0) [].

(** What the install of [c] logs, in order, and how it ends. *)
Definition script (c : Component_t) : list event * outcome unit :=
  let r := PackageInstaller.installSpecificVersionAsync h (componentPath c)
             (versionFinderFunc c) (silent w) in
  (trace (snd r), fst r).

Inductive job : Type :=
| Timer                                           (* the timer has not fired *)
| Running (todo : list event) (o : outcome unit)  (* what is still to be logged *)
| Resolved
| Rejected (e : exn).

Record state : Type := mkState {
  jobs : list job;
  log : list event;
}.

Definition init : state := mkState (map (fun _ => Timer) componentArray) [].

Inductive step : state -> state -> Prop :=
| fire s i c :
    jobs s !! i = Some Timer ->
    (forall j, (j < i)%nat -> jobs s !! j <> Some Timer) ->
    componentArray !! i = Some c ->
    step s (mkState (<[i := Running (fst (script c)) (snd (script c))]> (jobs s)) (log s))
| say s i e todo o :
    jobs s !! i = Some (Running (e :: todo) o) ->
    step s (mkState (<[i := Running todo o]> (jobs s)) (log s ++ [e]))
| resolve s i :
    jobs s !! i = Some (Running [] (Done tt)) ->
    step s (mkState (<[i := Resolved]> (jobs s)) (log s))
| reject s i e :
    jobs s !! i = Some (Running [] (Thrown e)) ->
    step s (mkState (<[i := Rejected e]> (jobs s)) (log s)).

(** [Promise.all] has resolved. *)
Definition all_resolved (s : state) : Prop :=
  Forall (fun j => j = Resolved) (jobs s).

(** Some promise has rejected, so [Promise.all] has. *)
Definition some_rejected (s : state) : Prop :=
  Exists (fun j => exists e, j = Rejected e) (jobs s).

(** The steps a job still has to take. *)
Definition weight (c : Component_t) (j : job) : nat :=
  match j with
  | Timer => S (S (List.length (fst (script c))))
  | Running todo _ => S (List.length todo)
  | Resolved | Rejected _ => 0
  end.

Fixpoint measure_of (cs : list Component_t) (js : list job) : nat :=
  match cs, js with
  | c :: cs', j :: js' => weight c j + measure_of cs' js'
  | _, _ => 0
  end.

Definition measure (s : state) : nat := measure_of componentArray (jobs s).

(** The events of the install of [c] in a batch started in [w]. *)
Definition job_events (c : Component_t) : list event :=
  PackageInstaller.events h w (componentPath c) (versionFinderFunc c).

(** What holds of a job all along: it never rejects, and what it has
    logged so far is in the log. *)
Definition job_ok (lg : list event) (c : Component_t) (j : job) : Prop :=
  match j with
  | Timer => True
  | Running todo o =>
      o = Done tt
      /\ exists done, job_events c = (done ++ todo)%list /\ Forall (fun e => In e lg) done
  | Resolved => Forall (fun e => In e lg) (job_events c)
  | Rejected _ => False
  end.

Definition batch_ok (s : state) : Prop :=
  Forall2 (job_ok (log s)) componentArray (jobs s).

End Batch.
End Batch.

(** ** The notions the specification speaks of *)
Module Version.

(** The decimal numeral of a number. *)
Definition numeral (n : N) : string := NilEmpty.string_of_uint (N.to_uint n).

(** A string <<X.Y.Z>> of three runs of digits. *)
Definition dotted (x y z : string) : string := x ++ "." ++ y ++ "." ++ z.

Definition digits (s : string) : Prop := JS.all JS.is_digit s = true.

(** The standard string <<MAJOR.MINOR.PATCH>> of three numbers. *)
Definition to_string (v : N * N * N) : string :=
  let '(a, b, c) := v in numeral a ++ "." ++ numeral b ++ "." ++ numeral c.

(** The three numbers are numbers a version can hold. *)
Definition safe (v : N * N * N) : Prop :=
  let '(a, b, c) := v in
  (a <= Semver.MAX_SAFE_INTEGER /\ b <= Semver.MAX_SAFE_INTEGER
   /\ c <= Semver.MAX_SAFE_INTEGER)%N.

(** Semantic-version precedence: the major numbers decide, then the
    minor ones, then the patch ones, each compared as a number. *)
Definition precedence (x y : N * N * N) : comparison :=
  let '(a, b, c) := x in
  let '(a', b', c') := y in
  match (a ?= a')%N with
  | Eq => match (b ?= b')%N with
          | Eq => (c ?= c')%N
          | r => r
          end
  | r => r
  end.

(** The result a comparator returns for an order. *)
Definition sign (c : comparison) : Z :=
  match c with
  | Lt => (-1)%Z
  | Eq => 0%Z
  | Gt => 1%Z
  end.

(** [m] is a maximum of [vs] by precedence. *)
Definition is_max (m : N * N * N) (vs : list (N * N * N)) : Prop :=
  In m vs /\ forall v, In v vs -> precedence v m <> Gt.

(** The later of two versions; the first one when they are equal. *)
Definition later (x y : N * N * N) : N * N * N :=
  match precedence x y with
  | Lt => y
  | _ => x
  end.

(** The latest version of a list. *)
Definition latest (vs : list (N * N * N)) : option (N * N * N) :=
  match vs with
  | [] => None
  | v :: r => Some (fold_left later r v)
  end.

(** The class <<[0-9a-f]>> of the digits of an object name. *)
Definition is_hex (c : ascii) : bool :=
  JS.is_digit c || ((97 <=? JS.code c)%N && (JS.code c <=? 102)%N).

(** A line of <<git ls-remote --tags --refs>>, without its newline.
    [Tag sha v rest]: the object name, a tab, and a tag whose name is
    vX.Y.Z followed by [rest] (nothing for the tag vX.Y.Z itself).
    [Other text]: any other line. *)
Inductive ref : Type :=
| Tag (sha : string) (v : N * N * N) (rest : string)
| Other (text : string).

Definition ref_text (r : ref) : string :=
  match r with
  | Tag sha v rest => sha ++ String "009" ("refs/tags/v" ++ to_string v ++ rest)
  | Other text => text
  end.

Definition ref_line (r : ref) : string := ref_text r ++ nl.

Fixpoint ls_remote (refs : list ref) : string :=
  match refs with
  | [] => ""
  | r :: rs => ref_line r ++ ls_remote rs
  end.

(** The versions of the tags of the lines, in order. *)
Fixpoint tags (refs : list ref) : list (N * N * N) :=
  match refs with
  | [] => []
  | Tag _ v _ :: rs => v :: tags rs
  | Other _ :: rs => tags rs
  end.

(** The versions of the tags whose name is vX.Y.Z and nothing more,
    in order. *)
Fixpoint exact_tags (refs : list ref) : list (N * N * N) :=
  match refs with
  | [] => []
  | Tag _ v "" :: rs => v :: exact_tags rs
  | _ :: rs => exact_tags rs
  end.

(** The name of every tag that starts with vX.Y.Z ends there. *)
Definition exact (r : ref) : Prop :=
  match r with
  | Tag _ _ rest => rest = ""
  | Other _ => True
  end.

(** The pattern of the tags matches nowhere in the line [s]. *)
Definition plain (s : string) : bool :=
  match Regex.scan "refs/tags/v" 0 (s ++ nl) with
  | [] => true
  | _ => false
  end.

(** [s] does not go on with a digit. *)
Definition no_digit_ahead (s : string) : bool :=
  match s with
  | "" => true
  | String c _ => negb (JS.is_digit c)
  end.

(** The lines the facts on the latest version are about: the object
    name of a tag is in lower-case hexadecimal digits, its numbers are
    numbers a version can hold, and what follows them neither is a digit
    nor holds the pattern again; another line does not hold the pattern. *)
Definition ref_ok (r : ref) : Prop :=
  match r with
  | Tag sha v rest =>
      JS.all is_hex sha = true /\ safe v
      /\ no_digit_ahead rest = true /\ plain rest = true
  | Other text => plain text = true
  end.

End Version.

(** The characters [y] and [n] of an input, in order. *)
Fixpoint answers (data : string) : list ascii :=
  match data with
  | "" => []
  | String c r =>
      if Ascii.eqb c "y" || Ascii.eqb c "n" then c :: answers r else answers r
  end.

(** No manifest, on the disk or in the cache of [require], carries the
    empty string as its version. *)
Definition no_empty_version (w : World) : Prop :=
  forall p j, files w !! p = Some (Doc j) \/ modules w !! p = Some j ->
              Json.get j "version" <> Ok (Some (JStr "")).

(** A new process on the same disk: nothing required yet, no handler on
    stdin, [Constant] not merged. *)
Definition restart (w : World) : World :=
  mkWorld (files w) ∅ None (stdin w) [] (trace w).

(** ** A machine and a repository to run the program on *)
Module Demo.

Definition config : Config :=
  mkConfig "https://git.example/gcleyser/kr-library.git" [("a", "a"); ("b", "b")].

(** A run of [npm] that prints nothing and closes with [code]. *)
Definition quiet (code : Z) : proc := mkProc [] (Some code).

(** A machine whose commands print [out], whose [npm] runs as [run]. *)
Definition host (out : string -> result string) (run : string -> list string -> proc) : Host :=
  mkHost out run (fun a b => a ++ "/" ++ b) (fun p => p) (fun _ => Ok config) (fun _ => "") [].

(** The machine [h], on which the children of a batch are heard in the
    order [t]. *)
Definition heard (t : list nat) (h : Host) : Host :=
  mkHost (exec h) (npm h) (path_join h) (path_resolve h) (config_at h) (stack h) t.

(** A process at its start: nothing required yet, [Constant] not merged. *)
Definition world (disk : gmap string file) (input : list string) : World :=
  mkWorld disk ∅ None input [] [].

(** The same once [Constant] holds the configuration. *)
Definition merged (disk : gmap string file) (input : list string) : World :=
  mkWorld disk ∅ (Some config) input [] [].

Definition sha1 : string := "5f3b1c0e9a7d4b2f8c6e1a3d5b7f9c0e2a4d6b8f".
Definition sha2 : string := "0a1b2c3d4e5f60718293a4b5c6d7e8f901234567".
Definition sha3 : string := "fedcba9876543210fedcba9876543210fedcba98".

(** The tags of the remote: v1.0.0, v1.2.0, v1.1.5. *)
Definition tags : list Version.ref :=
  [Version.Tag sha1 (1, 0, 0)%N ""; Version.Tag sha2 (1, 2, 0)%N "";
   Version.Tag sha3 (1, 1, 5)%N ""].

(** A remote with a release and the candidate of the next one:
    v1.9.0 and v1.10.0-rc1. *)
Definition candidate_tags : list Version.ref :=
  [Version.Tag sha1 (1, 9, 0)%N ""; Version.Tag sha2 (1, 10, 0)%N "-rc1"].

(** A machine on which git lists the lines [refs] for every remote. *)
Definition remote (refs : list Version.ref) : Host :=
  host (fun _ => Ok (Version.ls_remote refs)) (fun _ _ => mkProc [] (Some 0%Z)).

(** What [git] and [npm --version] print in the repository [/repo]. *)
Definition commands (cmd : string) : result string :=
  if String.eqb cmd "git rev-parse --show-toplevel" then Ok ("/repo" ++ nl)
  else if String.eqb cmd "git remote get-url --push origin"
       then Ok ("git@git.example:gcleyser/mono.git" ++ nl)
  else if String.eqb cmd "npm --version" then Ok ("6.14.8" ++ nl)
  else if String.eqb cmd ("git ls-remote --tags --refs " ++ url config)
       then Ok (Version.ls_remote tags)
  else Throw (Error ("Command failed: " ++ cmd)).

(** Every [npm install] succeeds, but in the component [b]. *)
Definition installs (cwd : string) (args : list string) : proc :=
  if String.eqb cwd "/repo/b" then mkProc [Stderr "npm ERR! code E404"] (Some 1%Z)
  else mkProc [Stdout "added 1 package"] (Some 0%Z).

Definition machine : Host := host commands installs.

(** The manifest of a component that pins kr-library at [v]. *)
Definition manifest (name v : string) : json :=
  JObj [("name", JStr name);
        ("dependencies",
         JObj [("lodash", JStr "^4.17.0");
               ("kr-library", JStr ("git+" ++ url config ++ "#semver:" ++ v))]);
        ("private", JBool true)].

(** The component [a] has never been installed; [b] holds kr-library 1.0.0. *)
Definition disk : gmap string file :=
  <["/repo/a/package.json" := Doc (manifest "a" "1.0.0")]>
  (<["/repo/b/package.json" := Doc (manifest "b" "1.2.0")]>
  (<["/repo/b/node_modules/kr-library/package.json" :=
       Doc (JObj [("name", JStr "kr-library"); ("version", JStr "1.0.0")])]> ∅)).

(** The component [a], as [initialize] finds it on [disk]. *)
Definition component_a : Component_t :=
  mkComponent "a" "/repo/a" "/repo/a/package.json"
    "/repo/a/node_modules/kr-library/package.json" false (Some (JStr "")) "1.0.0".

(** A configuration with a component named like a method of objects. *)
Definition odd_config : Config :=
  mkConfig "https://git.example/gcleyser/kr-library.git"
    [("a", "a"); ("hasOwnProperty", "tools")].

(** A configuration whose URL names a branch. *)
Definition branch_config : Config :=
  mkConfig "https://git.example/gcleyser/kr-library.git#main" [("a", "a")].

(** A configuration whose URL holds a pin of its own. *)
Definition pinned_config : Config :=
  mkConfig "https://git.example/gcleyser/kr-library.git#semver:0.0.1" [("a", "a")].

(** The disk of [Demo], but the manifest of the kr-library installed in
    [b] carries the empty string as its version. *)
Definition blank_disk : gmap string file :=
  <["/repo/b/node_modules/kr-library/package.json" :=
      Doc (JObj [("name", JStr "kr-library"); ("version", JStr "")])]> disk.

Definition component_b : Component_t :=
  mkComponent "b" "/repo/b" "/repo/b/package.json"
    "/repo/b/node_modules/kr-library/package.json" true (Some (JStr "1.0.0")) "1.2.0".

(** The collection that the discovery builds on [disk]. *)
Definition collection : Collection_t :=
  mkCollection "/repo" [component_a; component_b] (Some (JStr "1.2.0")).

(** A machine on which no command runs. *)
Definition broken : Host :=
  host (fun cmd => Throw (Error ("Command failed: " ++ cmd))) (fun _ _ => quiet 0).

(** The repository before any install: the two manifests, and no
    installed kr-library. *)
Definition fresh_disk : gmap string file :=
  <["/repo/a/package.json" := Doc (manifest "a" "1.0.0")]>
  (<["/repo/b/package.json" := Doc (manifest "b" "1.2.0")]> ∅).

(** The collection that the discovery builds on [fresh_disk]. *)
Definition fresh_collection : Collection_t :=
  mkCollection "/repo"
    [component_a;
     mkComponent "b" "/repo/b" "/repo/b/package.json"
       "/repo/b/node_modules/kr-library/package.json" false (Some (JStr "")) "1.2.0"]
    (Some (JStr "1.2.0")).

(** The installed manifest of kr-library at the version [v]. *)
Definition installed (v : string) : json :=
  JObj [("name", JStr "kr-library"); ("version", JStr v)].

(** Both components hold kr-library 1.2.0, the version they pin and the
    latest one. *)
Definition synced_disk : gmap string file :=
  <["/repo/a/package.json" := Doc (manifest "a" "1.2.0")]>
  (<["/repo/a/node_modules/kr-library/package.json" := Doc (installed "1.2.0")]>
  (<["/repo/b/package.json" := Doc (manifest "b" "1.2.0")]>
  (<["/repo/b/node_modules/kr-library/package.json" := Doc (installed "1.2.0")]> ∅))).

(** The tool itself, installed in [/opt/krlib]. *)
Definition cli_disk : gmap string file :=
  <["/opt/krlib/bin/../package.json" :=
      Doc (JObj [("name", JStr "krlib"); ("version", JStr "2.0.1")])]> ∅.

(** A manifest that asks for kr-library by a range, not by a pin. *)
Definition ranged_disk : gmap string file :=
  <["/repo/a/package.json" :=
      Doc (JObj [("name", JStr "a");
                 ("dependencies", JObj [("kr-library", JStr "^1.0.0")])])]> ∅.

(** The component [b] installed at 1.0.0 and pinned at 1.0.0. *)
Definition component_c : Component_t :=
  mkComponent "b" "/repo/b" "/repo/b/package.json"
    "/repo/b/node_modules/kr-library/package.json" true (Some (JStr "1.0.0")) "1.0.0".

End Demo.

(** ** Notions the proofs speak of *)

(** The version that [new SemVer] builds from a standard string. *)
Definition semver_of (v : N * N * N) : Semver.SemVer :=
  Semver.mkSemVer (fst (fst v)) (snd (fst v)) (snd v) [].

(** The disk is the same, and what the cache holds more was read from
    the disk. *)
Definition extends (w w' : World) : Prop :=
  files w' = files w
  /\ forall p j, modules w' !! p = Some j ->
                 modules w !! p = Some j \/ files w !! p = Some (Doc j).

(** A computation that only reads the disk, through [require] or
    [existsSync]. *)
Definition reads {A} (m : M A) : Prop :=
  forall w o w', m w = (o, w') -> extends w w'.

(** What [initialize] finds on the disk [w]. *)
Definition initialized (w : World) (c : Component_t) : Prop :=
  exist c = bool_decide (is_Some (files w !! krLibraryPackageJson c))
  /\ (exist c = false -> currentVersion c = Some (JStr ""))
  /\ (no_empty_version w -> currentVersion c = Some (JStr "") -> exist c = false).

(** The world after the events [es] were logged. *)
Definition log_all (es : list event) (w : World) : World :=
  mkWorld (files w) (modules w) (constant w) (stdin w) (listeners w) (trace w ++ es).

(** What [checkFullyInstalled] logs before it prompts. *)
Definition not_fully_installed : event :=
  Failure (nl ++ "Oops, The kr-library is not fully installed, " ++ nl ++ nl
           ++ "Type [y] to confirm install or [n] to exit").

(** [x > a ? x : a]. *)
Definition wider (a x : nat) : nat := if (a <? x)%nat then x else a.

(** A row of four cells, as [readSourceDate] makes them. *)
Definition is_cells (r : TableBuilder.row) : Prop :=
  exists a b c d, r = TableBuilder.cells a b c d.

(** A row fits the columns. *)
Definition fits (w0 w1 w2 w3 : nat) (r : TableBuilder.row) : Prop :=
  forall a b c d, r = TableBuilder.cells a b c d ->
    (String.length a <= w0 /\ String.length b <= w1
     /\ String.length c <= w2 /\ String.length d <= w3)%nat.

(** The text [p] occurs in [s]. *)
Definition occurs (p s : string) : Prop := exists a b, s = a ++ p ++ b.

(** No character of [s] is a line feed. *)
Definition one_line (s : string) : bool :=
  JS.all (fun c => negb (Ascii.eqb c "010")) s.

(** The children spawned among the events [es]: the directory and the
    arguments of each, in order. *)
Fixpoint spawns (es : list event) : list (string * list string) :=
  match es with
  | [] => []
  | Spawned cwd args :: r => (cwd, args) :: spawns r
  | _ :: r => spawns r
  end.

(** A test that returned [true]. *)
Definition holds (r : result bool) : bool :=
  match r with
  | Ok true => true
  | _ => false
  end.

(** The version [x] is below [y] by precedence. *)
Definition before (x y : N * N * N) : bool :=
  match Version.precedence x y with
  | Lt => true
  | _ => false
  end.

(** The results of [semver.compare]. *)
Definition sign_value (r : Z) : Prop := (r = -1 \/ r = 0 \/ r = 1)%Z.

(** The error that [Component] throws on a manifest it cannot use. *)
Definition could_load (e : exn) : Prop :=
  exists path, e = Error ("Could load " ++ path ++ ", please make the file vailed").

(** A value that is a string. *)
Definition is_text (v : jsval) : bool :=
  match v with
  | Some (JStr _) => true
  | _ => false
  end.

(** The table of [pkgs] can be laid out: the versions it shows have a
    [length] and a [padEnd]. *)
Definition displayable (pkgs : Collection_t) : bool :=
  match components pkgs with
  | [] => true
  | cs => is_text (latestVersion pkgs) && forallb (fun c => is_text (currentVersion c)) cs
  end.

(** The title [showInstalledStatus] logs above the table. *)
Definition overview : event := Info (nl ++ "Overview" ++ nl ++ "========").

(** What [checkExpectedVersion] logs before it prompts. *)
Definition outdated : event :=
  Failure (nl ++ "Oops, The kr-library is outdated, " ++ nl ++ nl
           ++ "Type [y] to confirm install or [n] to ignore").

(** What [checkLatestVersion] logs before it prompts. *)
Definition latest_available : event :=
  Warning (nl ++ "The latest version kr-library is available, " ++ nl ++ nl
           ++ "Type [y] to confirm update to latest or [n] to ignore").

(** A job whose install returns, so that its promise resolves. *)
Definition resolves (j : Timers.job) : Prop := snd j = Done tt.

(** A job that spawns nothing after the child its timer started. *)
Definition spawns_once (j : Timers.job) : Prop :=
  spawns (snd (Timers.sync (fst j))) = [].

(** A job that runs, as a state of the batch has it. *)
Definition running_job (j : Timers.job) : Batch.job := Batch.Running (fst j) (snd j).

(** What [installComponently] logs in the directory [path]. *)
Definition plain_events (h : Host) (path : string) : list event :=
  let child := npm h path ["install"] in
  [Info ("Please wait, Running 'npm install' at " ++ path ++ " . . ."); Spawned path ["install"]]
  ++ concat (map PackageInstaller.on_data (output child))
  ++ [PackageInstaller.report_install path (exit_code child)].

(** A computation that exits, if it does, with code 0 or 1. *)
Definition exits01 {A} (m : M A) : Prop :=
  forall w, match fst (m w) with
            | Exited c => (c = 0 \/ c = 1)%Z
            | _ => True
            end.

(* ===================================================================== *)
(** * Part II: lemmas and theorems                                        *)
(* ===================================================================== *)

(** ** Strings *)

(** [simpl] computes a concatenation whose first string is known. *)
#[local] Arguments String.append !_ _ : simpl nomatch.

Lemma append_nil_r (s : string) : s ++ "" = s.
Proof. induction s as [|c s IH]; simpl; [reflexivity | now rewrite IH]. Qed.

Lemma append_assoc (a b c : string) : (a ++ b) ++ c = a ++ (b ++ c).
Proof. induction a as [|x a IH]; simpl; [reflexivity | now rewrite IH]. Qed.

Lemma length_append (a b : string) :
  String.length (a ++ b) = (String.length a + String.length b)%nat.
Proof. induction a as [|x a IH]; simpl; [reflexivity | now rewrite IH]. Qed.

Lemma length_repeat (c : ascii) (n : nat) : String.length (JS.repeat c n) = n.
Proof. induction n as [|n IH]; simpl; [reflexivity | now rewrite IH]. Qed.

Lemma all_append (p : ascii -> bool) (a b : string) :
  JS.all p (a ++ b) = JS.all p a && JS.all p b.
Proof.
  induction a as [|x a IH]; simpl; [reflexivity |].
  rewrite IH. now rewrite andb_assoc.
Qed.

(** A greedy run stops at the first character outside the class. *)
Lemma span_stop (p : ascii -> bool) (d : string) (c : ascii) (r : string) :
  JS.all p d = true -> p c = false ->
  JS.span p (d ++ String c r) = (d, String c r).
Proof.
  intros Hd Hc. induction d as [|x d IH]; simpl in *.
  - now rewrite Hc.
  - apply andb_true_iff in Hd as [Hx Hd]. rewrite Hx, (IH Hd). reflexivity.
Qed.

Lemma span_all (p : ascii -> bool) (d : string) :
  JS.all p d = true -> JS.span p d = (d, "").
Proof.
  intros Hd. induction d as [|x d IH]; simpl in *; [reflexivity |].
  apply andb_true_iff in Hd as [Hx Hd]. rewrite Hx, (IH Hd). reflexivity.
Qed.

Lemma rev_acc_append (s acc : string) : JS.rev_acc s acc = JS.rev s ++ acc.
Proof.
  unfold JS.rev. revert acc.
  induction s as [|c s IH]; intros acc; simpl; [reflexivity |].
  rewrite IH, (IH (String c "")), append_assoc. reflexivity.
Qed.

Lemma rev_append (a b : string) : JS.rev (a ++ b) = JS.rev b ++ JS.rev a.
Proof.
  induction a as [|c a IH]; simpl.
  - now rewrite append_nil_r.
  - unfold JS.rev at 1 3. simpl. rewrite !rev_acc_append, IH, append_assoc.
    reflexivity.
Qed.

Lemma rev_involutive (s : string) : JS.rev (JS.rev s) = s.
Proof.
  induction s as [|c s IH]; [reflexivity |].
  unfold JS.rev at 2. simpl. rewrite rev_acc_append, rev_append, IH.
  reflexivity.
Qed.

Lemma all_rev_acc (p : ascii -> bool) (s acc : string) :
  JS.all p (JS.rev_acc s acc) = JS.all p s && JS.all p acc.
Proof.
  revert acc. induction s as [|c s IH]; intros acc; simpl; [reflexivity |].
  rewrite IH. simpl. now rewrite andb_assoc, (andb_comm (JS.all p s)).
Qed.

Lemma drop_while_none (p : ascii -> bool) (s : string) :
  JS.all (fun c => negb (p c)) s = true -> JS.drop_while p s = s.
Proof.
  destruct s as [|c s]; simpl; [reflexivity |].
  intros [Hc _]%andb_true_iff. apply negb_true_iff in Hc. now rewrite Hc.
Qed.

(** [trim] leaves alone a string that holds no white space. *)
Lemma trim_no_space (s : string) :
  JS.all (fun c => negb (JS.is_space c)) s = true -> JS.trim s = s.
Proof.
  intros Hs. unfold JS.trim. rewrite (drop_while_none _ s Hs).
  rewrite drop_while_none; [apply rev_involutive |].
  unfold JS.rev. rewrite all_rev_acc, Hs. reflexivity.
Qed.

Lemma all_impl (p q : ascii -> bool) (s : string) :
  (forall c, p c = true -> q c = true) -> JS.all p s = true -> JS.all q s = true.
Proof.
  intros Hpq. induction s as [|c s IH]; simpl; [reflexivity |].
  intros [Hc Hs]%andb_true_iff. now rewrite (Hpq c Hc), (IH Hs).
Qed.

(** ** Decimal numerals *)

Lemma number_acc_pos (d : Decimal.uint) (acc : positive) :
  JS.number_acc (Npos acc) (NilEmpty.string_of_uint d) = Npos (Pos.of_uint_acc d acc).
Proof.
  revert acc.
  induction d as [|d IH|d IH|d IH|d IH|d IH|d IH|d IH|d IH|d IH|d IH]; intros acc;
    [reflexivity | cbn [NilEmpty.string_of_uint JS.number_acc Pos.of_uint_acc]; rewrite <- IH; f_equal;
                   cbv [JS.code N_of_ascii N_of_digits]; lia ..].
Qed.

Lemma number_numeral_uint (d : Decimal.uint) :
  JS.number (NilEmpty.string_of_uint d) = N.of_uint d.
Proof.
  unfold JS.number, N.of_uint.
  induction d as [|d IH|d IH|d IH|d IH|d IH|d IH|d IH|d IH|d IH|d IH];
    [reflexivity | exact IH | cbn [NilEmpty.string_of_uint JS.number_acc Pos.of_uint]; apply number_acc_pos ..].
Qed.

(** [+s] reads back the number a numeral was written from. *)
Lemma number_numeral (n : N) : JS.number (Version.numeral n) = n.
Proof. unfold Version.numeral. rewrite number_numeral_uint. apply DecimalN.Unsigned.of_to. Qed.

Lemma all_digit_uint (d : Decimal.uint) :
  JS.all JS.is_digit (NilEmpty.string_of_uint d) = true.
Proof. induction d; simpl; auto. Qed.

Lemma all_digit_numeral (n : N) : JS.all JS.is_digit (Version.numeral n) = true.
Proof. apply all_digit_uint. Qed.

Lemma numeric_identifier_uint (d : Decimal.uint) :
  d <> Decimal.Nil -> (forall d', d <> Decimal.D0 d') ->
  Semver.numeric_identifier (NilEmpty.string_of_uint d) = true.
Proof.
  intros Hnil H0.
  destruct d as [|d|d|d|d|d|d|d|d|d|d]; try congruence;
    try (exfalso; exact (H0 _ eq_refl));
    cbn [NilEmpty.string_of_uint Semver.numeric_identifier];
    pose proof (all_digit_uint d) as Hd;
    (destruct (NilEmpty.string_of_uint d); [reflexivity | rewrite Hd; reflexivity]).
Qed.

(** The numeral of a positive number is written without a leading zero. *)
Lemma to_uint_head (p : positive) :
  Pos.to_uint p <> Decimal.Nil /\ forall d', Pos.to_uint p <> Decimal.D0 d'.
Proof.
  split; [apply DecimalPos.Unsigned.to_uint_nonnil |].
  intros d' H.
  pose proof (DecimalPos.Unsigned.to_of (Pos.to_uint p)) as Hn.
  rewrite DecimalPos.Unsigned.of_to in Hn. cbn [N.to_uint] in Hn.
  assert (Hz : Decimal.nzhead (Pos.to_uint p) <> Decimal.Nil).
  { intros Hz. apply (DecimalPos.Unsigned.to_uint_nonzero p).
    rewrite Hn. now apply DecimalFacts.unorm_0. }
  rewrite (DecimalFacts.unorm_nzhead _ Hz) in Hn.
  apply (DecimalFacts.nzhead_nonzero (Pos.to_uint p) d'). congruence.
Qed.

Lemma numeric_identifier_numeral (n : N) :
  Semver.numeric_identifier (Version.numeral n) = true.
Proof.
  destruct n as [|p]; [reflexivity |].
  unfold Version.numeral. cbn [N.to_uint].
  destruct (to_uint_head p). now apply numeric_identifier_uint.
Qed.

Lemma number_acc_lower (acc : N) (s : string) :
  (acc * 10 ^ N.of_nat (String.length s) <= JS.number_acc acc s)%N.
Proof.
  revert acc. induction s as [|c s IH]; intros acc.
  - cbn [String.length JS.number_acc N.of_nat]. rewrite N.pow_0_r. lia.
  - cbn [String.length JS.number_acc]. rewrite Nat2N.inj_succ, N.pow_succ_r'.
    etransitivity; [| apply IH]. nia.
Qed.

(** A numeral of more than sixteen digits is above [MAX_SAFE_INTEGER]. *)
Lemma length_numeral (n : N) :
  (n <= Semver.MAX_SAFE_INTEGER)%N -> (String.length (Version.numeral n) <= 16)%nat.
Proof.
  intros Hn. destruct n as [|p]; [cbn; lia |].
  pose proof (number_numeral (Npos p)) as Hv.
  unfold Version.numeral in *. cbn [N.to_uint] in *.
  destruct (to_uint_head p) as [Hnil H0].
  destruct (Nat.le_gt_cases (String.length (NilEmpty.string_of_uint (Pos.to_uint p))) 16)
    as [|Hlen]; [assumption | exfalso].
  assert (Hlow : forall d, (1 <= JS.number_acc 0 (String d "") )%N ->
            forall r, (16 <= String.length r)%nat ->
            (10 ^ 16 <= JS.number_acc 0 (String d r))%N).
  { intros d Hd r Hr. cbn [JS.number_acc] in *.
    pose proof (number_acc_lower (10 * 0 + (JS.code d - 48)) r) as Hl.
    assert (10 ^ 16 <= 10 ^ N.of_nat (String.length r))%N
      by (apply N.pow_le_mono_r; lia).
    nia. }
  unfold JS.number in Hv.
  destruct (Pos.to_uint p) as [|d|d|d|d|d|d|d|d|d|d]; try congruence;
    try (exfalso; exact (H0 _ eq_refl));
    cbn [NilEmpty.string_of_uint String.length] in Hlen, Hv;
    (match type of Hv with
     | JS.number_acc 0 (String ?c ?r) = _ =>
         pose proof (Hlow c ltac:(vm_compute; discriminate) r ltac:(lia)) as Hbig
     end);
    rewrite Hv in Hbig; unfold Semver.MAX_SAFE_INTEGER in Hn; lia.
Qed.

(** An integer a version can hold is a double. *)
Lemma to_double_safe (n : N) :
  (n <= Semver.MAX_SAFE_INTEGER)%N -> JS.to_double n = n.
Proof.
  intros Hn. unfold JS.to_double.
  assert (Hs : (N.size n <= 53)%N).
  { destruct (N.eq_dec n 0%N) as [->|Hz]; [cbn; lia |].
    pose proof (N.size_le n) as Hle.
    assert (H54 : (2 ^ N.size n < 2 ^ 54)%N).
    { unfold Semver.MAX_SAFE_INTEGER in Hn.
      rewrite N.succ_double_spec in Hle.
      change (2 ^ 54)%N with 18014398509481984%N. lia. }
    apply N.pow_lt_mono_r_iff in H54; lia. }
  replace (N.size n - 53)%N with 0%N by lia. reflexivity.
Qed.

(** ** The [semver] package on standard version strings *)

Lemma digit_facts (c : ascii) :
  JS.is_digit c = true ->
  JS.is_space c = false /\ Ascii.eqb c "." = false /\ Ascii.eqb c "v" = false
  /\ Semver.strip_v (String c "") = String c "".
Proof.
  destruct c as [[|] [|] [|] [|] [|] [|] [|] [|]]; vm_compute; intros H;
    try discriminate H; repeat split.
Qed.

Lemma strip_v_digit (c : ascii) (r : string) :
  JS.is_digit c = true -> Semver.strip_v (String c r) = String c r.
Proof.
  destruct c as [[|] [|] [|] [|] [|] [|] [|] [|]]; vm_compute; intros H;
    try discriminate H; reflexivity.
Qed.

Lemma numeral_head (n : N) :
  exists c r, Version.numeral n = String c r /\ JS.is_digit c = true.
Proof.
  pose proof (all_digit_numeral n) as Hd.
  pose proof (numeric_identifier_numeral n) as Hn.
  destruct (Version.numeral n) as [|c r]; [discriminate Hn |].
  simpl in Hd. apply andb_true_iff in Hd as [Hc _]. eauto.
Qed.

Lemma parse_number_dot (n : N) (r : string) :
  Semver.parse_number (Version.numeral n ++ String "." r)
  = Some (Version.numeral n, String "." r).
Proof.
  unfold Semver.parse_number.
  rewrite span_stop by (apply all_digit_numeral || reflexivity).
  now rewrite numeric_identifier_numeral.
Qed.

Lemma parse_number_end (n : N) :
  Semver.parse_number (Version.numeral n) = Some (Version.numeral n, "").
Proof.
  unfold Semver.parse_number.
  rewrite span_all by apply all_digit_numeral.
  now rewrite numeric_identifier_numeral.
Qed.

(** The full pattern matches a standard string, number by number. *)
Lemma match_full_standard (a b c : N) :
  Semver.match_full (Version.to_string (a, b, c))
  = Some (Version.numeral a, Version.numeral b, Version.numeral c, []).
Proof.
  unfold Semver.match_full, Version.to_string.
  destruct (numeral_head a) as (x & r & Hx & Hd).
  rewrite Hx at 1. cbn [String.append]. rewrite (strip_v_digit _ _ Hd).
  change (String x (r ++ ?t)) with (String x r ++ t). rewrite <- Hx.
  change ("." ++ ?t) with (String "." t).
  rewrite parse_number_dot, parse_number_dot, parse_number_end.
  reflexivity.
Qed.

Lemma no_space_standard (v : N * N * N) :
  JS.all (fun c => negb (JS.is_space c)) (Version.to_string v) = true.
Proof.
  destruct v as [[a b] c]. unfold Version.to_string.
  assert (Hn : forall n, JS.all (fun c => negb (JS.is_space c)) (Version.numeral n) = true).
  { intros n. apply (all_impl JS.is_digit); [| apply all_digit_numeral].
    intros x Hx. destruct (digit_facts x Hx) as [-> _]. reflexivity. }
  rewrite !all_append, !Hn. reflexivity.
Qed.

Lemma length_standard (v : N * N * N) :
  Version.safe v -> (String.length (Version.to_string v) <= 50)%nat.
Proof.
  destruct v as [[a b] c]. intros (Ha & Hb & Hc). unfold Version.to_string.
  rewrite !length_append.
  pose proof (length_numeral a Ha). pose proof (length_numeral b Hb).
  pose proof (length_numeral c Hc). cbn [String.length]. lia.
Qed.

(** [new SemVer] accepts a standard string and holds its numbers. *)
Lemma parse_standard (v : N * N * N) :
  Version.safe v ->
  Semver.parse (Some (JStr (Version.to_string v)))
  = Ok (Semver.mkSemVer (fst (fst v)) (snd (fst v)) (snd v) []).
Proof.
  intros Hv. pose proof (length_standard v Hv) as Hlen.
  destruct v as [[a b] c]. destruct Hv as (Ha & Hb & Hc).
  assert (Hl : (Semver.MAX_LENGTH <? String.length (Version.to_string (a, b, c)))%nat = false)
    by (apply Nat.ltb_ge; unfold Semver.MAX_LENGTH; lia).
  unfold Semver.parse, Semver.parse_string. rewrite Hl. cbn [fst snd].
  rewrite trim_no_space by apply no_space_standard.
  rewrite match_full_standard, !number_numeral.
  rewrite !to_double_safe by assumption.
  replace (Semver.MAX_SAFE_INTEGER <? a)%N with false by (symmetry; apply N.ltb_ge; lia).
  replace (Semver.MAX_SAFE_INTEGER <? b)%N with false by (symmetry; apply N.ltb_ge; lia).
  replace (Semver.MAX_SAFE_INTEGER <? c)%N with false by (symmetry; apply N.ltb_ge; lia).
  reflexivity.
Qed.

Lemma compare_num_sign (a b : N) :
  Semver.compare_num a b = Version.sign (a ?= b)%N.
Proof.
  unfold Semver.compare_num.
  destruct (N.compare_spec a b) as [->|H|H].
  - now rewrite N.eqb_refl.
  - replace (a =? b)%N with false by (symmetry; apply N.eqb_neq; lia).
    replace (a <? b)%N with true by (symmetry; apply N.ltb_lt; lia). reflexivity.
  - replace (a =? b)%N with false by (symmetry; apply N.eqb_neq; lia).
    replace (a <? b)%N with false by (symmetry; apply N.ltb_ge; lia). reflexivity.
Qed.

(** On versions without prerelease, [compare] is the precedence. *)
Lemma compare_semver_precedence (x y : N * N * N) :
  Semver.compare_semver
    (Semver.mkSemVer (fst (fst x)) (snd (fst x)) (snd x) [])
    (Semver.mkSemVer (fst (fst y)) (snd (fst y)) (snd y) [])
  = Version.sign (Version.precedence x y).
Proof.
  destruct x as [[a b] c], y as [[a' b'] c'].
  unfold Semver.compare_semver, Semver.compareMain, Semver.comparePre, Version.precedence.
  cbn [fst snd Semver.major Semver.minor Semver.patch Semver.prerelease].
  rewrite !compare_num_sign.
  destruct (a ?= a')%N, (b ?= b')%N, (c ?= c')%N; reflexivity.
Qed.

Lemma compare_standard (x y : N * N * N) :
  Version.safe x -> Version.safe y ->
  Semver.compare (Some (JStr (Version.to_string x))) (Some (JStr (Version.to_string y)))
  = Ok (Version.sign (Version.precedence x y)).
Proof.
  intros Hx Hy. unfold Semver.compare.
  rewrite (parse_standard x Hx), (parse_standard y Hy). cbn [rbind].
  now rewrite compare_semver_precedence.
Qed.

(** ** Precedence is a total order *)

Ltac cases_compare :=
  repeat match goal with
         | |- context [(?a ?= ?b)%N] => destruct (N.compare_spec a b)
         | H : context [(?a ?= ?b)%N] |- _ => destruct (N.compare_spec a b)
         end.

Lemma precedence_refl (x : N * N * N) : Version.precedence x x = Eq.
Proof. destruct x as [[a b] c]. unfold Version.precedence. now rewrite !N.compare_refl. Qed.

Lemma precedence_eq (x y : N * N * N) : Version.precedence x y = Eq -> x = y.
Proof.
  destruct x as [[a b] c], y as [[a' b'] c']. unfold Version.precedence.
  cases_compare; intros; subst; try discriminate; reflexivity.
Qed.

Lemma precedence_antisym (x y : N * N * N) :
  Version.precedence y x = CompOpp (Version.precedence x y).
Proof.
  destruct x as [[a b] c], y as [[a' b'] c']. unfold Version.precedence.
  rewrite (N.compare_antisym a a'), (N.compare_antisym b b'), (N.compare_antisym c c').
  destruct (a ?= a')%N, (b ?= b')%N, (c ?= c')%N; reflexivity.
Qed.

Lemma precedence_trans (x y z : N * N * N) :
  Version.precedence x y <> Gt -> Version.precedence y z <> Gt ->
  Version.precedence x z <> Gt.
Proof.
  destruct x as [[a b] c], y as [[a' b'] c'], z as [[a'' b''] c''].
  unfold Version.precedence.
  cases_compare; intros; subst; try congruence; try lia.
Qed.

Lemma later_upper (x y : N * N * N) :
  Version.precedence x (Version.later x y) <> Gt
  /\ Version.precedence y (Version.later x y) <> Gt.
Proof.
  unfold Version.later. pose proof (precedence_antisym x y) as Ha.
  destruct (Version.precedence x y) eqn:E; rewrite ?precedence_refl, ?E, ?Ha; simpl;
    repeat split; congruence.
Qed.

Lemma fold_later_max (vs : list (N * N * N)) (b : N * N * N) :
  let m := fold_left Version.later vs b in
  (m = b \/ In m vs) /\ Version.precedence b m <> Gt
  /\ forall v, In v vs -> Version.precedence v m <> Gt.
Proof.
  revert b. induction vs as [|v vs IH]; intros b; cbn [fold_left].
  - rewrite precedence_refl. repeat split; [now left | congruence | intros ? []].
  - destruct (IH (Version.later b v)) as (Hin & Hb & Hall).
    destruct (later_upper b v) as [Hb1 Hb2].
    repeat split.
    + destruct Hin as [->|Hin]; [| right; now right].
      unfold Version.later. destruct (Version.precedence b v); auto using in_eq.
    + eapply precedence_trans; eassumption.
    + intros u [<-|Hu]; [eapply precedence_trans; eassumption | now apply Hall].
Qed.

(** [latest] is a maximum by precedence. *)
Lemma latest_is_max (vs : list (N * N * N)) (m : N * N * N) :
  Version.latest vs = Some m -> Version.is_max m vs.
Proof.
  destruct vs as [|v vs]; [discriminate |]. intros [= <-].
  destruct (fold_later_max vs v) as (Hin & Hb & Hall). split.
  - destruct Hin as [->|Hin]; [now left | now right].
  - intros u [<-|Hu]; auto.
Qed.

(** ** [maxSatisfying] on standard version strings *)

Lemma satisfies_any_standard (v : N * N * N) :
  Version.safe v -> Semver.satisfies_any (Version.to_string v) = Some (semver_of v).
Proof.
  intros Hv. unfold Semver.satisfies_any.
  change (Semver.parse_string ?s) with (Semver.parse (Some (JStr s))).
  now rewrite (parse_standard v Hv).
Qed.

Lemma max_loop_standard (vs : list (N * N * N)) (b : N * N * N) :
  Forall Version.safe vs ->
  Semver.max_loop (map Version.to_string vs) (Some (Version.to_string b, semver_of b))
  = Some (Version.to_string (fold_left Version.later vs b),
          semver_of (fold_left Version.later vs b)).
Proof.
  intros Hvs. revert b.
  induction Hvs as [|v vs Hv _ IH]; intros b; [reflexivity |].
  cbn [map Semver.max_loop fold_left]. rewrite (satisfies_any_standard v Hv).
  unfold semver_of at 1 2. rewrite compare_semver_precedence.
  unfold Version.later at 2 4.
  destruct (Version.precedence b v); cbn [Version.sign Z.eqb Z.opp Pos.eqb]; apply IH.
Qed.

Lemma maxSatisfying_standard (vs : list (N * N * N)) :
  Forall Version.safe vs ->
  Semver.maxSatisfying (map Version.to_string vs)
  = Version.to_string <$> Version.latest vs.
Proof.
  intros Hvs. unfold Semver.maxSatisfying.
  destruct Hvs as [|v vs Hv Hvs]; [reflexivity |].
  cbn [map Semver.max_loop Version.latest]. rewrite (satisfies_any_standard v Hv).
  now rewrite (max_loop_standard vs v Hvs).
Qed.

(** ** The scan of a pattern *)

Lemma strip_prefix_append (p s : string) : JS.strip_prefix p (p ++ s) = Some s.
Proof.
  induction p as [|c p IH]; simpl; [reflexivity |].
  now rewrite Ascii.eqb_refl.
Qed.

(** A match is as long as the scan has to pass before it looks again. *)
Lemma scan_skip (lit m s : string) :
  Regex.scan lit (String.length m) (m ++ s) = Regex.scan lit 0 s.
Proof. induction m as [|c m IH]; simpl; [destruct s; reflexivity | exact IH]. Qed.

(** No match starts on a character that is not the first of [lit]. *)
Lemma scan_pass (a : ascii) (lit p s : string) :
  JS.all (fun c => negb (Ascii.eqb a c)) p = true ->
  Regex.scan (String a lit) 0 (p ++ s) = Regex.scan (String a lit) 0 s.
Proof.
  intros Hp. induction p as [|c p IH]; simpl in *; [reflexivity |].
  apply andb_true_iff in Hp as [Hc Hp]. apply negb_true_iff in Hc.
  unfold Regex.match_at. cbn [JS.strip_prefix]. rewrite Hc. auto.
Qed.

(** The pattern matches its literal and a standard version, up to a
    character that is not a digit. *)
Lemma match_at_standard (lit : string) (v : N * N * N) (c : ascii) (r : string) :
  JS.is_digit c = false ->
  Regex.match_at lit (lit ++ Version.to_string v ++ String c r)
  = Some (lit ++ Version.to_string v, String c r).
Proof.
  intros Hc. destruct v as [[x y] z]. unfold Regex.match_at, Version.to_string.
  rewrite strip_prefix_append.
  repeat first [rewrite append_assoc | progress cbn [String.append]].
  rewrite span_stop by (apply all_digit_numeral || reflexivity).
  rewrite span_stop by (apply all_digit_numeral || reflexivity).
  rewrite span_stop by (apply all_digit_numeral || assumption).
  reflexivity.
Qed.

Lemma match_at_standard_end (lit : string) (v : N * N * N) :
  Regex.match_at lit (lit ++ Version.to_string v) = Some (lit ++ Version.to_string v, "").
Proof.
  destruct v as [[x y] z]. unfold Regex.match_at, Version.to_string.
  rewrite strip_prefix_append. cbn [String.append].
  rewrite span_stop by (apply all_digit_numeral || reflexivity).
  rewrite span_stop by (apply all_digit_numeral || reflexivity).
  rewrite span_all by apply all_digit_numeral.
  reflexivity.
Qed.

Lemma replace_prefix (p s : string) : JS.replace p "" (p ++ s) = s.
Proof.
  pose proof (strip_prefix_append p s) as H.
  destruct (p ++ s) as [|c r]; cbn [JS.replace]; rewrite H; reflexivity.
Qed.

Lemma scan_match (a : ascii) (lit m s : string) :
  Regex.match_at (String a lit) (String a m ++ s) = Some (String a m, s) ->
  Regex.scan (String a lit) 0 (String a m ++ s)
  = String a m :: Regex.scan (String a lit) 0 s.
Proof.
  intros H. cbn [String.append Regex.scan].
  change (String a (m ++ s)) with (String a m ++ s). rewrite H.
  cbn [String.length]. rewrite Nat.sub_succ, Nat.sub_0_r. now rewrite scan_skip.
Qed.

Lemma hex_not_r (c : ascii) : Version.is_hex c = true -> negb (Ascii.eqb "r" c) = true.
Proof.
  destruct c as [[|] [|] [|] [|] [|] [|] [|] [|]]; vm_compute; intros H;
    try discriminate H; reflexivity.
Qed.

(** *** A match stays on its line

    No character of the pattern is a newline: a match that starts on a
    line ends on it, and the scan of a text is the scan of its lines. *)

Lemma match_at_dots (lit s : string) :
  Regex.match_at lit s
  = match JS.strip_prefix lit s with
    | None => None
    | Some r0 =>
        let (d1, r1) := JS.span JS.is_digit r0 in
        match JS.strip_prefix "." r1 with
        | None => None
        | Some r1' =>
            let (d2, r2) := JS.span JS.is_digit r1' in
            match JS.strip_prefix "." r2 with
            | None => None
            | Some r2' =>
                let (d3, r3) := JS.span JS.is_digit r2' in
                Some (lit ++ d1 ++ "." ++ d2 ++ "." ++ d3, r3)
            end
        end
    end.
Proof.
  unfold Regex.match_at. destruct (JS.strip_prefix lit s) as [r0|]; [| reflexivity].
  destruct (JS.span JS.is_digit r0) as [d1 r1].
  destruct r1 as [|c r1]; [reflexivity |].
  destruct c as [[|] [|] [|] [|] [|] [|] [|] [|]]; try reflexivity.
  cbn [JS.strip_prefix Ascii.eqb Bool.eqb].
  destruct (JS.span JS.is_digit r1) as [d2 r2].
  destruct r2 as [|c r2]; [reflexivity |].
  destruct c as [[|] [|] [|] [|] [|] [|] [|] [|]]; reflexivity.
Qed.

Lemma strip_prefix_line (p u rest : string) :
  JS.all (fun c => negb (Ascii.eqb c "010")) p = true ->
  match JS.strip_prefix p (u ++ nl) with
  | Some r => exists u', u = p ++ u' /\ r = u' ++ nl
              /\ JS.strip_prefix p ((u ++ nl) ++ rest) = Some (r ++ rest)
  | None => JS.strip_prefix p ((u ++ nl) ++ rest) = None
  end.
Proof.
  revert u. induction p as [|a p IH]; intros u Hp.
  - exists u. repeat split.
  - cbn [JS.all] in Hp. apply andb_true_iff in Hp as [Ha Hp]. apply negb_true_iff in Ha.
    destruct u as [|c u].
    + unfold nl. cbn [String.append JS.strip_prefix]. rewrite Ha. reflexivity.
    + cbn [String.append JS.strip_prefix]. destruct (Ascii.eqb a c) eqn:E; [| reflexivity].
      apply Ascii.eqb_eq in E as ->. specialize (IH u Hp).
      destruct (JS.strip_prefix p (u ++ nl)) as [r|]; [| exact IH].
      destruct IH as (u' & -> & -> & H). exists u'. auto.
Qed.

Lemma span_line (u rest : string) :
  let (d, r) := JS.span JS.is_digit (u ++ nl) in
  exists u', u = d ++ u' /\ r = u' ++ nl
             /\ JS.span JS.is_digit ((u ++ nl) ++ rest) = (d, r ++ rest).
Proof.
  induction u as [|c u IH].
  - exists "". repeat split.
  - cbn [String.append JS.span]. destruct (JS.is_digit c) eqn:E.
    + destruct (JS.span JS.is_digit (u ++ nl)) as [d r]. destruct IH as (u' & -> & -> & H).
      exists u'. rewrite H. repeat split.
    + exists (String c u). repeat split.
Qed.

Lemma match_at_line (lit u rest : string) :
  JS.all (fun c => negb (Ascii.eqb c "010")) lit = true ->
  match Regex.match_at lit (u ++ nl) with
  | Some (m, r) => exists u', u = m ++ u' /\ r = u' ++ nl
                   /\ Regex.match_at lit ((u ++ nl) ++ rest) = Some (m, r ++ rest)
  | None => Regex.match_at lit ((u ++ nl) ++ rest) = None
  end.
Proof.
  intros Hlit. rewrite !match_at_dots.
  pose proof (strip_prefix_line lit u rest Hlit) as H0.
  destruct (JS.strip_prefix lit (u ++ nl)) as [r0|]; [| now rewrite H0].
  destruct H0 as (u0 & -> & -> & ->).
  pose proof (span_line u0 rest) as H1.
  destruct (JS.span JS.is_digit (u0 ++ nl)) as [d1 r1].
  destruct H1 as (u1 & -> & -> & ->).
  pose proof (strip_prefix_line "." u1 rest eq_refl) as H2.
  destruct (JS.strip_prefix "." (u1 ++ nl)) as [r1'|]; [| now rewrite H2].
  destruct H2 as (u2 & -> & -> & ->).
  pose proof (span_line u2 rest) as H3.
  destruct (JS.span JS.is_digit (u2 ++ nl)) as [d2 r2].
  destruct H3 as (u3 & -> & -> & ->).
  pose proof (strip_prefix_line "." u3 rest eq_refl) as H4.
  destruct (JS.strip_prefix "." (u3 ++ nl)) as [r2'|]; [| now rewrite H4].
  destruct H4 as (u4 & -> & -> & ->).
  pose proof (span_line u4 rest) as H5.
  destruct (JS.span JS.is_digit (u4 ++ nl)) as [d3 r3].
  destruct H5 as (u5 & -> & -> & ->).
  exists u5. repeat split.
  repeat first [rewrite append_assoc | progress cbn [String.append]]. reflexivity.
Qed.

Lemma scan_line (lit rest u : string) (k : nat) :
  JS.all (fun c => negb (Ascii.eqb c "010")) lit = true ->
  k <= String.length u ->
  Regex.scan lit k ((u ++ nl) ++ rest)
  = (Regex.scan lit k (u ++ nl) ++ Regex.scan lit 0 rest)%list.
Proof.
  intros Hlit. revert k. induction u as [|c u IH]; intros k Hk.
  - cbn [String.length] in Hk. assert (k = 0) as -> by lia.
    pose proof (match_at_line lit "" rest Hlit) as H.
    unfold nl in *. cbn [String.append] in *. cbn [Regex.scan].
    destruct (Regex.match_at lit (String "010" "")) as [[m r]|].
    + destruct H as (u' & Hu & _ & ->). destruct m; [reflexivity | discriminate Hu].
    + rewrite H. reflexivity.
  - destruct k as [|k].
    + pose proof (match_at_line lit (String c u) rest Hlit) as H.
      cbn [String.append] in *. cbn [Regex.scan].
      destruct (Regex.match_at lit (String c (u ++ nl))) as [[m r]|].
      * destruct H as (u' & Hu & _ & ->). rewrite IH; [reflexivity |].
        apply (f_equal String.length) in Hu. rewrite length_append in Hu.
        cbn [String.length] in Hu. lia.
      * rewrite H. apply IH. lia.
    + cbn [String.append Regex.scan]. apply IH. cbn [String.length] in Hk. lia.
Qed.

(** The scan of the line of a tag finds the tag, once. *)
Lemma scan_tag (sha rest : string) (v : N * N * N) :
  JS.all Version.is_hex sha = true ->
  Version.no_digit_ahead rest = true -> Version.plain rest = true ->
  Regex.scan "refs/tags/v" 0 (Version.ref_line (Version.Tag sha v rest))
  = ["refs/tags/v" ++ Version.to_string v].
Proof.
  intros Hsha Hd Hp. unfold Version.ref_line, Version.ref_text.
  replace ((sha ++ String "009" ("refs/tags/v" ++ Version.to_string v ++ rest)) ++ nl)
    with ((sha ++ String "009" "")
          ++ ("refs/tags/v" ++ Version.to_string v) ++ (rest ++ nl))
    by (repeat first [rewrite append_assoc | progress cbn [String.append]]; reflexivity).
  rewrite scan_pass.
  2:{ rewrite all_append. apply andb_true_iff. split; [| reflexivity].
      apply (all_impl Version.is_hex); [exact hex_not_r | exact Hsha]. }
  change ("refs/tags/v" ++ Version.to_string v)
    with (String "r" ("efs/tags/v" ++ Version.to_string v)).
  rewrite scan_match.
  - unfold Version.plain in Hp.
    destruct (Regex.scan "refs/tags/v" 0 (rest ++ nl)); [reflexivity | discriminate Hp].
  - destruct rest as [|c rest].
    + exact (match_at_standard "refs/tags/v" v "010" "" eq_refl).
    + apply negb_true_iff in Hd.
      exact (match_at_standard "refs/tags/v" v c (rest ++ nl) Hd).
Qed.

Lemma scan_ref (r : Version.ref) :
  Version.ref_ok r ->
  Regex.scan "refs/tags/v" 0 (Version.ref_line r)
  = map (fun v => "refs/tags/v" ++ Version.to_string v) (Version.tags [r]).
Proof.
  destruct r as [sha v rest | text]; cbn [Version.ref_ok Version.tags map].
  - intros (Hsha & _ & Hd & Hp). now apply scan_tag.
  - unfold Version.plain, Version.ref_line, Version.ref_text.
    destruct (Regex.scan "refs/tags/v" 0 (text ++ nl)); [reflexivity | discriminate].
Qed.

(** The scan of the output of <<git ls-remote>> finds the tags, line by
    line. *)
Lemma scan_ls_remote (refs : list Version.ref) :
  Forall Version.ref_ok refs ->
  Regex.scan "refs/tags/v" 0 (Version.ls_remote refs)
  = map (fun v => "refs/tags/v" ++ Version.to_string v) (Version.tags refs).
Proof.
  induction 1 as [|r refs Hr _ IH]; [reflexivity |].
  cbn [Version.ls_remote]. unfold Version.ref_line at 1.
  rewrite (scan_line "refs/tags/v" (Version.ls_remote refs) (Version.ref_text r) 0
             eq_refl (Nat.le_0_l _)).
  fold (Version.ref_line r). rewrite (scan_ref r Hr), IH, <- map_app.
  destruct r; reflexivity.
Qed.

Lemma match_all_ls_remote (refs : list Version.ref) :
  Version.tags refs <> [] ->
  Forall Version.ref_ok refs ->
  Regex.match_all "refs/tags/v" (Version.ls_remote refs)
  = Some (map (fun v => "refs/tags/v" ++ Version.to_string v) (Version.tags refs)).
Proof.
  intros Hne Hok. unfold Regex.match_all. rewrite (scan_ls_remote refs Hok).
  destruct (Version.tags refs); [congruence | reflexivity].
Qed.

(** Without a tag that holds a version, [match] gives [null]. *)
Lemma match_all_no_tag (refs : list Version.ref) :
  Version.tags refs = [] ->
  Forall Version.ref_ok refs ->
  Regex.match_all "refs/tags/v" (Version.ls_remote refs) = None.
Proof.
  intros He Hok. unfold Regex.match_all. now rewrite (scan_ls_remote refs Hok), He.
Qed.

Lemma tags_ls_remote (vs : list (N * N * N)) :
  map (JS.replace "refs/tags/v" "")
    (map (fun v => "refs/tags/v" ++ Version.to_string v) vs)
  = map Version.to_string vs.
Proof. rewrite List.map_map. rewrite <- (map_id (map Version.to_string vs)), List.map_map.
  apply map_ext. intros a. apply replace_prefix. Qed.

Lemma tags_safe (refs : list Version.ref) :
  Forall Version.ref_ok refs -> Forall Version.safe (Version.tags refs).
Proof.
  induction 1 as [|[sha v rest | text] refs Hr _ IH]; cbn [Version.tags]; [constructor | | exact IH].
  constructor; [exact (proj1 (proj2 Hr)) | exact IH].
Qed.

(* ===================================================================== *)
(** * The claims of the specification                                     *)
(* ===================================================================== *)

(** ** The guard of [compareVersion] *)

Lemma existsSync_spec (path : string) (w : World) :
  existsSync path w = (Done (bool_decide (is_Some (files w !! path))), w).
Proof. reflexivity. Qed.

Lemma compareVersion_missing (c : Component_t) (w : World) :
  files w !! krLibraryPackageJson c = None ->
  Component.compareVersion c w = (Done (-2)%Z, w).
Proof.
  intros H. unfold Component.compareVersion, Component._checkExist, bind.
  rewrite existsSync_spec, H. reflexivity.
Qed.

(** ** C1: the Version Comparator *)

Lemma parse_empty : Semver.parse (Some (JStr "")) = Throw (TypeError "Invalid Version: ").
Proof. reflexivity. Qed.

(** C1, as the specification states it, fails: the empty version string
    is not less than the version 1.0.0, it is no version at all.
    [semver.compare] and [semver.lt] throw a [TypeError] on it, and so
    does [getUnExpected] on a collection that holds a component whose
    installed version is the empty string. *)
Lemma C1_empty_version_is_not_less :
  Semver.compare (Some (JStr "")) (Some (JStr "1.0.0")) = Throw (TypeError "Invalid Version: ")
  /\ Semver.lt (Some (JStr "")) (Some (JStr "1.0.0")) = Throw (TypeError "Invalid Version: ")
  /\ LeyserkidsComponentCollection.getUnExpected
       (mkCollection "/r"
          [mkComponent "a" "/r/a" "/r/a/package.json"
             "/r/a/node_modules/kr-library/package.json" false (Some (JStr "")) "1.0.0"]
          (Some (JStr "1.0.0")))
     = Throw (TypeError "Invalid Version: ").
Proof. repeat split. Qed.

(** C1, amended.  The comparator accepts the standard strings
    MAJOR.MINOR.PATCH (numbers up to [MAX_SAFE_INTEGER]) and orders them
    by precedence: majors first, then minors, then patches, as numbers.
    A component whose installed manifest is missing, and whose installed
    version is so the empty string, gets -2 from [compareVersion], below
    every result of a comparison, without a comparison.  The empty or
    missing version string itself is not accepted: to compare it with
    anything throws a [TypeError]. *)
Theorem C1_comparator_orders_standard_versions
  (x y : N * N * N) (v : jsval) (c : Component_t) (w : World) :
  Version.safe x -> Version.safe y ->
  files w !! krLibraryPackageJson c = None ->
  Semver.compare (Some (JStr (Version.to_string x))) (Some (JStr (Version.to_string y)))
  = Ok (Version.sign (Version.precedence x y))
  /\ Semver.lt (Some (JStr (Version.to_string x))) (Some (JStr (Version.to_string y)))
     = Ok (match Version.precedence x y with Lt => true | _ => false end)
  /\ Component.compareVersion c w = (Done (-2)%Z, w)
  /\ Semver.compare (Some (JStr "")) v = Throw (TypeError "Invalid Version: ")
  /\ Semver.lt (Some (JStr "")) v = Throw (TypeError "Invalid Version: ")
  /\ Semver.compare None v = Throw (TypeError "Invalid Version: undefined")
  /\ Semver.lt None v = Throw (TypeError "Invalid Version: undefined").
Proof.
  intros Hx Hy Hw. unfold Semver.lt. rewrite (compare_standard x y Hx Hy).
  rewrite (compareVersion_missing c w Hw).
  repeat split. cbn [rbind]. now destruct (Version.precedence x y).
Qed.

(** 1.2.0 is less than 1.10.0, though its string is the greater one; the
    component [a] of [Demo], never installed, compares as -2. *)
Lemma C1_comparator_witness :
  Semver.compare (Some (JStr "1.2.0")) (Some (JStr "1.10.0")) = Ok (-1)%Z
  /\ Semver.lt (Some (JStr "1.2.0")) (Some (JStr "1.10.0")) = Ok true
  /\ String.compare "1.2.0" "1.10.0" = Gt
  /\ Component.compareVersion Demo.component_a (Demo.merged Demo.disk [])
     = (Done (-2)%Z, Demo.merged Demo.disk []).
Proof.
  assert (H1 : Version.safe (1, 2, 0)%N) by (vm_compute; repeat split; discriminate).
  assert (H2 : Version.safe (1, 10, 0)%N) by (vm_compute; repeat split; discriminate).
  assert (H3 : files (Demo.merged Demo.disk []) !! krLibraryPackageJson Demo.component_a = None)
    by (vm_compute; reflexivity).
  destruct (C1_comparator_orders_standard_versions (1, 2, 0)%N (1, 10, 0)%N None
              Demo.component_a (Demo.merged Demo.disk []) H1 H2 H3)
    as (Hc & Hl & Hv & _).
  split; [exact Hc | split; [exact Hl | split; [reflexivity | exact Hv]]].
Defined.

(** ** C4: the latest remote version *)

(** What [getLatestVersionAsync] returns.  The remote lists tags, of
    which some have a name that starts with vX.Y.Z, and other refs in
    which the pattern of the tags matches nowhere.  The function returns
    the string of the version [m] that is the maximum by precedence of
    the versions X.Y.Z those names start with: it is one of them and
    none of them is above it. *)
Proposition latest_is_semver_maximum
  (h : Host) (w : World) (refs : list Version.ref) (m : N * N * N) :
  Forall Version.ref_ok refs ->
  exec h (Utils.ls_remote_command w) = Ok (Version.ls_remote refs) ->
  Version.latest (Version.tags refs) = Some m ->
  Utils.getLatestVersionAsync h w = (Done (Some (JStr (Version.to_string m))), w)
  /\ Version.is_max m (Version.tags refs).
Proof.
  intros Hrefs Hexec Hm. split; [| now apply latest_is_max].
  assert (Hne : Version.tags refs <> []) by (intros He; rewrite He in Hm; discriminate Hm).
  unfold Utils.getLatestVersionAsync, try_catch, bind, get_world, lift.
  rewrite Hexec. unfold ret. rewrite (match_all_ls_remote refs Hne Hrefs).
  rewrite tags_ls_remote, (maxSatisfying_standard _ (tags_safe refs Hrefs)), Hm. reflexivity.
Qed.

Lemma exact_tags_all (refs : list Version.ref) :
  Forall Version.exact refs -> Version.exact_tags refs = Version.tags refs.
Proof.
  induction 1 as [|[sha v rest | text] refs Hr _ IH]; cbn [Version.exact_tags Version.tags].
  - reflexivity.
  - cbn [Version.exact] in Hr. subst rest. now rewrite IH.
  - exact IH.
Qed.

(** On a remote whose version tags are all named vX.Y.Z and nothing
    more, the latest version is the maximum by precedence of the
    versions of these tags, not the greatest of their strings. *)
Corollary latest_of_exact_tags
  (h : Host) (w : World) (refs : list Version.ref) (m : N * N * N) :
  Forall Version.ref_ok refs -> Forall Version.exact refs ->
  exec h (Utils.ls_remote_command w) = Ok (Version.ls_remote refs) ->
  Version.latest (Version.exact_tags refs) = Some m ->
  Utils.getLatestVersionAsync h w = (Done (Some (JStr (Version.to_string m))), w)
  /\ Version.is_max m (Version.exact_tags refs).
Proof.
  intros Hok Hex. rewrite (exact_tags_all refs Hex). now apply latest_is_semver_maximum.
Qed.

(** The tags of the example of the specification, among them a tag that
    holds no version; and two tags that the order of strings gets
    wrong. *)
Example latest_of_the_example :
  Utils.getLatestVersionAsync
    (Demo.remote [Version.Tag Demo.sha1 (1, 0, 0)%N "";
                  Version.Other (Demo.sha1 ++ String "009" "refs/tags/nightly");
                  Version.Tag Demo.sha2 (1, 2, 0)%N "";
                  Version.Tag Demo.sha3 (1, 1, 5)%N ""])
    (Demo.merged ∅ [])
  = (Done (Some (JStr "1.2.0")), Demo.merged ∅ [])
  /\ Utils.getLatestVersionAsync
       (Demo.remote [Version.Tag Demo.sha1 (1, 9, 0)%N ""; Version.Tag Demo.sha2 (1, 10, 0)%N ""])
       (Demo.merged ∅ [])
     = (Done (Some (JStr "1.10.0")), Demo.merged ∅ []).
Proof.
  split.
  - refine (proj1 (latest_of_exact_tags _ _
              [Version.Tag Demo.sha1 (1, 0, 0)%N "";
               Version.Other (Demo.sha1 ++ String "009" "refs/tags/nightly");
               Version.Tag Demo.sha2 (1, 2, 0)%N "";
               Version.Tag Demo.sha3 (1, 1, 5)%N ""]
              (1, 2, 0)%N _ _ _ _)).
    + repeat constructor; vm_compute; discriminate.
    + repeat constructor.
    + reflexivity.
    + reflexivity.
  - refine (proj1 (latest_of_exact_tags _ _
              [Version.Tag Demo.sha1 (1, 9, 0)%N ""; Version.Tag Demo.sha2 (1, 10, 0)%N ""]
              (1, 10, 0)%N _ _ _ _)).
    + repeat constructor; vm_compute; discriminate.
    + repeat constructor.
    + reflexivity.
    + reflexivity.
Qed.

(** C4.  The claim fails on a remote that has, beside the tag v1.9.0,
    the tag v1.10.0-rc1 of a release candidate.  The only tag whose name
    is vX.Y.Z is v1.9.0, so the claim gives 1.9.0; and of the two names
    without their <<v>>, [semver.maxSatisfying] takes 1.9.0 too, for the
    range <<*>> holds no candidate.  But the pattern of
    [getLatestVersionAsync] is not anchored at the end of the name: it
    cuts v1.10.0-rc1 to 1.10.0, and the function returns 1.10.0, a
    version that no tag of the remote carries. *)
Theorem C4_candidate_counts_as_release :
  Version.ls_remote Demo.candidate_tags
  = (Demo.sha1 ++ String "009" "refs/tags/v1.9.0" ++ nl)
    ++ (Demo.sha2 ++ String "009" "refs/tags/v1.10.0-rc1" ++ nl)
  /\ Utils.getLatestVersionAsync (Demo.remote Demo.candidate_tags) (Demo.merged ∅ [])
     = (Done (Some (JStr "1.10.0")), Demo.merged ∅ [])
  /\ Version.exact_tags Demo.candidate_tags = [(1, 9, 0)%N]
  /\ Version.latest (Version.exact_tags Demo.candidate_tags) = Some (1, 9, 0)%N
  /\ Semver.maxSatisfying ["1.9.0"; "1.10.0-rc1"] = Some "1.9.0".
Proof.
  split; [vm_compute; reflexivity |].
  split; [| repeat split; vm_compute; reflexivity].
  refine (proj1 (latest_is_semver_maximum _ _ Demo.candidate_tags (1, 10, 0)%N _ _ _)).
  - repeat constructor; vm_compute; discriminate.
  - reflexivity.
  - reflexivity.
Qed.

(** A remote without a tag that holds a version: [match] gives [null],
    and the [TypeError] of [null.map] is logged and thrown again as the
    error of the function. *)
Remark latest_without_tag (h : Host) (w : World) (refs : list Version.ref) :
  Forall Version.ref_ok refs ->
  Version.tags refs = [] ->
  exec h (Utils.ls_remote_command w) = Ok (Version.ls_remote refs) ->
  fst (Utils.getLatestVersionAsync h w)
  = Thrown (Error "Could not obtain latest version number from remote git").
Proof.
  intros Hrefs He Hexec.
  unfold Utils.getLatestVersionAsync, try_catch, bind, get_world, lift.
  rewrite Hexec. unfold ret. rewrite (match_all_no_tag refs He Hrefs). reflexivity.
Qed.

(** ** The monad *)

Lemma bind_done {A B} (m : M A) (k : A -> M B) (w w1 : World) (a : A) :
  m w = (Done a, w1) -> bind m k w = k a w1.
Proof. intros H. unfold bind. now rewrite H. Qed.

Lemma bind_inv {A B} (m : M A) (k : A -> M B) (w w' : World) (b : B) :
  bind m k w = (Done b, w') ->
  exists a w1, m w = (Done a, w1) /\ k a w1 = (Done b, w').
Proof.
  unfold bind. destruct (m w) as [[a| | |] w1]; intros H; try discriminate H.
  eauto.
Qed.

Lemma require_files {o : outcome json} (path : string) (w w' : World) :
  require path w = (o, w') -> files w' = files w.
Proof.
  unfold require. destruct (modules w !! path); [now intros [= _ <-] |].
  destruct (files w !! path) as [[j|]|]; now intros [= _ <-].
Qed.

(** What [require] returns is what the cache holds from then on. *)
Lemma require_cached (path : string) (w w' : World) (j : json) :
  require path w = (Done j, w') -> modules w' !! path = Some j.
Proof.
  unfold require. destruct (modules w !! path) as [j0|] eqn:E.
  - now intros [= <- <-].
  - destruct (files w !! path) as [[j0|]|]; intros H; try discriminate H.
    injection H as <- <-. cbn. apply lookup_insert_eq.
Qed.

Lemma require_again (path : string) (w : World) (j : json) :
  modules w !! path = Some j -> require path w = (Done j, w).
Proof. intros H. unfold require. now rewrite H. Qed.

(** ** JSON objects *)

Lemma assoc_set_eq {A} (k : string) (v : A) (l : list (string * A)) :
  Json.assoc k (Json.assoc_set k v l) = Some v.
Proof.
  induction l as [|[k' v'] l IH]; cbn [Json.assoc_set Json.assoc].
  - now rewrite String.eqb_refl.
  - destruct (String.eqb k k') eqn:E; cbn [Json.assoc]; [now rewrite String.eqb_refl |].
    now rewrite E.
Qed.

Lemma assoc_set_ne {A} (k k' : string) (v : A) (l : list (string * A)) :
  k' <> k -> Json.assoc k' (Json.assoc_set k v l) = Json.assoc k' l.
Proof.
  intros Hne. induction l as [|[k0 v0] l IH]; cbn [Json.assoc_set Json.assoc].
  - replace (String.eqb k' k) with false by (symmetry; now apply String.eqb_neq).
    reflexivity.
  - destruct (String.eqb k k0) eqn:E; cbn [Json.assoc].
    + apply String.eqb_eq in E. subst k0.
      replace (String.eqb k' k) with false by (symmetry; now apply String.eqb_neq).
      reflexivity.
    + now rewrite IH.
Qed.

Lemma assoc_document (k : string) (l : list (string * json)) :
  Json.assoc k (map (fun kv => (fst kv, Json.document (snd kv))) l)
  = Json.document <$> Json.assoc k l.
Proof.
  induction l as [|[k' v'] l IH]; cbn [map Json.assoc fst snd]; [reflexivity |].
  destruct (String.eqb k k'); [reflexivity | exact IH].
Qed.

(** ** C10 and C3: [setVersionAsync] *)

Lemma require_frame {o : outcome json} (path : string) (w w' : World) :
  require path w = (o, w') ->
  files w' = files w /\ constant w' = constant w /\ stdin w' = stdin w
  /\ listeners w' = listeners w /\ trace w' = trace w.
Proof.
  unfold require. destruct (modules w !! path); [now intros [= _ <-] |].
  destruct (files w !! path) as [[j|]|]; now intros [= _ <-].
Qed.

(** C10.  When the manifest that [require] returns has no
    [dependencies] (the property is absent, or the manifest is [null]),
    [setVersionAsync] throws, and the world is as [require] left it: the
    disk is unchanged, and the object in the cache is the manifest as it
    was read. *)
Theorem C10_setVersion_needs_dependencies
  (c : Component_t) (version : string) (w w1 : World) (pkg : json) :
  require (packageJson c) w = (Done pkg, w1) ->
  (forall d, Json.get pkg "dependencies" <> Ok (Some d)) ->
  (exists e, Component.setVersionAsync c version w = (Thrown e, w1))
  /\ files w1 = files w
  /\ modules w1 !! packageJson c = Some pkg.
Proof.
  intros Hreq Hdeps. split; [| split].
  - unfold Component.setVersionAsync. rewrite (bind_done _ _ _ _ _ Hreq).
    destruct (Json.get pkg "dependencies") as [[d|]|e] eqn:E.
    + now destruct (Hdeps d).
    + eexists. reflexivity.
    + eexists. reflexivity.
  - exact (require_files _ _ _ Hreq).
  - exact (require_cached _ _ _ _ Hreq).
Qed.

(** A manifest without [dependencies]: the throw is the [TypeError] of
    the assignment, and the file is as it was. *)
Lemma C10_setVersion_witness :
  (exists e,
     Component.setVersionAsync Demo.component_a "1.2.3"
       (Demo.merged (<["/repo/a/package.json" := Doc (JObj [("name", JStr "a")])]> ∅) [])
     = (Thrown e,
        mkWorld (<["/repo/a/package.json" := Doc (JObj [("name", JStr "a")])]> ∅)
          (<["/repo/a/package.json" := JObj [("name", JStr "a")]]> ∅)
          (Some Demo.config) [] [] []))
  /\ files (mkWorld (<["/repo/a/package.json" := Doc (JObj [("name", JStr "a")])]> ∅)
              (<["/repo/a/package.json" := JObj [("name", JStr "a")]]> ∅)
              (Some Demo.config) [] [] []) !! "/repo/a/package.json"
     = Some (Doc (JObj [("name", JStr "a")])).
Proof.
  destruct (C10_setVersion_needs_dependencies Demo.component_a "1.2.3"
              (Demo.merged (<["/repo/a/package.json" := Doc (JObj [("name", JStr "a")])]> ∅) [])
              (mkWorld (<["/repo/a/package.json" := Doc (JObj [("name", JStr "a")])]> ∅)
                 (<["/repo/a/package.json" := JObj [("name", JStr "a")]]> ∅)
                 (Some Demo.config) [] [] [])
              (JObj [("name", JStr "a")]))
    as (He & Hf & _).
  - vm_compute. reflexivity.
  - intros d. vm_compute. discriminate.
  - split; [exact He | vm_compute; reflexivity].
Defined.

Lemma match_at_dotted_end (lit x y z : string) :
  Version.digits x -> Version.digits y -> Version.digits z ->
  Regex.match_at lit (lit ++ Version.dotted x y z) = Some (lit ++ Version.dotted x y z, "").
Proof.
  intros Hx Hy Hz. unfold Regex.match_at, Version.dotted.
  rewrite strip_prefix_append. cbn [String.append].
  rewrite span_stop by (assumption || reflexivity).
  rewrite span_stop by (assumption || reflexivity).
  rewrite span_all by assumption.
  reflexivity.
Qed.

Lemma scan_match_end (a : ascii) (lit m : string) :
  Regex.match_at (String a lit) (String a m) = Some (String a m, "") ->
  Regex.scan (String a lit) 0 (String a m) = [String a m].
Proof.
  intros H. rewrite <- (append_nil_r (String a m)) at 1.
  rewrite scan_match by (now rewrite append_nil_r). reflexivity.
Qed.

(** *** No match of the pin before the pin

    The pattern of the pin starts with the only [#] it holds and goes on
    with digits and dots: a match that starts before a [#] ends before
    it, and what the text holds from that [#] on does not make a match
    where there was none. *)

Lemma strip_prefix_short (p s t : string) (a : ascii) :
  JS.all (fun c => negb (Ascii.eqb c a)) p = true ->
  JS.strip_prefix p s = None ->
  JS.strip_prefix p (s ++ String a t) = None.
Proof.
  revert s. induction p as [|b p IH]; intros s Hp H; [discriminate H |].
  cbn [JS.all] in Hp. apply andb_true_iff in Hp as [Hb Hp]. apply negb_true_iff in Hb.
  destruct s as [|c s]; cbn [String.append JS.strip_prefix] in *.
  - now rewrite Hb.
  - destruct (Ascii.eqb b c); [now apply IH | reflexivity].
Qed.

Lemma strip_prefix_cons_short (a c : ascii) (p s t : string) :
  JS.all (fun x => negb (Ascii.eqb x a)) p = true ->
  JS.strip_prefix (String a p) (String c s) = None ->
  JS.strip_prefix (String a p) (String c s ++ String a t) = None.
Proof.
  intros Hp. cbn [String.append JS.strip_prefix].
  destruct (Ascii.eqb a c); [now apply strip_prefix_short | reflexivity].
Qed.

Lemma span_append_stop (p : ascii -> bool) (s t : string) (a : ascii) :
  p a = false ->
  JS.span p (s ++ String a t) = (fst (JS.span p s), snd (JS.span p s) ++ String a t).
Proof.
  intros Ha. induction s as [|c s IH]; cbn [String.append JS.span].
  - now rewrite Ha.
  - destruct (p c); [| reflexivity].
    rewrite IH. now destruct (JS.span p s).
Qed.

Lemma strip_dot_append (r t : string) (a : ascii) :
  Ascii.eqb "." a = false ->
  JS.strip_prefix "." (r ++ String a t)
  = (fun r' => r' ++ String a t) <$> JS.strip_prefix "." r.
Proof.
  intros Ha. destruct r as [|c r]; cbn [String.append JS.strip_prefix].
  - now rewrite Ha.
  - now destruct (Ascii.eqb "." c).
Qed.

Lemma strip_prefix_eq (p s r : string) : JS.strip_prefix p s = Some r -> s = p ++ r.
Proof.
  revert s. induction p as [|a p IH]; intros s; cbn [JS.strip_prefix String.append].
  - now intros [= ->].
  - destruct s as [|b s]; [discriminate |].
    destruct (Ascii.eqb_spec a b) as [-> | _]; [| discriminate].
    intros H. now rewrite (IH s H).
Qed.

Lemma match_at_before_pin (c : ascii) (s t : string) :
  Regex.match_at "#semver:" (String c s) = None ->
  Regex.match_at "#semver:" (String c s ++ String "#" t) = None.
Proof.
  rewrite !match_at_dots.
  destruct (JS.strip_prefix "#semver:" (String c s)) as [r0|] eqn:E0.
  - apply strip_prefix_eq in E0. rewrite E0, append_assoc, strip_prefix_append.
    rewrite (span_append_stop JS.is_digit r0 t "#" eq_refl).
    destruct (JS.span JS.is_digit r0) as [d1 r1]. cbn [fst snd].
    rewrite (strip_dot_append r1 t "#" eq_refl).
    destruct (JS.strip_prefix "." r1) as [r1'|]; cbn [fmap option_fmap option_map];
      [| reflexivity].
    rewrite (span_append_stop JS.is_digit r1' t "#" eq_refl).
    destruct (JS.span JS.is_digit r1') as [d2 r2]. cbn [fst snd].
    rewrite (strip_dot_append r2 t "#" eq_refl).
    destruct (JS.strip_prefix "." r2) as [r2'|]; cbn [fmap option_fmap option_map];
      [| reflexivity].
    destruct (JS.span JS.is_digit r2') as [d3 r3]. discriminate.
  - intros _. now rewrite (strip_prefix_cons_short "#" c "semver:" s t eq_refl E0).
Qed.

(** The scan of a text in which the pin matches nowhere goes on, after
    the text, as if it started there. *)
Lemma scan_before_pin (u t : string) :
  Regex.scan "#semver:" 0 u = [] ->
  Regex.scan "#semver:" 0 (u ++ String "#" t) = Regex.scan "#semver:" 0 (String "#" t).
Proof.
  induction u as [|c u IH]; [reflexivity |].
  intros H. cbn [Regex.scan] in H.
  destruct (Regex.match_at "#semver:" (String c u)) as [[m r]|] eqn:E; [discriminate H |].
  pose proof (match_at_before_pin c u t E) as E'.
  cbn [String.append] in *. cbn [Regex.scan]. rewrite E'. exact (IH H).
Qed.

Lemma match_all_none (lit s : string) :
  Regex.match_all lit s = None -> Regex.scan lit 0 s = [].
Proof. unfold Regex.match_all. now destruct (Regex.scan lit 0 s). Qed.

(** The pin that [setVersionAsync] writes is read back, when the
    pattern of the pin matches nowhere in the URL of the configuration. *)
Lemma pinned_version_round (u x y z : string) :
  Regex.match_all "#semver:" u = None ->
  Version.digits x -> Version.digits y -> Version.digits z ->
  Component.pinned_version (Some (JStr (("git+" ++ u ++ "#semver:") ++ Version.dotted x y z)))
  = Ok (Version.dotted x y z).
Proof.
  intros Hu Hx Hy Hz. unfold Component.pinned_version, Regex.match_all.
  replace (("git+" ++ u ++ "#semver:") ++ Version.dotted x y z)
    with ("git+" ++ (u ++ ("#semver:" ++ Version.dotted x y z)))
    by (now rewrite !append_assoc).
  rewrite scan_pass by reflexivity.
  change ("#semver:" ++ Version.dotted x y z)
    with (String "#" ("semver:" ++ Version.dotted x y z)).
  rewrite (scan_before_pin u _ (match_all_none _ _ Hu)).
  rewrite scan_match_end.
  - change (String "#" ("semver:" ++ Version.dotted x y z))
      with ("#semver:" ++ Version.dotted x y z).
    now rewrite replace_prefix.
  - exact (match_at_dotted_end "#semver:" x y z Hx Hy Hz).
Qed.

Lemma getExpectedVersion_pinned (path : string) (w w1 : World)
  (fields deps : list (string * json)) (u x y z : string) :
  require path w = (Done (JObj fields), w1) ->
  Json.assoc "dependencies" fields = Some (JObj deps) ->
  Json.assoc "kr-library" deps
  = Some (JStr (("git+" ++ u ++ "#semver:") ++ Version.dotted x y z)) ->
  Regex.match_all "#semver:" u = None ->
  Version.digits x -> Version.digits y -> Version.digits z ->
  Component._getExpectedVersion path w = (Done (Version.dotted x y z), w1).
Proof.
  intros Hreq Hdeps Hpin Hu Hx Hy Hz.
  unfold Component._getExpectedVersion, try_catch.
  rewrite (bind_done _ _ _ _ _ Hreq). cbn [Json.get lift]. rewrite Hdeps.
  unfold bind at 1. cbn [ret Json.get_val Json.get lift]. rewrite Hpin.
  assert (Ht : Json.truthy (Some (JStr (("git+" ++ u ++ "#semver:") ++ Version.dotted x y z)))
               = true) by reflexivity.
  unfold bind at 1. cbn [ret]. rewrite Ht.
  rewrite (pinned_version_round u x y z Hu Hx Hy Hz). reflexivity.
Qed.




(** ** C7: the components that were never installed *)

Lemma extends_refl (w : World) : extends w w.
Proof. split; auto. Qed.

Lemma extends_trans (w1 w2 w3 : World) : extends w1 w2 -> extends w2 w3 -> extends w1 w3.
Proof.
  intros [Hf1 Hm1] [Hf2 Hm2]. split; [congruence |].
  intros p j H. destruct (Hm2 p j H) as [H2|H2]; [now apply Hm1 |].
  right. now rewrite <- Hf1.
Qed.

Lemma reads_ret {A} (a : A) : reads (ret a).
Proof. intros w o w' [= _ <-]. apply extends_refl. Qed.

Lemma reads_throw {A} (e : exn) : reads (@throw A e).
Proof. intros w o w' [= _ <-]. apply extends_refl. Qed.

Lemma reads_lift {A} (r : result A) : reads (lift r).
Proof. destruct r; [apply reads_ret | apply reads_throw]. Qed.

Lemma reads_emit (e : event) : reads (emit e).
Proof. intros w o w' [= _ <-]. split; auto. Qed.

Lemma reads_get_world : reads get_world.
Proof. intros w o w' [= _ <-]. apply extends_refl. Qed.

Lemma reads_existsSync (path : string) : reads (existsSync path).
Proof. intros w o w' [= _ <-]. apply extends_refl. Qed.

Lemma reads_require (path : string) : reads (require path).
Proof.
  intros w o w'. unfold require.
  destruct (modules w !! path) eqn:Em; [intros [= _ <-]; apply extends_refl |].
  destruct (files w !! path) as [[j|]|] eqn:Ef; intros [= _ <-]; try apply extends_refl.
  split; [reflexivity |]. cbn [modules files]. intros p j0 H.
  destruct (decide (path = p)) as [<-|Hne].
  - rewrite lookup_insert_eq in H. injection H as <-. now right.
  - rewrite lookup_insert_ne in H by assumption. now left.
Qed.

Lemma reads_bind {A B} (m : M A) (k : A -> M B) :
  reads m -> (forall a, reads (k a)) -> reads (bind m k).
Proof.
  intros Hm Hk w o w'. unfold bind.
  destruct (m w) as [[a|e|code|] w1] eqn:E; intros H.
  - eapply extends_trans; [exact (Hm _ _ _ E) | exact (Hk _ _ _ _ H)].
  - injection H as _ <-. exact (Hm _ _ _ E).
  - injection H as _ <-. exact (Hm _ _ _ E).
  - injection H as _ <-. exact (Hm _ _ _ E).
Qed.

Lemma reads_try_catch {A} (m : M A) (k : exn -> M A) :
  reads m -> (forall e, reads (k e)) -> reads (try_catch m k).
Proof.
  intros Hm Hk w o w'. unfold try_catch.
  destruct (m w) as [[a|e|code|] w1] eqn:E; intros H.
  - injection H as _ <-. exact (Hm _ _ _ E).
  - eapply extends_trans; [exact (Hm _ _ _ E) | exact (Hk _ _ _ _ H)].
  - injection H as _ <-. exact (Hm _ _ _ E).
  - injection H as _ <-. exact (Hm _ _ _ E).
Qed.

Lemma reads_loggerError (msg : string) : reads (Utils.loggerError msg).
Proof. apply reads_emit. Qed.

Create HintDb reads.
#[local] Hint Resolve reads_ret reads_throw reads_lift reads_emit reads_get_world
  reads_existsSync reads_require reads_loggerError : reads.

Ltac reads :=
  repeat first
    [ apply reads_bind; [| intros ?]
    | apply reads_try_catch; [| intros ?]
    | solve [auto with reads]
    | match goal with
      | |- reads (if ?b then _ else _) => destruct b
      | |- reads (match ?x with _ => _ end) => destruct x
      end ].

Lemma reads_getCurrentVersion (path : string) : reads (Component._getCurrentVersion path).
Proof. unfold Component._getCurrentVersion, Component._checkExist, Utils.loggerError. reads. Qed.

Lemma reads_getExpectedVersion (path : string) : reads (Component._getExpectedVersion path).
Proof. unfold Component._getExpectedVersion, Utils.loggerError. reads. Qed.

#[local] Hint Resolve reads_getCurrentVersion reads_getExpectedVersion : reads.

Lemma reads_initialize (h : Host) (name path : string) :
  reads (Component.initialize h name path).
Proof. unfold Component.initialize, Component._checkExist. reads. Qed.

Lemma no_empty_version_extends (w w' : World) :
  extends w w' -> no_empty_version w -> no_empty_version w'.
Proof.
  intros [Hf Hm] Hw p j [H|H]; [apply (Hw p j); left; congruence |].
  destruct (Hm p j H); apply (Hw p j); auto.
Qed.

Lemma getCurrentVersion_spec (path : string) (w w' : World) (cur : jsval) :
  Component._getCurrentVersion path w = (Done cur, w') ->
  (files w !! path = None -> cur = Some (JStr ""))
  /\ (no_empty_version w -> cur = Some (JStr "") -> files w !! path = None).
Proof.
  unfold Component._getCurrentVersion, Component._checkExist.
  rewrite (bind_done _ _ _ _ _ (existsSync_spec path w)).
  destruct (files w !! path) as [f|] eqn:Ef; cbn [bool_decide negb].
  2:{ intros [= <- _]. auto. }
  replace (bool_decide (is_Some (Some f))) with true by reflexivity. cbn [negb].
  unfold try_catch, bind.
  destruct (require path w) as [[m|e|code|] w1] eqn:Hreq; try discriminate.
  destruct (Json.get m "version") as [v|e] eqn:Hget; cbn [lift ret throw]; [| discriminate].
  intros [= <- <-]. split; [discriminate |].
  intros Hclean ->. exfalso.
  destruct (reads_require path _ _ _ Hreq) as [_ Hm].
  apply (Hclean path m); [| exact Hget].
  destruct (Hm path m (require_cached _ _ _ _ Hreq)); auto.
Qed.

Lemma initialize_spec (h : Host) (name path : string) (w w' : World) (c : Component_t) :
  Component.initialize h name path w = (Done c, w') -> initialized w c.
Proof.
  unfold Component.initialize, Component._checkExist.
  rewrite (bind_done _ _ _ _ _ (existsSync_spec _ w)).
  intros H. apply bind_inv in H as (cur & w1 & Hcur & H).
  apply bind_inv in H as (expd & w2 & _ & H). injection H as <- _.
  destruct (getCurrentVersion_spec _ _ _ _ Hcur) as [Hnone Hclean].
  unfold initialized. cbn [exist currentVersion krLibraryPackageJson].
  repeat split.
  - intros He. apply Hnone. apply bool_decide_eq_false in He.
    destruct (files w !! _); [destruct He; eauto | reflexivity].
  - intros Hw Hc. rewrite (Hclean Hw Hc). reflexivity.
Qed.

Lemma initialized_extends (w w1 : World) (c : Component_t) :
  extends w w1 -> initialized w1 c -> initialized w c.
Proof.
  intros Hext (He & Hn & Hc). pose proof Hext as [Hf _].
  unfold initialized. rewrite <- Hf. repeat split; auto.
  intros Hw. apply Hc. now apply (no_empty_version_extends w).
Qed.

Lemma init_each_spec (h : Host) (rootp : string) (cfg keys : list (string * string)) :
  forall w w' cs,
    LeyserkidsComponentCollection.init_each h rootp cfg keys w = (Done cs, w') ->
    extends w w' /\ Forall (initialized w) cs.
Proof.
  induction keys as [|[key dir] keys IH]; intros w w' cs H.
  - injection H as <- <-. split; [apply extends_refl | constructor].
  - cbn [LeyserkidsComponentCollection.init_each] in H.
    apply bind_inv in H as (own & w0 & Hown & H).
    destruct (LeyserkidsComponentCollection.hasOwnProperty cfg key) as [b|e];
      [| discriminate Hown].
    injection Hown as <- <-. destruct b; [| exact (IH _ _ _ H)].
    apply bind_inv in H as (c & w1 & Hc & H).
    apply bind_inv in H as (cs' & w2 & Hcs & H). injection H as <- <-.
    pose proof (reads_initialize _ _ _ _ _ _ Hc) as Hext.
    destruct (IH _ _ _ Hcs) as [Hext' Hall]. split.
    + eapply extends_trans; eassumption.
    + constructor; [exact (initialize_spec _ _ _ _ _ _ Hc) |].
      eapply Forall_impl; [exact Hall |]. intros a. now apply initialized_extends.
Qed.

Lemma new_spec (h : Host) (rootp : string) (latest : jsval) (w w' : World)
  (pkgs : Collection_t) :
  LeyserkidsComponentCollection.new h rootp latest w = (Done pkgs, w') ->
  extends w w' /\ Forall (initialized w) (components pkgs).
Proof.
  unfold LeyserkidsComponentCollection.new, LeyserkidsComponentCollection._initComponents.
  intros H. apply bind_inv in H as (cs & w1 & Hcs & H). injection H as <- <-.
  cbn [components]. unfold bind, get_world in Hcs.
  destruct (Constant.COMPONENT_DIRECTORIES w) as [cfg|].
  - exact (init_each_spec _ _ _ _ _ _ _ Hcs).
  - injection Hcs as <- <-. split; [apply extends_refl | constructor].
Qed.




(** ** C9: the component that was never installed *)

(** Before [Cli.run] has merged the configuration into [Constant], a
    collection holds no component, and [checkVersion] finds none. *)
Remark checkVersion_unmerged (h : Host) (name out : string) (w : World) :
  constant w = None ->
  exec h "git rev-parse --show-toplevel" = Ok out ->
  LeyserkidsComponentCollection.checkVersion h name w
  = (Thrown (TypeError "Cannot read properties of undefined (reading 'compareVersion')"), w).
Proof.
  intros Hc Hx.
  unfold LeyserkidsComponentCollection.checkVersion, Utils.getGitRootDirectorySync,
    LeyserkidsComponentCollection.new, LeyserkidsComponentCollection._initComponents,
    Constant.COMPONENT_DIRECTORIES, try_catch, bind, lift, get_world.
  rewrite Hx. cbn. rewrite Hc. reflexivity.
Qed.



(** ** C2: the prompt *)

Lemma matcher_yes_no : Cli.matcher Cli.yes_no = "y|n".
Proof. reflexivity. Qed.

Lemma in_class_yes_no (c : ascii) :
  Ascii.eqb c "|" = false ->
  Regex.in_class "y|n" c = Ascii.eqb c "y" || Ascii.eqb c "n".
Proof.
  intros Hc. cbn [Regex.in_class].
  rewrite (Ascii.eqb_sym "y" c), (Ascii.eqb_sym "|" c), (Ascii.eqb_sym "n" c), Hc.
  now rewrite orb_false_r.
Qed.

(** On an input without [|], the matches of the class are its [y]s and
    [n]s. *)
Lemma class_scan_answers (data : string) :
  JS.all (fun c => negb (Ascii.eqb c "|")) data = true ->
  Regex.class_scan "y|n" data = map (fun c => String c "") (answers data).
Proof.
  induction data as [|c data IH]; [reflexivity |].
  cbn [JS.all]. intros [Hc Hd]%andb_true_iff. apply negb_true_iff in Hc.
  cbn [Regex.class_scan answers]. rewrite (in_class_yes_no c Hc).
  destruct (Ascii.eqb c "y" || Ascii.eqb c "n"); cbn [map]; now rewrite (IH Hd).
Qed.

Lemma accepts_answers (data : string) :
  JS.all (fun c => negb (Ascii.eqb c "|")) data = true ->
  Cli.accepts "y|n" data
  = match answers data with
    | [a] => Some (String a "")
    | _ => None
    end.
Proof.
  intros Hd. unfold Cli.accepts, Regex.match_class. rewrite (class_scan_answers data Hd).
  destruct (answers data) as [|a [|b l]]; reflexivity.
Qed.

Lemma answers_yes_or_no (data : string) (a : ascii) :
  In a (answers data) -> a = "y"%char \/ a = "n"%char.
Proof.
  induction data as [|c data IH]; cbn [answers]; [intros [] |].
  destruct (Ascii.eqb c "y") eqn:Ey; [| destruct (Ascii.eqb c "n") eqn:En]; cbn [orb].
  - apply Ascii.eqb_eq in Ey. intros [<-|H]; auto.
  - apply Ascii.eqb_eq in En. intros [<-|H]; auto.
  - exact IH.
Qed.

(** Handlers of the same class all accept, or all warn. *)
Lemma dispatch_same (cls data : string) (hs : list string) :
  Forall (fun c => c = cls) hs ->
  Cli.dispatch hs data
  = match Cli.accepts cls data with
    | Some _ => ([], bool_decide (hs <> []))
    | None => (List.repeat (Warning "Invalied input") (List.length hs), false)
    end.
Proof.
  induction 1 as [|c hs -> _ IH]; cbn [Cli.dispatch].
  - now destruct (Cli.accepts cls data).
  - rewrite IH. destruct (Cli.accepts cls data); reflexivity.
Qed.

Lemma await_input_step (hs : list string) (data : string) (rest : list string) :
  Forall (fun c => c = "y|n") hs ->
  JS.all (fun c => negb (Ascii.eqb c "|")) data = true ->
  Cli.await_input (hs ++ ["y|n"]) "y|n" (data :: rest)
  = match answers data with
    | [a] => (Done (String a ""), rest, [])
    | _ =>
        let '(o, r, es) := Cli.await_input (hs ++ ["y|n"]) "y|n" rest in
        (o, r, (List.repeat (Warning "Invalied input") (S (List.length hs)) ++ es)%list)
    end.
Proof.
  intros Hhs Hd. cbn [Cli.await_input].
  assert (Hall : Forall (fun c => c = "y|n") (hs ++ ["y|n"]))
    by (apply Forall_app; split; [exact Hhs | repeat constructor]).
  rewrite (dispatch_same "y|n" data _ Hall), (accepts_answers data Hd).
  assert (Hlen : List.length (hs ++ ["y|n"]) = S (List.length hs))
    by (rewrite List.length_app; cbn; lia).
  rewrite Hlen.
  destruct (answers data) as [|a [|b l]]; reflexivity.
Qed.

(** C2, as the specification states it, fails: the line [yes] is not
    the single character [y], yet the prompt accepts it, without a
    warning, and returns [y]; and the line [|] is accepted too, and the
    character [|] returned. *)
Lemma C2_prompt_accepts_other_lines :
  Cli.getUserInputAsync Cli.yes_no (Demo.world ∅ ["yes" ++ nl])
  = (Done "y", mkWorld ∅ ∅ None [] ["y|n"] [])
  /\ Cli.getUserInputAsync Cli.yes_no (Demo.world ∅ ["|" ++ nl])
     = (Done "|", mkWorld ∅ ∅ None [] ["y|n"] []).
Proof. split; reflexivity. Qed.

(** C2, amended.  A prompt takes the next input; the handlers on stdin
    are those of the prompts so far, all of the class of [y] and [n].
    When the input (without the character [|]) holds exactly one
    character that is [y] or [n], the prompt returns that character and
    logs nothing.  Otherwise every handler logs the warning, and the wait
    goes on with the input that follows. *)
Theorem C2_prompt_takes_one_answer (w : World) (data : string) (rest : list string) :
  stdin w = data :: rest ->
  Forall (fun c => c = "y|n") (listeners w) ->
  JS.all (fun c => negb (Ascii.eqb c "|")) data = true ->
  match answers data with
  | [a] =>
      Cli.getUserInputAsync Cli.yes_no w
      = (Done (String a ""),
         mkWorld (files w) (modules w) (constant w) rest (listeners w ++ ["y|n"]) (trace w))
      /\ (a = "y"%char \/ a = "n"%char)
  | _ =>
      Cli.getUserInputAsync Cli.yes_no w
      = (let '(o, r, es) := Cli.await_input (listeners w ++ ["y|n"]) "y|n" rest in
         (o, mkWorld (files w) (modules w) (constant w) r (listeners w ++ ["y|n"])
               (trace w ++ List.repeat (Warning "Invalied input") (S (List.length (listeners w)))
                ++ es)))
  end.
Proof.
  intros Hin Hhs Hd. unfold Cli.getUserInputAsync. rewrite matcher_yes_no, Hin.
  rewrite (await_input_step _ data rest Hhs Hd).
  pose proof (answers_yes_or_no data) as Hyn.
  destruct (answers data) as [|a [|b l]].
  - destruct (Cli.await_input _ _ rest) as [[o r] es]. reflexivity.
  - split; [now rewrite List.app_nil_r | apply Hyn; now left].
  - destruct (Cli.await_input _ _ rest) as [[o r] es]. reflexivity.
Qed.

(** The line [y] is accepted; after the line [x], which is refused with
    a warning, the line [y] is accepted. *)
Lemma C2_prompt_witness :
  Cli.getUserInputAsync Cli.yes_no (Demo.world ∅ ["y" ++ nl])
  = (Done "y", mkWorld ∅ ∅ None [] ["y|n"] [])
  /\ Cli.getUserInputAsync Cli.yes_no (Demo.world ∅ ["x" ++ nl; "y" ++ nl])
     = (Done "y", mkWorld ∅ ∅ None [] ["y|n"] [Warning "Invalied input"]).
Proof.
  split.
  - exact (proj1 (C2_prompt_takes_one_answer (Demo.world ∅ ["y" ++ nl]) ("y" ++ nl) []
                    eq_refl (List.Forall_nil _) eq_refl)).
  - exact (C2_prompt_takes_one_answer (Demo.world ∅ ["x" ++ nl; "y" ++ nl]) ("x" ++ nl)
             ["y" ++ nl] eq_refl (List.Forall_nil _) eq_refl).
Defined.

(** ** C8: a batch of installs *)

Lemma log_all_nil (w : World) : log_all [] w = w.
Proof. destruct w. unfold log_all. cbn. now rewrite List.app_nil_r. Qed.

Lemma log_all_app (es1 es2 : list event) (w : World) :
  log_all es2 (log_all es1 w) = log_all (es1 ++ es2) w.
Proof. unfold log_all. cbn. now rewrite List.app_assoc. Qed.

Lemma emit_all_spec (es : list event) (w : World) :
  PackageInstaller.emit_all es w = (Done tt, log_all es w).
Proof.
  revert w. induction es as [|e es IH]; intros w; cbn [PackageInstaller.emit_all].
  - now rewrite log_all_nil.
  - unfold bind, emit. rewrite IH. f_equal. unfold log_all. cbn.
    now rewrite <- List.app_assoc.
Qed.

(** An install logs its events and returns, whatever the code with which
    its child has closed. *)
Lemma installSpecificVersionAsync_spec (h : Host) (path : string) (version : jsval) (w : World) :
  PackageInstaller.installSpecificVersionAsync h path version w
  = (Done tt, log_all (PackageInstaller.events h w path version) w).
Proof.
  unfold PackageInstaller.installSpecificVersionAsync, PackageInstaller._installPackage,
    PackageInstaller.events, Utils.loggerInfo, bind, get_world, emit, ret.
  cbn [trace files modules constant stdin listeners].
  assert (Hargs : forall es,
            PackageInstaller.install_args
              (mkWorld (files w) (modules w) (constant w) (stdin w) (listeners w) es)
            = PackageInstaller.install_args w) by reflexivity.
  rewrite !Hargs, emit_all_spec. unfold log_all. cbn.
  repeat rewrite <- List.app_assoc. reflexivity.
Qed.

Section BatchFacts.

Context (h : Host) (w : World) (cs : list Component_t) (vf : Component_t -> jsval).

#[local] Abbreviation step := (Batch.step h w cs vf).
#[local] Abbreviation measure := (Batch.measure h w cs vf).
#[local] Abbreviation script := (Batch.script h w vf).
#[local] Abbreviation job_events := (Batch.job_events h w vf).
#[local] Abbreviation job_ok := (Batch.job_ok h w vf).
#[local] Abbreviation batch_ok := (Batch.batch_ok h w cs vf).

Lemma script_spec (c : Component_t) : script c = (job_events c, Done tt).
Proof.
  unfold Batch.script. rewrite installSpecificVersionAsync_spec. reflexivity.
Qed.

Lemma job_ok_mono (lg lg' : list event) (c : Component_t) (j : Batch.job) :
  (forall e, In e lg -> In e lg') -> job_ok lg c j -> job_ok lg' c j.
Proof.
  intros Hsub. destruct j as [|todo o| |e]; cbn [Batch.job_ok]; auto.
  - intros (Ho & done & Hev & Hdone). split; [exact Ho |]. exists done. split; [exact Hev |].
    eapply Forall_impl; [exact Hdone | auto].
  - intros H. eapply Forall_impl; [exact H | auto].
Qed.

Lemma batch_ok_init : batch_ok (Batch.init cs).
Proof.
  unfold Batch.batch_ok, Batch.init. cbn [Batch.jobs Batch.log].
  induction cs as [|c l IH]; cbn [map]; constructor; [exact I | exact IH].
Qed.

Lemma batch_ok_set (s : Batch.state) (lg : list event) (i : nat) (c : Component_t)
  (j : Batch.job) :
  batch_ok s -> (forall e, In e (Batch.log s) -> In e lg) ->
  cs !! i = Some c -> job_ok lg c j ->
  batch_ok (Batch.mkState (<[i := j]> (Batch.jobs s)) lg).
Proof.
  intros Hs Hsub Hc Hj. unfold Batch.batch_ok in *. cbn [Batch.jobs Batch.log].
  rewrite <- (list_insert_id cs i c Hc). apply Forall2_insert; [| exact Hj].
  eapply Forall2_impl; [exact Hs |]. intros c0 j0. now apply job_ok_mono.
Qed.

Lemma batch_ok_job (s : Batch.state) (i : nat) (j : Batch.job) :
  batch_ok s -> Batch.jobs s !! i = Some j ->
  exists c, cs !! i = Some c /\ job_ok (Batch.log s) c j.
Proof. intros Hs Hj. exact (Forall2_lookup_r _ _ _ _ _ Hs Hj). Qed.

Lemma batch_ok_step (s s' : Batch.state) : batch_ok s -> step s s' -> batch_ok s'.
Proof.
  intros Hs Hstep. destruct Hstep as [s i c Hj Hfirst Hc | s i e todo o Hj | s i Hj | s i e Hj].
  - apply (batch_ok_set s _ i c); auto.
    rewrite script_spec. cbn [fst snd Batch.job_ok]. split; [reflexivity |].
    exists []. split; [reflexivity | constructor].
  - destruct (batch_ok_job s i _ Hs Hj) as (c & Hc & Ho & done & Hev & Hdone).
    apply (batch_ok_set s _ i c); auto.
    + intros e0 He0. apply in_or_app. now left.
    + split; [exact Ho |]. exists (done ++ [e])%list. split.
      * now rewrite <- List.app_assoc.
      * apply Forall_app. split.
        -- eapply Forall_impl; [exact Hdone |]. intros e0 He0. apply in_or_app. now left.
        -- repeat constructor. apply in_or_app. right. now left.
  - destruct (batch_ok_job s i _ Hs Hj) as (c & Hc & _ & done & Hev & Hdone).
    apply (batch_ok_set s _ i c); auto.
    cbn [Batch.job_ok]. rewrite Hev, List.app_nil_r. exact Hdone.
  - destruct (batch_ok_job s i _ Hs Hj) as (c & Hc & Ho & _). discriminate Ho.
Qed.

Lemma batch_ok_reachable (s : Batch.state) : rtc step (Batch.init cs) s -> batch_ok s.
Proof.
  revert s. apply rtc_ind_r; [apply batch_ok_init |].
  intros y z _ Hstep Hy. eapply batch_ok_step; eassumption.
Qed.

(** Where a list of jobs stands. *)
Lemma job_cases (js : list Batch.job) :
  Forall (fun j => j = Batch.Resolved) js
  \/ (exists i e, js !! i = Some (Batch.Rejected e))
  \/ (exists i todo o, js !! i = Some (Batch.Running todo o))
  \/ (exists i, js !! i = Some Batch.Timer
                /\ forall k, (k < i)%nat -> js !! k <> Some Batch.Timer).
Proof.
  induction js as [|j js IH].
  - left. constructor.
  - destruct j as [|todo o| |e].
    + right; right; right. exists 0%nat. split; [reflexivity | intros k Hk; lia].
    + right; right; left. exists 0%nat, todo, o. reflexivity.
    + destruct IH as [H|[(i & e & H)|[(i & todo & o & H)|(i & H & Hfirst)]]].
      * left. now constructor.
      * right; left. exists (S i), e. exact H.
      * right; right; left. exists (S i), todo, o. exact H.
      * right; right; right. exists (S i). split; [exact H |].
        intros [|k] Hk; [discriminate |]. cbn. apply Hfirst. lia.
    + right; left. exists 0%nat, e. reflexivity.
Qed.

(** A batch that is not over can move. *)
Lemma batch_progress (s : Batch.state) :
  batch_ok s -> Batch.all_resolved s \/ exists s', step s s'.
Proof.
  intros Hs.
  destruct (job_cases (Batch.jobs s))
    as [H|[(i & e & H)|[(i & todo & o & H)|(i & H & Hfirst)]]].
  - now left.
  - destruct (batch_ok_job s i _ Hs H) as (c & _ & []).
  - right. destruct (batch_ok_job s i _ Hs H) as (c & _ & -> & _).
    destruct todo as [|e todo]; eexists.
    + exact (Batch.resolve h w cs vf s i H).
    + exact (Batch.say h w cs vf s i e todo _ H).
  - right. destruct (batch_ok_job s i _ Hs H) as (c & Hc & _).
    eexists. exact (Batch.fire h w cs vf s i c H Hfirst Hc).
Qed.

Lemma measure_insert (l : list Component_t) (js : list Batch.job) (i : nat)
  (c : Component_t) (j j' : Batch.job) :
  l !! i = Some c -> js !! i = Some j ->
  (Batch.measure_of h w vf l (<[i := j']> js) + Batch.weight h w vf c j
   = Batch.measure_of h w vf l js + Batch.weight h w vf c j')%nat.
Proof.
  revert js i. induction l as [|c0 l IH]; intros js i Hc Hj; [discriminate Hc |].
  destruct js as [|j0 js]; [discriminate Hj |].
  destruct i as [|i]; cbn in Hc, Hj.
  - injection Hc as ->. injection Hj as ->.
    change (<[0%nat := j']> (j :: js)) with (j' :: js).
    cbn [Batch.measure_of]. lia.
  - specialize (IH js i Hc Hj).
    change (<[S i := j']> (j0 :: js)) with (j0 :: <[i := j']> js).
    cbn [Batch.measure_of]. lia.
Qed.

(** Every step brings the batch nearer to its end. *)
Lemma step_measure (s s' : Batch.state) :
  batch_ok s -> step s s' -> (measure s' < measure s)%nat.
Proof.
  intros Hs Hstep. unfold Batch.measure.
  destruct Hstep as [s i c Hj Hfirst Hc | s i e todo o Hj | s i Hj | s i e Hj];
    cbn [Batch.jobs].
  - pose proof (measure_insert cs _ i c _
                  (Batch.Running (fst (script c)) (snd (script c))) Hc Hj) as H.
    cbn [Batch.weight] in H. lia.
  - destruct (batch_ok_job s i _ Hs Hj) as (c & Hc & _).
    pose proof (measure_insert cs _ i c _ (Batch.Running todo o) Hc Hj) as H.
    cbn [Batch.weight List.length] in H. lia.
  - destruct (batch_ok_job s i _ Hs Hj) as (c & Hc & _).
    pose proof (measure_insert cs _ i c _ Batch.Resolved Hc Hj) as H.
    cbn [Batch.weight List.length] in H. lia.
  - destruct (batch_ok_job s i _ Hs Hj) as (c & Hc & _).
    pose proof (measure_insert cs _ i c _ (Batch.Rejected e) Hc Hj) as H.
    cbn [Batch.weight List.length] in H. lia.
Qed.

(** From wherever it stands, a batch can be brought to its end. *)
Lemma batch_completion (s : Batch.state) :
  batch_ok s -> exists s', rtc step s s' /\ Batch.all_resolved s'.
Proof.
  remember (measure s) as n eqn:Hn. revert s Hn.
  induction n as [n IH] using lt_wf_ind. intros s -> Hs.
  destruct (batch_progress s Hs) as [Hall|[s1 Hstep]].
  - exists s. split; [apply rtc_refl | exact Hall].
  - destruct (IH (measure s1) (step_measure s s1 Hs Hstep) s1 eq_refl
                (batch_ok_step s s1 Hs Hstep)) as (s' & Hrtc & Hall).
    exists s'. split; [eapply rtc_l; eassumption | exact Hall].
Qed.

(** When every promise has resolved, every install has logged all its
    events. *)
Lemma batch_logged (s : Batch.state) (c : Component_t) (e : event) :
  batch_ok s -> Batch.all_resolved s -> In c cs -> In e (job_events c) ->
  In e (Batch.log s).
Proof.
  intros Hs Hall Hc He. unfold Batch.batch_ok, Batch.all_resolved in *.
  apply list_elem_of_In, list_elem_of_lookup in Hc as [i Hi].
  destruct (Forall2_lookup_l _ _ _ _ _ Hs Hi) as (j & Hj & Hok).
  rewrite (Forall_lookup_1 _ _ _ _ Hall Hj) in Hok. cbn [Batch.job_ok] in Hok.
  rewrite List.Forall_forall in Hok. now apply Hok.
Qed.

End BatchFacts.

Lemma report_failure (path : string) (code : option Z) :
  code <> Some 0%Z ->
  PackageInstaller.report path code
  = Failure ("Failed install kr-library at " ++ path ++ " with code: "
             ++ PackageInstaller.code_to_string code).
Proof. destruct code as [[|p|p]|]; intros H; [now destruct H | reflexivity ..]. Qed.



(** ** The order in which the children are heard *)

Lemma spawns_app (es1 es2 : list event) : spawns (es1 ++ es2) = (spawns es1 ++ spawns es2)%list.
Proof.
  induction es1 as [|e es1 IH]; [reflexivity |].
  destruct e; cbn [spawns app]; rewrite IH; reflexivity.
Qed.

Lemma spawns_concat (l : list (list event)) : spawns (concat l) = concat (map spawns l).
Proof.
  induction l as [|es l IH]; [reflexivity |].
  cbn [concat map]. now rewrite spawns_app, IH.
Qed.

Lemma spawns_output (out : list chunk) :
  spawns (concat (map PackageInstaller.on_data out)) = [].
Proof.
  induction out as [|c out IH]; [reflexivity |].
  cbn [map concat]. rewrite spawns_app, IH.
  destruct c as [d | d]; cbn [PackageInstaller.on_data]; [reflexivity |].
  destruct (negb _); reflexivity.
Qed.

Lemma spawns_events (h : Host) (w : World) (path : string) (version : jsval) :
  spawns (PackageInstaller.events h w path version)
  = [(path, PackageInstaller.install_args w version)].
Proof.
  unfold PackageInstaller.events. cbn [app spawns].
  rewrite spawns_app, spawns_output. cbn [app].
  unfold PackageInstaller.report.
  destruct (exit_code _) as [[|p|p]|]; reflexivity.
Qed.

Lemma concat_nil {A B} (f : A -> list B) (l : list A) :
  Forall (fun x => f x = []) l -> concat (map f l) = [].
Proof. induction 1 as [|x l Hx _ IH]; [reflexivity |]. cbn [map concat]. now rewrite Hx, IH. Qed.

Lemma settle_resolved (j : Timers.job) (k : list event * outcome unit) :
  resolves j -> Timers.settle j k = k.
Proof. destruct j as [[|e es] o]; unfold resolves; cbn; intros ->; reflexivity. Qed.

(** The job that is heard is one of the running jobs; it loses its first
    event, and the others stand. *)
Lemma hear_spec (n : nat) (running : list Timers.job) (e : event) (j : Timers.job)
  (running' : list Timers.job) :
  Timers.hear n running = Some (e, j, running') ->
  exists pre post todo o,
    running = (pre ++ (e :: todo, o) :: post)%list
    /\ j = (todo, o) /\ running' = (pre ++ (todo, o) :: post)%list.
Proof.
  revert n running'. induction running as [|[[|e0 todo0] o0] r IH]; intros n running';
    cbn [Timers.hear].
  - discriminate.
  - destruct (Timers.hear n r) as [[[e' j'] r']|] eqn:E; [| discriminate].
    intros [= -> -> <-]. destruct (IH _ _ E) as (pre & post & todo & o & -> & -> & ->).
    now exists (([], o0) :: pre), post, todo, o.
  - destruct n as [|n].
    + intros [= <- <- <-]. now exists [], r, todo0, o0.
    + destruct (Timers.hear n r) as [[[e' j'] r']|] eqn:E; [| discriminate].
      intros [= -> -> <-]. destruct (IH _ _ E) as (pre & post & todo & o & -> & -> & ->).
      now exists ((e0 :: todo0, o0) :: pre), post, todo, o.
Qed.

Lemma sync_split (es : list event) :
  (fst (Timers.sync es) ++ snd (Timers.sync es))%list = es.
Proof.
  induction es as [|e es IH]; [reflexivity |].
  destruct e; cbn [Timers.sync]; try reflexivity;
    destruct (Timers.sync es) as [a b]; cbn [fst snd app] in *; now rewrite IH.
Qed.

Lemma in_order_resolved (jobs : list Timers.job) :
  Forall resolves jobs -> Timers.in_order jobs = (concat (map fst jobs), Done tt).
Proof.
  induction 1 as [|j jobs Hj _ IH]; [reflexivity |].
  cbn [Timers.in_order map concat]. rewrite settle_resolved by exact Hj. now rewrite IH.
Qed.

Lemma perm_hear {A} (e : A) (a t p q : list A) :
  Permutation ([e] ++ (a ++ t ++ p) ++ q)%list ((a ++ (e :: t) ++ p) ++ q)%list.
Proof.
  rewrite <- !List.app_assoc. cbn [app]. apply Permutation_middle.
Qed.

Lemma perm_fire {A} (a b r p : list A) :
  Permutation (a ++ (r ++ b ++ []) ++ p)%list (r ++ (a ++ b) ++ p)%list.
Proof.
  rewrite List.app_nil_r, <- !List.app_assoc. apply Permutation_app_swap_app.
Qed.

(** A batch of installs that all return: whatever the turns,
    [Promise.all] resolves, and the log is made of the events of the
    installs, each once. *)
Lemma weave_resolved (turns : list nat) :
  forall running pending,
    Forall resolves running -> Forall resolves pending ->
    snd (Timers.weave turns running pending) = Done tt
    /\ Permutation (fst (Timers.weave turns running pending))
         (concat (map fst running) ++ concat (map fst pending))%list.
Proof.
  induction turns as [|n turns IH]; intros running pending Hr Hp; cbn [Timers.weave].
  - rewrite in_order_resolved by (apply Forall_app; now split).
    cbn [fst snd]. now rewrite List.map_app, List.concat_app.
  - destruct (Timers.hear n running) as [[[e j] running']|] eqn:E.
    + destruct (hear_spec _ _ _ _ _ E) as (pre & post & todo & o & -> & -> & ->).
      apply Forall_app in Hr as [Hpre Hpost]. apply Forall_cons in Hpost as [Hj Hpost].
      rewrite settle_resolved by exact Hj.
      destruct (IH (pre ++ (todo, o) :: post)%list pending) as [Ho Hperm]; [| exact Hp |].
      { apply Forall_app. split; [exact Hpre |]. now constructor. }
      cbn [Timers.say fst snd]. split; [exact Ho |]. rewrite Hperm.
      rewrite !List.map_app, !List.concat_app. cbn [map concat fst].
      apply perm_hear.
    + destruct pending as [|p pending]; [now apply IH |].
      apply Forall_cons in Hp as [Hj Hp].
      pose proof (sync_split (fst p)) as Hs.
      destruct (Timers.sync (fst p)) as [a b]. cbn [fst snd] in Hs.
      rewrite settle_resolved by exact Hj.
      destruct (IH (running ++ [(b, snd p)])%list pending) as [Ho Hperm]; [| exact Hp |].
      { apply Forall_app. split; [exact Hr |]. now repeat constructor. }
      cbn [Timers.say fst snd]. split; [exact Ho |]. rewrite Hperm.
      rewrite !List.map_app, !List.concat_app. cbn [map concat fst]. rewrite <- Hs.
      apply perm_fire.
Qed.

(** The children of a batch are spawned in the order of the timers,
    whatever the order in which they are heard. *)
Lemma weave_spawns (turns : list nat) :
  forall running pending,
    Forall resolves running -> Forall resolves pending ->
    Forall (fun j => spawns (fst j) = []) running ->
    Forall spawns_once pending ->
    spawns (fst (Timers.weave turns running pending))
    = concat (map (fun j => spawns (fst j)) pending).
Proof.
  unfold spawns_once.
  induction turns as [|n turns IH]; intros running pending Hr Hp Hsr Hsp; cbn [Timers.weave].
  - rewrite in_order_resolved by (apply Forall_app; now split).
    cbn [fst]. rewrite spawns_concat, List.map_map, List.map_app, List.concat_app.
    now rewrite (concat_nil _ running Hsr).
  - destruct (Timers.hear n running) as [[[e j] running']|] eqn:E.
    + destruct (hear_spec _ _ _ _ _ E) as (pre & post & todo & o & -> & -> & ->).
      apply Forall_app in Hr as [Hpre Hpost]. apply Forall_cons in Hpost as [Hj Hpost].
      apply Forall_app in Hsr as [Hspre Hspost]. apply Forall_cons in Hspost as [Hsj Hspost].
      rewrite settle_resolved by exact Hj. cbn [Timers.say fst snd] in *.
      rewrite spawns_app, IH; try assumption.
      * destruct e; cbn [spawns] in Hsj |- *; try reflexivity. discriminate Hsj.
      * apply Forall_app. split; [exact Hpre |]. now constructor.
      * apply Forall_app. split; [exact Hspre |]. constructor; [| exact Hspost].
        cbn [fst]. destruct e; cbn [spawns] in Hsj; try exact Hsj. discriminate Hsj.
    + destruct pending as [|p pending]; [now apply IH |].
      apply Forall_cons in Hp as [Hj Hp]. apply Forall_cons in Hsp as [Hsj Hsp].
      pose proof (sync_split (fst p)) as Hs.
      destruct (Timers.sync (fst p)) as [a b]. cbn [fst snd] in Hs, Hsj.
      rewrite settle_resolved by exact Hj. cbn [Timers.say fst snd map concat].
      rewrite spawns_app, IH; try assumption.
      * now rewrite <- Hs, spawns_app, Hsj, List.app_nil_r.
      * apply Forall_app. split; [exact Hr |]. now repeat constructor.
      * apply Forall_app. split; [exact Hsr |]. now repeat constructor.
Qed.

Lemma sublist_concat_in {A} (l : list A) (ls : list (list A)) :
  In l ls -> sublist l (concat ls).
Proof.
  induction ls as [|l0 ls IH]; intros Hin; [destruct Hin |].
  cbn [concat]. destruct Hin as [-> | Hin].
  - now apply sublist_inserts_r.
  - now apply sublist_inserts_l, IH.
Qed.

(** What a job logs, it logs in its order, whatever is logged between. *)
Lemma weave_sublist (turns : list nat) :
  forall running pending j,
    Forall resolves running -> Forall resolves pending ->
    In j (running ++ pending)%list ->
    sublist (fst j) (fst (Timers.weave turns running pending)).
Proof.
  induction turns as [|n turns IH]; intros running pending j Hr Hp Hj; cbn [Timers.weave].
  - rewrite in_order_resolved by (apply Forall_app; now split).
    cbn [fst]. apply sublist_concat_in. now apply in_map.
  - destruct (Timers.hear n running) as [[[e j'] running']|] eqn:E.
    + destruct (hear_spec _ _ _ _ _ E) as (pre & post & todo & o & -> & -> & ->).
      apply Forall_app in Hr as [Hpre Hpost]. apply Forall_cons in Hpost as [Hj' Hpost].
      rewrite settle_resolved by exact Hj'. cbn [Timers.say fst snd app].
      assert (Hr' : Forall resolves (pre ++ (todo, o) :: post)%list).
      { apply Forall_app. split; [exact Hpre |]. now constructor. }
      rewrite <- List.app_assoc in Hj. cbn [app] in Hj.
      apply in_app_or in Hj as [Hj | [<- | Hj]].
      * apply sublist_cons, (IH _ _ _ Hr' Hp). rewrite <- List.app_assoc.
        apply in_or_app. now left.
      * cbn [fst]. apply sublist_skip.
        apply (IH _ _ (todo, o) Hr' Hp). rewrite <- List.app_assoc.
        apply in_or_app. right. now left.
      * apply sublist_cons, (IH _ _ _ Hr' Hp). rewrite <- List.app_assoc.
        apply in_or_app. right. now right.
    + destruct pending as [|p pending]; [now apply IH |].
      apply Forall_cons in Hp as [Hp0 Hp].
      pose proof (sync_split (fst p)) as Hs.
      destruct (Timers.sync (fst p)) as [a b]. cbn [fst snd] in Hs.
      rewrite settle_resolved by exact Hp0. cbn [Timers.say fst snd].
      assert (Hr' : Forall resolves (running ++ [(b, snd p)])%list).
      { apply Forall_app. split; [exact Hr |]. now repeat constructor. }
      apply in_app_or in Hj as [Hj | [<- | Hj]].
      * apply sublist_inserts_l, (IH _ _ _ Hr' Hp). rewrite <- List.app_assoc.
        apply in_or_app. now left.
      * rewrite <- Hs. apply sublist_app; [reflexivity |].
        apply (IH _ _ (b, snd p) Hr' Hp). rewrite <- List.app_assoc.
        apply in_or_app. right. now left.
      * apply sublist_inserts_l, (IH _ _ _ Hr' Hp). rewrite <- List.app_assoc.
        apply in_or_app. right. now right.
Qed.

(** What [Promise.all] makes of jobs that all return and spawn one
    child each. *)
Lemma await_all_resolved (h : Host) (jobs : list Timers.job) (w : World) :
  Forall resolves jobs -> Forall spawns_once jobs ->
  exists es,
    LeyserkidsComponentCollection.await_all h jobs w = (Done tt, log_all es w)
    /\ Permutation es (concat (map fst jobs))
    /\ spawns es = concat (map (fun j => spawns (fst j)) jobs)
    /\ Forall (fun j => sublist (fst j) es) jobs.
Proof.
  intros Hr Hs. exists (fst (Timers.all (turns h) jobs)).
  unfold LeyserkidsComponentCollection.await_all, Timers.all.
  destruct (weave_resolved (turns h) [] jobs (List.Forall_nil _) Hr) as [Ho Hperm].
  split; [| split; [| split]].
  - now rewrite Ho.
  - exact Hperm.
  - exact (weave_spawns (turns h) [] jobs (List.Forall_nil _) Hr (List.Forall_nil _) Hs).
  - apply List.Forall_forall. intros j Hj.
    exact (weave_sublist (turns h) [] jobs j (List.Forall_nil _) Hr Hj).
Qed.

(** The job of an install is to log its events and to return. *)
Lemma job_of_install (h : Host) (w : World) (path : string) (version : jsval) :
  Timers.job_of (PackageInstaller.installSpecificVersionAsync h path version) w
  = (PackageInstaller.events h w path version, Done tt).
Proof.
  unfold Timers.job_of. rewrite installSpecificVersionAsync_spec. reflexivity.
Qed.

Lemma install_spawns_once (h : Host) (w : World) (path : string) (version : jsval) :
  spawns_once (PackageInstaller.events h w path version, Done tt).
Proof.
  unfold spawns_once, PackageInstaller.events. cbn [fst snd app Timers.sync].
  rewrite spawns_app, spawns_output. unfold PackageInstaller.report.
  destruct (exit_code _) as [[|p|p]|]; reflexivity.
Qed.

(** A batch of installs, whatever the order in which the children are
    heard: it resolves; its log is made of the events of the installs,
    each once, those of an install in their order; the children are
    spawned in the order of the array. *)
Lemma installPackagesWithVersionAsync_spec
  (h : Host) (cs : list Component_t) (vf : Component_t -> jsval) (w : World) :
  exists es,
    LeyserkidsComponentCollection.installPackagesWithVersionAsync h cs vf w
    = (Done tt, log_all es w)
    /\ Permutation es (concat (map (Batch.job_events h w vf) cs))
    /\ spawns es = map (fun c => (componentPath c, PackageInstaller.install_args w (vf c))) cs
    /\ Forall (fun c => sublist (Batch.job_events h w vf c) es) cs.
Proof.
  unfold LeyserkidsComponentCollection.installPackagesWithVersionAsync.
  destruct (await_all_resolved h
              (map (fun c => Timers.job_of
                               (PackageInstaller.installSpecificVersionAsync h (componentPath c)
                                  (vf c)) w) cs) w)
    as (es & Hes & Hperm & Hsp & Hsub).
  - apply Forall_forall. intros j Hj. apply list_elem_of_fmap in Hj as (c & -> & _).
    now rewrite job_of_install.
  - apply Forall_forall. intros j Hj. apply list_elem_of_fmap in Hj as (c & -> & _).
    rewrite job_of_install. apply install_spawns_once.
  - exists es. split; [exact Hes |]. rewrite List.map_map in Hperm, Hsp.
    split; [| split].
    + rewrite Hperm. erewrite map_ext; [reflexivity |].
      intros c. now rewrite job_of_install.
    + rewrite Hsp. clear. induction cs as [|c cs IH]; [reflexivity |].
      cbn [map concat]. rewrite job_of_install. cbn [fst].
      now rewrite spawns_events, IH.
    + rewrite List.Forall_forall in Hsub |- *. intros c Hc.
      specialize (Hsub _ (in_map _ _ _ Hc)). cbv beta in Hsub.
      now rewrite job_of_install in Hsub.
Qed.

(** ** Every run of the embedding is a run of the batch *)

Section Schedules.

Context (h : Host) (w : World) (cs : list Component_t) (vf : Component_t -> jsval).

#[local] Abbreviation step := (Batch.step h w cs vf).
#[local] Abbreviation script := (Batch.script h w vf).
#[local] Abbreviation over := (Batch.Running [] (Done tt)).

Lemma insert_middle {A} (l1 l2 : list A) (x y : A) :
  <[List.length l1 := y]> (l1 ++ x :: l2)%list = (l1 ++ y :: l2)%list.
Proof.
  rewrite insert_app_r_alt by lia. now rewrite Nat.sub_diag.
Qed.

Lemma say_middle (pre post : list Batch.job) (e : event) (todo : list event)
  (o : outcome unit) (lg : list event) :
  step (Batch.mkState (pre ++ Batch.Running (e :: todo) o :: post) lg)
    (Batch.mkState (pre ++ Batch.Running todo o :: post) (lg ++ [e])).
Proof.
  pose proof (Batch.say h w cs vf
                (Batch.mkState (pre ++ Batch.Running (e :: todo) o :: post) lg)
                (List.length pre) e todo o) as H.
  cbn [Batch.jobs Batch.log] in H. rewrite insert_middle in H.
  apply H. now apply list_lookup_middle.
Qed.

(** A running child logs what it has to log. *)
Lemma say_many (pre post : list Batch.job) (es todo : list event) (o : outcome unit)
  (lg : list event) :
  rtc step (Batch.mkState (pre ++ Batch.Running (es ++ todo) o :: post) lg)
    (Batch.mkState (pre ++ Batch.Running todo o :: post) (lg ++ es)).
Proof.
  revert lg. induction es as [|e es IH]; intros lg.
  - rewrite List.app_nil_r. apply rtc_refl.
  - eapply rtc_l; [apply say_middle |].
    replace (lg ++ e :: es)%list with ((lg ++ [e]) ++ es)%list
      by (now rewrite <- List.app_assoc).
    apply IH.
Qed.

Lemma fire_middle (pre post : list Batch.job) (c : Component_t) (lg : list event) :
  Forall (fun j => j <> Batch.Timer) pre ->
  cs !! List.length pre = Some c ->
  step (Batch.mkState (pre ++ Batch.Timer :: post) lg)
    (Batch.mkState (pre ++ Batch.Running (fst (script c)) (snd (script c)) :: post) lg).
Proof.
  intros Hpre Hc.
  pose proof (Batch.fire h w cs vf (Batch.mkState (pre ++ Batch.Timer :: post) lg)
                (List.length pre) c) as H.
  cbn [Batch.jobs Batch.log] in H. rewrite insert_middle in H.
  apply H; [now apply list_lookup_middle | | exact Hc].
  intros j Hj Hl. rewrite lookup_app_l in Hl by exact Hj.
  rewrite Forall_lookup in Hpre. now apply (Hpre j _ Hl).
Qed.

Lemma resolve_middle (pre post : list Batch.job) (lg : list event) :
  step (Batch.mkState (pre ++ over :: post) lg)
    (Batch.mkState (pre ++ Batch.Resolved :: post) lg).
Proof.
  pose proof (Batch.resolve h w cs vf (Batch.mkState (pre ++ over :: post) lg)
                (List.length pre)) as H.
  cbn [Batch.jobs Batch.log] in H. rewrite insert_middle in H.
  apply H. now apply list_lookup_middle.
Qed.

(** The children that run are heard to their end, one after the other. *)
Lemma flush_running (running : list Timers.job) :
  Forall resolves running ->
  forall pre post lg,
    rtc step (Batch.mkState (pre ++ map running_job running ++ post) lg)
      (Batch.mkState (pre ++ replicate (List.length running) over ++ post)
         (lg ++ concat (map fst running))).
Proof.
  induction 1 as [|[es o] running Hj _ IH]; intros pre post lg.
  - cbn [map concat List.length replicate app]. rewrite List.app_nil_r. apply rtc_refl.
  - unfold resolves in Hj. cbn [snd] in Hj. subst o.
    cbn [map concat List.length replicate app fst snd running_job].
    eapply rtc_trans.
    { rewrite <- (List.app_nil_r es) at 1. apply say_many. }
    specialize (IH (pre ++ [over])%list post (lg ++ es)%list).
    rewrite <- !List.app_assoc in IH. cbn [app] in IH.
    exact IH.
Qed.

Lemma running_not_timer (running : list Timers.job) :
  Forall (fun j => j <> Batch.Timer) (map running_job running).
Proof.
  apply Forall_forall. intros j Hj. apply list_elem_of_fmap in Hj as (x & -> & _).
  discriminate.
Qed.

Lemma script_resolves (c : Component_t) : resolves (script c).
Proof. unfold resolves. now rewrite script_spec. Qed.

(** The timers that are left fire one after the other, each install
    over before the next timer. *)
Lemma flush_pending (cs2 : list Component_t) :
  forall cs1 pre lg,
    cs = (cs1 ++ cs2)%list -> List.length cs1 = List.length pre ->
    Forall (fun j => j <> Batch.Timer) pre ->
    rtc step (Batch.mkState (pre ++ replicate (List.length cs2) Batch.Timer) lg)
      (Batch.mkState (pre ++ replicate (List.length cs2) over)
         (lg ++ concat (map (fun c => fst (script c)) cs2))).
Proof.
  induction cs2 as [|c cs2 IH]; intros cs1 pre lg Hcs Hlen Hpre.
  - cbn [map concat List.length replicate]. rewrite !List.app_nil_r. apply rtc_refl.
  - cbn [map concat List.length replicate].
    eapply rtc_l.
    { apply fire_middle; [exact Hpre |]. rewrite Hcs, <- Hlen. now apply list_lookup_middle. }
    pose proof (script_resolves c) as Hd. unfold resolves in Hd. rewrite Hd.
    eapply rtc_trans.
    { rewrite <- (List.app_nil_r (fst (script c))) at 1. apply say_many. }
    specialize (IH (cs1 ++ [c])%list (pre ++ [over])%list (lg ++ fst (script c))%list).
    rewrite <- !List.app_assoc in IH. cbn [app] in IH.
    apply IH.
    + exact Hcs.
    + rewrite !List.length_app. cbn [List.length]. lia.
    + apply Forall_app. split; [exact Hpre |]. repeat constructor. discriminate.
Qed.

(** Turn after turn, the batch of the embedding goes through states of
    the batch. *)
Lemma weave_steps (turns : list nat) :
  forall running cs1 cs2 lg,
    cs = (cs1 ++ cs2)%list -> List.length cs1 = List.length running ->
    Forall resolves running ->
    rtc step
      (Batch.mkState (map running_job running ++ replicate (List.length cs2) Batch.Timer) lg)
      (Batch.mkState (replicate (List.length cs) over)
         (lg ++ fst (Timers.weave turns running (map script cs2)))).
Proof.
  induction turns as [|n turns IH]; intros running cs1 cs2 lg Hcs Hlen Hr; cbn [Timers.weave].
  - rewrite in_order_resolved.
    2:{ apply Forall_app. split; [exact Hr |]. apply Forall_forall. intros j Hj.
        apply list_elem_of_fmap in Hj as (c & -> & _). apply script_resolves. }
    cbn [fst]. rewrite List.map_app, List.concat_app, List.map_map.
    eapply rtc_trans.
    { apply (flush_running running Hr [] (replicate (List.length cs2) Batch.Timer) lg). }
    cbn [app].
    pose proof (flush_pending cs2 cs1 (replicate (List.length running) over)
                  (lg ++ concat (map fst running))%list Hcs) as H.
    rewrite length_replicate in H. specialize (H Hlen).
    rewrite <- List.app_assoc in H.
    replace (replicate (List.length cs) over)
      with (replicate (List.length running) over ++ replicate (List.length cs2) over)%list
      by (rewrite <- replicate_add, Hcs, List.length_app; f_equal; lia).
    apply H. apply Forall_replicate. discriminate.
  - destruct (Timers.hear n running) as [[[e j] running']|] eqn:E.
    + destruct (hear_spec _ _ _ _ _ E) as (pre & post & todo & o & -> & -> & ->).
      apply Forall_app in Hr as [Hpre Hpost]. apply Forall_cons in Hpost as [Hj Hpost].
      rewrite settle_resolved by exact Hj. cbn [Timers.say fst snd].
      rewrite !List.map_app. cbn [map running_job fst snd]. rewrite <- !List.app_assoc.
      cbn [app]. eapply rtc_l; [apply say_middle |].
      specialize (IH (pre ++ (todo, o) :: post)%list cs1 cs2 (lg ++ [e])%list Hcs).
      rewrite !List.map_app, <- !List.app_assoc in IH. cbn [map running_job fst snd app] in IH.
      apply IH.
      * rewrite Hlen, !List.length_app. reflexivity.
      * apply Forall_app. split; [exact Hpre |]. now constructor.
    + destruct cs2 as [|c cs2]; [now apply (IH running cs1 []) |].
      cbn [map List.length replicate].
      pose proof (sync_split (fst (script c))) as Hs.
      destruct (Timers.sync (fst (script c))) as [a b]. cbn [fst snd] in Hs.
      rewrite settle_resolved by apply script_resolves. cbn [Timers.say fst snd].
      eapply rtc_l.
      { apply fire_middle; [apply running_not_timer |].
        rewrite length_map, Hcs, <- Hlen. now apply list_lookup_middle. }
      rewrite <- Hs. eapply rtc_trans; [apply say_many |].
      specialize (IH (running ++ [(b, snd (script c))])%list (cs1 ++ [c])%list cs2
                    (lg ++ a)%list).
      rewrite !List.map_app, <- !List.app_assoc in IH. cbn [map running_job fst snd app] in IH.
      apply IH.
      * exact Hcs.
      * rewrite !List.length_app. cbn [List.length]. lia.
      * apply Forall_app. split; [exact Hr |]. repeat constructor. apply script_resolves.
Qed.

(** Once every install is over, every promise resolves. *)
Lemma resolve_all (m : nat) :
  forall k lg,
    rtc step (Batch.mkState (replicate k Batch.Resolved ++ replicate m over) lg)
      (Batch.mkState (replicate (k + m) Batch.Resolved) lg).
Proof.
  induction m as [|m IH]; intros k lg.
  - cbn [replicate]. rewrite List.app_nil_r, Nat.add_0_r. apply rtc_refl.
  - cbn [replicate]. eapply rtc_l; [apply resolve_middle |].
    specialize (IH (S k) lg). rewrite replicate_S_end, <- List.app_assoc in IH.
    cbn [app] in IH. now rewrite Nat.add_succ_r.
Qed.

Lemma init_timers : Batch.init cs = Batch.mkState (replicate (List.length cs) Batch.Timer) [].
Proof.
  unfold Batch.init. f_equal.
  induction cs as [|c l IH]; cbn [map List.length replicate]; [reflexivity | now rewrite IH].
Qed.

(** The run of [installPackagesWithVersionAsync] in the embedding,
    whatever the order in which the machine lets the children be heard,
    is a run of the batch: it ends with every promise resolved, and with
    the log of that run. *)
Lemma schedule_is_run :
  exists s,
    rtc step (Batch.init cs) s
    /\ Batch.all_resolved s
    /\ LeyserkidsComponentCollection.installPackagesWithVersionAsync h cs vf w
       = (Done tt, log_all (Batch.log s) w).
Proof.
  exists (Batch.mkState (replicate (List.length cs) Batch.Resolved)
            (fst (Timers.all (turns h) (map script cs)))).
  repeat apply conj.
  - rewrite init_timers. eapply rtc_trans.
    + exact (weave_steps (turns h) [] [] cs [] eq_refl eq_refl (List.Forall_nil _)).
    + exact (resolve_all (List.length cs) 0 _).
  - unfold Batch.all_resolved. cbn [Batch.jobs]. now apply Forall_replicate.
  - cbn [Batch.log].
    unfold LeyserkidsComponentCollection.installPackagesWithVersionAsync,
      LeyserkidsComponentCollection.await_all.
    change (map (fun c => Timers.job_of
                            (PackageInstaller.installSpecificVersionAsync h (componentPath c)
                               (vf c)) w) cs)
      with (map script cs).
    destruct (weave_resolved (turns h) [] (map script cs) (List.Forall_nil _)) as [Ho _].
    + apply Forall_forall. intros j Hj.
      apply list_elem_of_fmap in Hj as (c & -> & _). apply script_resolves.
    + unfold Timers.all. now rewrite Ho.
Qed.

End Schedules.

(** ** C5: the first reconciliation *)

Lemma getUserInputAsync_constant (inputs : list json) (w w' : World) (o : outcome string) :
  Cli.getUserInputAsync inputs w = (o, w') -> constant w' = constant w.
Proof.
  unfold Cli.getUserInputAsync.
  destruct (Cli.await_input _ _ _) as [[o' r] es]. now intros [= _ <-].
Qed.

(** A reconciliation whose prompt was answered [y]: the installs, then
    the exit with code 0. *)
Lemma installs_then_exit (h : Host) (cs : list Component_t) (vf : Component_t -> jsval)
  (w : World) :
  exists es,
    (LeyserkidsComponentCollection.installPackagesWithVersionAsync h cs vf;; exit 0) w
    = (@Exited unit 0, log_all es w)
    /\ Permutation es (concat (map (Batch.job_events h w vf) cs))
    /\ spawns es = map (fun c => (componentPath c, PackageInstaller.install_args w (vf c))) cs
    /\ Forall (fun c => sublist (Batch.job_events h w vf c) es) cs.
Proof.
  destruct (installPackagesWithVersionAsync_spec h cs vf w) as (es & He & Hperm & Hsp & Hsub).
  exists es. unfold bind. rewrite He. now repeat split.
Qed.

(** C5.  When some component was never installed and the answer to the
    prompt is [y]: [checkFullyInstalled] runs the installs of exactly
    these components and then exits with code 0.  Whatever the order in
    which the machine lets the children be heard, what is logged after
    the answer is made of the events of these installs, each once, and
    those of an install in their order; the children are spawned in the
    order of the components, each one <<npm install git+URL#semver:V>>
    in the directory of its component, with V its expected version.  The three reconciliations together,
    and [run] after a discovery that ends in this collection, end in the
    same exit and the same world: nothing of [checkExpectedVersion] or
    [checkLatestVersion] happens. *)
Theorem C5_yes_installs_then_exits
  (h : Host) (pkgs : Collection_t) (w w2 : World) :
  LeyserkidsComponentCollection.getUnInstalled pkgs <> [] ->
  Cli.getUserInputAsync Cli.yes_no (log_all [not_fully_installed] w) = (Done "y", w2) ->
  exists es,
    Cli.checkFullyInstalled h pkgs w = (Exited 0, log_all es w2)
    /\ Cli.reconcile h pkgs w = (Exited 0, log_all es w2)
    /\ (forall w0, Cli.discover h w0 = (Done pkgs, w) ->
                   Cli.run h w0 = (Exited 0, log_all es w2))
    /\ Permutation es
         (concat (map (fun c => PackageInstaller.events h w2 (componentPath c)
                                  (Some (JStr (expectedVersion c))))
                    (LeyserkidsComponentCollection.getUnInstalled pkgs)))
    /\ spawns es
       = map (fun c => (componentPath c,
                        ["install";
                         Json.plus (Constant.KR_LIB_NPM_URL w) (Some (JStr (expectedVersion c)))]))
           (LeyserkidsComponentCollection.getUnInstalled pkgs)
    /\ Forall (fun c => sublist (PackageInstaller.events h w2 (componentPath c)
                                   (Some (JStr (expectedVersion c)))) es)
         (LeyserkidsComponentCollection.getUnInstalled pkgs).
Proof.
  intros Hne Hyes.
  destruct (installs_then_exit h (LeyserkidsComponentCollection.getUnInstalled pkgs)
              (fun c => Some (JStr (expectedVersion c))) w2)
    as (es & He & Hperm & Hsp & Hsub).
  exists es.
  assert (Hcheck : Cli.checkFullyInstalled h pkgs w = (Exited 0, log_all es w2)).
  { unfold Cli.checkFullyInstalled.
    fold (LeyserkidsComponentCollection.installExpectAsync h
            (LeyserkidsComponentCollection.getUnInstalled pkgs)) in He.
    destruct (LeyserkidsComponentCollection.getUnInstalled pkgs) as [|c l] eqn:E;
      [now destruct Hne |].
    cbn [List.length Nat.ltb Nat.leb]. unfold Utils.loggerError.
    change (emit ?e) with (emit not_fully_installed) at 1.
    unfold bind at 1. change (emit not_fully_installed w)
      with (Done tt, log_all [not_fully_installed] w).
    cbv beta iota. unfold bind at 1. rewrite Hyes. cbv beta iota.
    cbn [String.eqb Ascii.eqb Bool.eqb]. exact He. }
  assert (Hurl : Constant.KR_LIB_NPM_URL w2 = Constant.KR_LIB_NPM_URL w).
  { unfold Constant.KR_LIB_NPM_URL.
    now rewrite (getUserInputAsync_constant _ _ _ _ Hyes). }
  repeat apply conj.
  - exact Hcheck.
  - unfold Cli.reconcile, bind. now rewrite Hcheck.
  - intros w0 Hdisc. unfold Cli.run, try_catch.
    rewrite (bind_done _ _ _ _ _ Hdisc). fold (Cli.reconcile h pkgs).
    unfold Cli.reconcile, bind. now rewrite Hcheck.
  - exact Hperm.
  - rewrite Hsp. apply map_ext. intros c. unfold PackageInstaller.install_args.
    now rewrite Hurl.
  - exact Hsub.
Qed.

(** In the repository of [Demo], whose component [a] was never
    installed, the answer [y] makes [run] install [a] at 1.0.0, its
    expected version, and exit with code 0; [b], behind its expected
    version, is not touched.  In a repository in which neither was
    installed, on a machine that hears the two children in turn, [run]
    installs both and exits with code 0. *)
Lemma C5_yes_witness :
  (fst (Cli.run Demo.machine (Demo.world Demo.disk ["y" ++ nl])) = Exited 0
   /\ spawns (trace (snd (Cli.run Demo.machine (Demo.world Demo.disk ["y" ++ nl]))))
      = [("/repo/a",
          ["install"; "git+https://git.example/gcleyser/kr-library.git#semver:1.0.0"])])
  /\ (fst (Cli.run (Demo.heard [0; 1; 1; 0; 1; 0] Demo.machine)
              (Demo.world Demo.fresh_disk ["y" ++ nl])) = Exited 0
      /\ spawns (trace (snd (Cli.run (Demo.heard [0; 1; 1; 0; 1; 0] Demo.machine)
                                (Demo.world Demo.fresh_disk ["y" ++ nl]))))
         = [("/repo/a",
             ["install"; "git+https://git.example/gcleyser/kr-library.git#semver:1.0.0"]);
            ("/repo/b",
             ["install"; "git+https://git.example/gcleyser/kr-library.git#semver:1.2.0"])]).
Proof.
  split.
  - pose (w0 := Demo.world Demo.disk ["y" ++ nl]).
    pose (w := snd (Cli.discover Demo.machine w0)).
    pose (w2 := snd (Cli.getUserInputAsync Cli.yes_no (log_all [not_fully_installed] w))).
    destruct (C5_yes_installs_then_exits Demo.machine Demo.collection w w2)
      as (es & _ & _ & Hrun & _ & Hsp & _).
    + vm_compute. discriminate.
    + vm_compute. reflexivity.
    + assert (Hdisc : Cli.discover Demo.machine w0 = (Done Demo.collection, w))
        by (vm_compute; reflexivity).
      specialize (Hrun w0 Hdisc). fold w0. rewrite Hrun. split; [reflexivity |].
      cbn [snd log_all trace]. rewrite spawns_app, Hsp. vm_compute. reflexivity.
  - pose (h := Demo.heard [0; 1; 1; 0; 1; 0] Demo.machine).
    pose (w0 := Demo.world Demo.fresh_disk ["y" ++ nl]).
    pose (w := snd (Cli.discover h w0)).
    pose (w2 := snd (Cli.getUserInputAsync Cli.yes_no (log_all [not_fully_installed] w))).
    destruct (C5_yes_installs_then_exits h Demo.fresh_collection w w2)
      as (es & _ & _ & Hrun & _ & Hsp & _).
    + vm_compute. discriminate.
    + vm_compute. reflexivity.
    + assert (Hdisc : Cli.discover h w0 = (Done Demo.fresh_collection, w))
        by (vm_compute; reflexivity).
      specialize (Hrun w0 Hdisc). fold h w0. rewrite Hrun. split; [reflexivity |].
      cbn [snd log_all trace]. rewrite spawns_app, Hsp. vm_compute. reflexivity.
Defined.

(** On that machine the two installs overlap: the child of [b] is
    spawned before the child of [a] has printed, and is heard first. *)
Example overlapping_installs :
  trace (snd (LeyserkidsComponentCollection.installExpectAsync
                (Demo.heard [0; 1; 1; 0; 1; 0] Demo.machine)
                (components Demo.fresh_collection) (Demo.merged Demo.fresh_disk [])))
  = [Info "Please wait, installing kr-library(1.0.0) into /repo/a . . .";
     Spawned "/repo/a"
       ["install"; "git+https://git.example/gcleyser/kr-library.git#semver:1.0.0"];
     Info "Please wait, installing kr-library(1.2.0) into /repo/b . . .";
     Spawned "/repo/b"
       ["install"; "git+https://git.example/gcleyser/kr-library.git#semver:1.2.0"];
     Failure "npm ERR! code E404";
     Info "added 1 package";
     Failure "Failed install kr-library at /repo/b with code: 1";
     Success "Install kr-library into /repo/a successfully"].
Proof. vm_compute. reflexivity. Qed.

(** ** C6: the table *)

Lemma header_cells : TableBuilder.header = TableBuilder.cells "Module" "Installed" "Expected" "Latest".
Proof. reflexivity. Qed.

Lemma sort_cells (a b c d : string) :
  TableBuilder.sort (TableBuilder.cells a b c d) = TableBuilder.cells a b c d.
Proof. reflexivity. Qed.

(** The rows of [readSourceDate]: one per component, in their order,
    with the name, the installed, the expected and the latest version. *)
Lemma readSourceDate_rows (pkgs : Collection_t) (data : list TableBuilder.row) :
  TableBuilder.readSourceDate pkgs = Ok data ->
  Forall2 (fun c r =>
             exists cur latest,
               currentVersion c = Some (JStr cur)
               /\ latestVersion pkgs = Some (JStr latest)
               /\ r = TableBuilder.cells (componentName c) cur (expectedVersion c) latest)
    (components pkgs) data.
Proof.
  unfold TableBuilder.readSourceDate.
  revert data. induction (components pkgs) as [|c l IH]; intros data H.
  - injection H as <-. constructor.
  - cbn [TableBuilder.map_r] in H.
    destruct (TableBuilder.row_of pkgs c) as [r|e] eqn:Er; [| discriminate H].
    cbn [rbind] in H.
    destruct (TableBuilder.map_r (TableBuilder.row_of pkgs) l) as [rs|e] eqn:Ers;
      [| discriminate H].
    injection H as <-. constructor; [| now apply IH].
    unfold TableBuilder.row_of, TableBuilder.cell_of in Er.
    destruct (currentVersion c) as [[| | |cur| |]|]; try discriminate Er.
    destruct (latestVersion pkgs) as [[| | |latest| |]|]; try discriminate Er.
    injection Er as <-. exists cur, latest. repeat split.
Qed.

Lemma concat_empty_cons (a : string) (l : list string) :
  String.concat "" (a :: l) = a ++ String.concat "" l.
Proof. destruct l; cbn [String.concat]; [now rewrite append_nil_r | reflexivity]. Qed.

Lemma concat_sep (sep x : string) (l : list string) :
  String.concat sep (x :: l) = x ++ String.concat "" (map (fun y => sep ++ y) l).
Proof.
  revert x. induction l as [|y l IH]; intros x.
  - cbn. now rewrite append_nil_r.
  - cbn [map]. rewrite concat_empty_cons, append_assoc, <- (IH y). reflexivity.
Qed.

Lemma build_from_rest (line : string) (k : nat) (rows : list TableBuilder.row) (acc : string) :
  TableBuilder.build_from line (S (S k)) rows acc
  = acc ++ String.concat "" (map (fun r => nl ++ TableBuilder.row_text r) rows).
Proof.
  revert k acc. induction rows as [|r rows IH]; intros k acc;
    cbn [TableBuilder.build_from map].
  - cbn. now rewrite append_nil_r.
  - rewrite IH, concat_empty_cons, !append_assoc. reflexivity.
Qed.

(** The text [build] makes of rows already laid out: the header alone
    when there is no other row; the header, the line and the rows,
    joined by line feeds, otherwise. *)
Lemma build_from_lines (line : string) (h : TableBuilder.row) (rows : list TableBuilder.row) :
  TableBuilder.build_from line 0 (h :: rows) ""
  = match rows with
    | [] => TableBuilder.row_text h
    | _ => JS.join nl (TableBuilder.row_text h :: line :: map TableBuilder.row_text rows)
    end.
Proof.
  destruct rows as [|r rows]; [reflexivity |].
  cbn [TableBuilder.build_from]. rewrite build_from_rest.
  unfold JS.join. cbn [map].
  rewrite (concat_sep nl (TableBuilder.row_text h)). cbn [map].
  rewrite concat_empty_cons, concat_empty_cons, List.map_map.
  cbn [String.append]. rewrite !append_assoc. reflexivity.
Qed.

Lemma wider_spec (a x : nat) : (a <= wider a x /\ x <= wider a x)%nat.
Proof. unfold wider. destruct (Nat.ltb_spec a x); lia. Qed.

Lemma widen_cells (w0 w1 w2 w3 : nat) (a b c d : string) :
  TableBuilder.widen [w0; w1; w2; w3]
    (map TableBuilder.length (TableBuilder.sort (TableBuilder.cells a b c d)))
  = [wider w0 (String.length a); wider w1 (String.length b);
     wider w2 (String.length c); wider w3 (String.length d)].
Proof. reflexivity. Qed.

Lemma cells_inj (a b c d a' b' c' d' : string) :
  TableBuilder.cells a b c d = TableBuilder.cells a' b' c' d' ->
  a = a' /\ b = b' /\ c = c' /\ d = d'.
Proof.
  intros H. apply (f_equal (map TableBuilder.rawStr)) in H.
  cbn in H. now injection H.
Qed.

Lemma columns_fold (data : list TableBuilder.row) :
  Forall is_cells data ->
  forall w0 w1 w2 w3,
  exists v0 v1 v2 v3,
    fold_left (fun acc cur =>
                 TableBuilder.widen acc (map TableBuilder.length (TableBuilder.sort cur)))
      data [w0; w1; w2; w3]
    = [v0; v1; v2; v3]
    /\ (w0 <= v0 /\ w1 <= v1 /\ w2 <= v2 /\ w3 <= v3)%nat
    /\ Forall (fits v0 v1 v2 v3) data.
Proof.
  induction 1 as [|r data (a & b & c & d & ->) _ IH]; intros w0 w1 w2 w3.
  - exists w0, w1, w2, w3. repeat split; auto.
  - cbn [fold_left]. rewrite widen_cells.
    destruct (IH (wider w0 (String.length a)) (wider w1 (String.length b))
                (wider w2 (String.length c)) (wider w3 (String.length d)))
      as (v0 & v1 & v2 & v3 & Hfold & (H0 & H1 & H2 & H3) & Hall).
    pose proof (wider_spec w0 (String.length a)).
    pose proof (wider_spec w1 (String.length b)).
    pose proof (wider_spec w2 (String.length c)).
    pose proof (wider_spec w3 (String.length d)).
    exists v0, v1, v2, v3. split; [exact Hfold |]. split; [lia |].
    constructor; [| exact Hall].
    intros a' b' c' d' Heq. apply cells_inj in Heq as (? & ? & ? & ?). subst. lia.
Qed.

Lemma row_text_pad (w0 w1 w2 w3 : nat) (a b c d : string) :
  TableBuilder.row_text
    (TableBuilder.pad [w0; w1; w2; w3] (TableBuilder.sort (TableBuilder.cells a b c d)))
  = TableBuilder.padded w0 w1 w2 w3 a b c d.
Proof.
  unfold TableBuilder.padded. rewrite sort_cells.
  cbn [TableBuilder.pad TableBuilder.cells TableBuilder.rawStr TableBuilder.length
       TableBuilder.col].
  unfold TableBuilder.row_text.
  change (TableBuilder.sort ?r) with r.
  cbn [map TableBuilder.str fmap option_fmap option_map Json.to_string Json.str fold_left].
  now rewrite !append_assoc.
Qed.

Lemma length_padEnd (s : string) (n : nat) (c : ascii) :
  (String.length s <= n)%nat -> String.length (JS.padEnd s n c) = n.
Proof. intros H. unfold JS.padEnd. rewrite length_append, length_repeat. lia. Qed.

Lemma length_padded (w0 w1 w2 w3 : nat) (a b c d : string) :
  (String.length a <= w0 /\ String.length b <= w1
   /\ String.length c <= w2 /\ String.length d <= w3)%nat ->
  String.length (TableBuilder.padded w0 w1 w2 w3 a b c d) = (w0 + w1 + w2 + w3 + 16)%nat.
Proof.
  intros (Ha & Hb & Hc & Hd). unfold TableBuilder.padded, TableBuilder.margin.
  rewrite !length_append, !length_padEnd by assumption. cbn [String.length]. lia.
Qed.

Lemma columns_header (data : list TableBuilder.row) :
  TableBuilder.columns (TableBuilder.header :: data)
  = fold_left (fun acc cur =>
                 TableBuilder.widen acc (map TableBuilder.length (TableBuilder.sort cur)))
      data [6; 9; 8; 6]%nat.
Proof. reflexivity. Qed.

Lemma row_texts (latest : jsval) (cs : list Component_t) (data : list TableBuilder.row)
  (w0 w1 w2 w3 : nat) :
  Forall2 (fun c r =>
             exists cur l,
               currentVersion c = Some (JStr cur)
               /\ latest = Some (JStr l)
               /\ r = TableBuilder.cells (componentName c) cur (expectedVersion c) l)
    cs data ->
  map (fun r => TableBuilder.row_text
                  (TableBuilder.pad [w0; w1; w2; w3] (TableBuilder.sort r))) data
  = map (fun c => TableBuilder.padded w0 w1 w2 w3 (componentName c)
                    (Json.to_string (currentVersion c)) (expectedVersion c)
                    (Json.to_string latest)) cs.
Proof.
  induction 1 as [|c r cs rs Hr _ IH]; [reflexivity |].
  destruct Hr as (cur & l & Hc & Hl & ->).
  cbn [map]. rewrite IH, row_text_pad, Hc, Hl. reflexivity.
Qed.

(** The table of a collection.  Each column is at least as wide as its
    label; the line is as long as the four columns and the three
    margins between them; the text is the header alone when the
    collection has no component, and otherwise the header, the line and
    one row per component in their order, joined by line feeds; the
    header and every row are as long as the four columns and four
    margins. *)
Proposition table_layout (pkgs : Collection_t) (data : list TableBuilder.row) :
  TableBuilder.readSourceDate pkgs = Ok data ->
  exists w0 w1 w2 w3,
    let l := TableBuilder._computeLayout data in
    let head := TableBuilder.padded w0 w1 w2 w3 "Module" "Installed" "Expected" "Latest" in
    let rows :=
      map (fun c => TableBuilder.padded w0 w1 w2 w3 (componentName c)
                      (Json.to_string (currentVersion c)) (expectedVersion c)
                      (Json.to_string (latestVersion pkgs)))
        (components pkgs) in
    TableBuilder.cols l = [w0; w1; w2; w3]
    /\ (String.length "Module" <= w0 /\ String.length "Installed" <= w1
        /\ String.length "Expected" <= w2 /\ String.length "Latest" <= w3)%nat
    /\ String.length (TableBuilder.line l)
       = (w0 + w1 + w2 + w3 + 3 * String.length TableBuilder.margin)%nat
    /\ TableBuilder.build data
       = match rows with
         | [] => head
         | _ => JS.join nl (head :: TableBuilder.line l :: rows)
         end
    /\ Forall (fun t => String.length t = (w0 + w1 + w2 + w3 + 16)%nat) (head :: rows).
Proof.
  intros Hdata. pose proof (readSourceDate_rows pkgs data Hdata) as Hrows.
  assert (Hcells : Forall is_cells data).
  { eapply Forall2_Forall_r; [exact Hrows |]. apply List.Forall_forall.
    intros c _ r (cur & latest & _ & _ & ->). unfold is_cells. eauto. }
  destruct (columns_fold data Hcells 6 9 8 6)%nat
    as (w0 & w1 & w2 & w3 & Hfold & (H0 & H1 & H2 & H3) & Hfits).
  exists w0, w1, w2, w3. intros l head rows.
  assert (Hcols : TableBuilder.cols l = [w0; w1; w2; w3])
    by (unfold l, TableBuilder._computeLayout; cbn [TableBuilder.cols];
        now rewrite columns_header).
  assert (Htexts : map (fun r => TableBuilder.row_text
                                   (TableBuilder.pad [w0; w1; w2; w3] (TableBuilder.sort r))) data
                   = rows)
    by exact (row_texts (latestVersion pkgs) (components pkgs) data w0 w1 w2 w3 Hrows).
  repeat apply conj.
  - exact Hcols.
  - exact H0.
  - exact H1.
  - exact H2.
  - exact H3.
  - unfold l, TableBuilder._computeLayout. cbn [TableBuilder.line].
    rewrite length_repeat, columns_header, Hfold. cbn. lia.
  - assert (Hd : TableBuilder.data l
                 = map (fun r => TableBuilder.pad [w0; w1; w2; w3] (TableBuilder.sort r))
                     (TableBuilder.header :: data))
      by (unfold l, TableBuilder._computeLayout; cbn [TableBuilder.data];
          now rewrite columns_header, Hfold).
    unfold TableBuilder.build. fold l. rewrite Hd. cbn [map].
    rewrite build_from_lines, header_cells, row_text_pad.
    fold head. rewrite List.map_map, Htexts.
    destruct data as [|r data]; cbn [map] in Htexts |- *.
    + now rewrite <- Htexts.
    + destruct rows as [|t rows']; [discriminate Htexts | reflexivity].
  - constructor.
    + apply length_padded. cbn [String.length] in *. lia.
    + unfold rows. clear Htexts. apply Forall_map.
      apply List.Forall_forall. intros c Hc.
      apply list_elem_of_In, list_elem_of_lookup in Hc as [i Hi].
      destruct (Forall2_lookup_l _ _ _ _ _ Hrows Hi) as (r & Hr & cur & latest & Hcur & Hl & ->).
      rewrite Hcur, Hl. cbn [Json.to_string Json.str].
      apply length_padded. exact (Forall_lookup_1 _ _ _ _ Hfits Hr _ _ _ _ eq_refl).
Qed.

(** C6.  The claim fails at the collection without a component:
    [readSourceDate] gives no row, and [build] returns the header row
    alone, one line where the claim counts two.  The line of dashes was
    computed, 41 long, and is not in the text: [build] inserts it only
    in front of the row of index 1. *)
Theorem C6_no_separator_without_components (rootp : string) (latest : jsval) :
  TableBuilder.readSourceDate (mkCollection rootp [] latest) = Ok []
  /\ TableBuilder.build [] = "Module    Installed    Expected    Latest    "
  /\ JS.split "010" (TableBuilder.build [])
     = ["Module    Installed    Expected    Latest    "]
  /\ TableBuilder.line (TableBuilder._computeLayout []) = JS.repeat "-" 41
  /\ JS.includes "-" (TableBuilder.build []) = false.
Proof. repeat split. Qed.

(* ===================================================================== *)
(** * Further properties of the code                                      *)
(* ===================================================================== *)

(** A version whose numbers pass the test is one a version can hold. *)
Lemma safe_of_leb (v : N * N * N) :
  (fst (fst v) <=? Semver.MAX_SAFE_INTEGER)%N && (snd (fst v) <=? Semver.MAX_SAFE_INTEGER)%N
  && (snd v <=? Semver.MAX_SAFE_INTEGER)%N = true ->
  Version.safe v.
Proof.
  destruct v as [[a b] c]. cbn [fst snd]. intros H.
  apply andb_true_iff in H as [H Hc]. apply andb_true_iff in H as [Ha Hb].
  repeat split; now apply N.leb_le.
Qed.

(** ** Lines and occurrences *)

Lemma split_line (u rest : string) :
  one_line u = true ->
  JS.split "010" (u ++ String "010" rest) = u :: JS.split "010" rest.
Proof.
  unfold one_line. induction u as [|c u IH]; intros Hu; [reflexivity |].
  cbn [JS.all] in Hu. apply andb_true_iff in Hu as [Hc Hu]. apply negb_true_iff in Hc.
  cbn [String.append JS.split]. rewrite Hc, (IH Hu). reflexivity.
Qed.

Lemma split_one_line (u : string) : one_line u = true -> JS.split "010" u = [u].
Proof.
  unfold one_line. induction u as [|c u IH]; intros Hu; [reflexivity |].
  cbn [JS.all] in Hu. apply andb_true_iff in Hu as [Hc Hu]. apply negb_true_iff in Hc.
  cbn [JS.split]. rewrite Hc, (IH Hu). reflexivity.
Qed.

Lemma first_line_head (u rest : string) :
  one_line u = true -> JS.first_line (u ++ nl ++ rest) = u.
Proof. intros Hu. unfold JS.first_line, nl. cbn [String.append]. now rewrite (split_line u rest Hu). Qed.

Lemma first_line_whole (u : string) : one_line u = true -> JS.first_line u = u.
Proof. intros Hu. unfold JS.first_line. now rewrite (split_one_line u Hu). Qed.

Lemma strip_prefix_Some (p s r : string) : JS.strip_prefix p s = Some r <-> s = p ++ r.
Proof.
  revert s. induction p as [|a p IH]; intros s; cbn [JS.strip_prefix String.append].
  - split; [now intros [= ->] | now intros ->].
  - destruct s as [|b s]; [split; discriminate |].
    destruct (Ascii.eqb_spec a b) as [-> | Hne].
    + rewrite IH. split; [now intros -> | now intros [= ->]].
    + split; [discriminate | intros [= -> _]; now destruct Hne].
Qed.

Lemma includes_occurs (p s : string) : JS.includes p s = true <-> occurs p s.
Proof.
  split.
  - induction s as [|c s IH].
    + cbn [JS.includes]. destruct (JS.strip_prefix p "") as [r|] eqn:E; [| discriminate].
      intros _. apply strip_prefix_Some in E. exists "", r. exact E.
    + cbn [JS.includes]. destruct (JS.strip_prefix p (String c s)) as [r|] eqn:E.
      * intros _. apply strip_prefix_Some in E. exists "", r. exact E.
      * intros H. destruct (IH H) as (a & b & ->). now exists (String c a), b.
  - intros (a & b & ->). induction a as [|c a IH].
    + cbn [String.append]. pose proof (proj2 (strip_prefix_Some p (p ++ b) b) eq_refl) as E.
      destruct (p ++ b); cbn [JS.includes]; now rewrite E.
    + cbn [String.append JS.includes].
      destruct (JS.strip_prefix p (String c (a ++ p ++ b))); [reflexivity | exact IH].
Qed.

(** ** The commands of git and npm *)

Lemma one_line_standard (v : N * N * N) : one_line (Version.to_string v) = true.
Proof.
  unfold one_line. apply (all_impl (fun c => negb (JS.is_space c))); [| apply no_space_standard].
  intros c Hc. destruct (Ascii.eqb_spec c "010") as [-> | _]; [discriminate Hc | reflexivity].
Qed.

(** X1.  [getGitRootDirectorySync] resolves the first line of what
    <<git rev-parse --show-toplevel>> prints, whatever follows the line
    feed; when the command fails, the failure is logged and the error of
    the function is thrown. *)
Theorem X1_root_directory_is_first_line (h : Host) (w : World) :
  (forall u rest, one_line u = true ->
     exec h "git rev-parse --show-toplevel" = Ok (u ++ nl ++ rest) ->
     Utils.getGitRootDirectorySync h w = (Done (path_resolve h u), w))
  /\ (forall e, exec h "git rev-parse --show-toplevel" = Throw e ->
        Utils.getGitRootDirectorySync h w
        = (Thrown (Error "Could not get root directory from git"),
           log_all [Failure (exn_to_string e)] w)).
Proof.
  split.
  - intros u rest Hu Hx. unfold Utils.getGitRootDirectorySync, try_catch, bind, lift.
    rewrite Hx. unfold ret. now rewrite (first_line_head u rest Hu).
  - intros e Hx. unfold Utils.getGitRootDirectorySync, try_catch, bind, lift.
    rewrite Hx. reflexivity.
Qed.

(** The repository of [Demo], and a machine without git. *)
Lemma X1_root_directory_witness :
  Utils.getGitRootDirectorySync Demo.machine (Demo.world Demo.disk [])
  = (Done "/repo", Demo.world Demo.disk [])
  /\ Utils.getGitRootDirectorySync Demo.broken (Demo.world Demo.disk [])
     = (Thrown (Error "Could not get root directory from git"),
        log_all [Failure "Error: Command failed: git rev-parse --show-toplevel"]
          (Demo.world Demo.disk [])).
Proof.
  split.
  - exact (proj1 (X1_root_directory_is_first_line Demo.machine (Demo.world Demo.disk []))
             "/repo" "" eq_refl eq_refl).
  - exact (proj2 (X1_root_directory_is_first_line Demo.broken (Demo.world Demo.disk []))
             (Error "Command failed: git rev-parse --show-toplevel") eq_refl).
Defined.

Lemma checkLeyserkidsRepositoryAsync_spec (h : Host) (w : World) (u rest : string) :
  one_line u = true ->
  exec h "git remote get-url --push origin" = Ok (u ++ nl ++ rest) ->
  Utils.checkLeyserkidsRepositoryAsync h w = (Done (JS.includes "gcleyser/" u), w).
Proof.
  intros Hu Hx. unfold Utils.checkLeyserkidsRepositoryAsync, try_catch, bind, lift.
  rewrite Hx. unfold ret. now rewrite (first_line_head u rest Hu).
Qed.

(** X2.  With the push URL [u] on the first line of the output of git,
    the check of the repository answers whether the text <<gcleyser/>>
    occurs in [u] (what later lines hold does not count), and
    [checkEnvironmentAsync] goes on in silence or logs its message and
    exits with code 1. *)
Theorem X2_repository_check (h : Host) (w : World) (u rest : string) :
  one_line u = true ->
  exec h "git remote get-url --push origin" = Ok (u ++ nl ++ rest) ->
  (occurs "gcleyser/" u ->
     Utils.checkLeyserkidsRepositoryAsync h w = (Done true, w)
     /\ Cli.checkEnvironmentAsync h w = (Done tt, w))
  /\ (~ occurs "gcleyser/" u ->
     Utils.checkLeyserkidsRepositoryAsync h w = (Done false, w)
     /\ Cli.checkEnvironmentAsync h w
        = (Exited 1, log_all [Failure "Please run this command in leyserkids directory!"] w)).
Proof.
  intros Hu Hx. pose proof (checkLeyserkidsRepositoryAsync_spec h w u rest Hu Hx) as Hc.
  unfold Cli.checkEnvironmentAsync, bind. rewrite Hc. split.
  - intros Ho. apply includes_occurs in Ho. rewrite Ho. split; reflexivity.
  - intros Ho. destruct (JS.includes "gcleyser/" u) eqn:E.
    + destruct Ho. now apply includes_occurs.
    + split; reflexivity.
Qed.

(** The repository of [Demo]; and a URL of someone else, with the text on
    the second line only. *)
Lemma X2_repository_witness :
  Cli.checkEnvironmentAsync Demo.machine (Demo.world Demo.disk [])
  = (Done tt, Demo.world Demo.disk [])
  /\ Cli.checkEnvironmentAsync
       (Demo.host (fun _ => Ok ("git@git.example:someone/mono.git" ++ nl ++ "gcleyser/"))
          (fun _ _ => Demo.quiet 0))
       (Demo.world Demo.disk [])
     = (Exited 1, log_all [Failure "Please run this command in leyserkids directory!"]
                    (Demo.world Demo.disk [])).
Proof.
  split.
  - refine (proj2 (proj1 (X2_repository_check Demo.machine (Demo.world Demo.disk [])
                     "git@git.example:gcleyser/mono.git" "" eq_refl eq_refl) _)).
    now exists "git@git.example:", "mono.git".
  - refine (proj2 (proj2 (X2_repository_check
                     (Demo.host (fun _ => Ok ("git@git.example:someone/mono.git" ++ nl ++ "gcleyser/"))
                        (fun _ _ => Demo.quiet 0)) (Demo.world Demo.disk [])
                     "git@git.example:someone/mono.git" "gcleyser/" eq_refl eq_refl) _)).
    intros H. apply includes_occurs in H. vm_compute in H. discriminate H.
Defined.

(** X3.  When npm prints a standard version, [checkNPMVersion] exits
    with code 1 exactly when that version is below 5.7.1 by precedence;
    5.7.1 itself passes, and then the world is left as it was. *)
Theorem X3_npm_version_threshold (h : Host) (w : World) (v : N * N * N) (rest : string) :
  Version.safe v ->
  exec h "npm --version" = Ok (Version.to_string v ++ nl ++ rest) ->
  Utils.getNpmVersionAsync h w = (Done (Version.to_string v), w)
  /\ Cli.checkNPMVersion h w
     = match Version.precedence v (5, 7, 1)%N with
       | Lt => (Exited 1,
                log_all [Failure ("Oops! The npm version is too low. " ++ nl ++ nl
                                  ++ "Please update npm (gte 5.7.1)")] w)
       | _ => (Done tt, w)
       end.
Proof.
  intros Hv Hx.
  assert (Hn : Utils.getNpmVersionAsync h w = (Done (Version.to_string v), w)).
  { unfold Utils.getNpmVersionAsync, try_catch, bind, lift. rewrite Hx. unfold ret.
    now rewrite (first_line_head _ rest (one_line_standard v)). }
  split; [exact Hn |].
  unfold Cli.checkNPMVersion, bind. rewrite Hn.
  change Constant.MINIMUM_NPM_VERSION with (Version.to_string (5, 7, 1)%N).
  unfold Semver.lt. rewrite (compare_standard v (5, 7, 1)%N Hv).
  2:{ vm_compute. repeat split; discriminate. }
  cbn [rbind lift]. unfold ret.
  destruct (Version.precedence v (5, 7, 1)%N); reflexivity.
Qed.

(** npm 6.14.8, 5.7.1 and 5.10.0 pass; npm 5.7.0 does not. *)
Lemma X3_npm_version_witness :
  fst (Cli.checkNPMVersion Demo.machine (Demo.world Demo.disk [])) = Done tt
  /\ fst (Cli.checkNPMVersion (Demo.host (fun _ => Ok ("5.7.1" ++ nl)) (fun _ _ => Demo.quiet 0))
            (Demo.world Demo.disk [])) = Done tt
  /\ fst (Cli.checkNPMVersion (Demo.host (fun _ => Ok ("5.10.0" ++ nl)) (fun _ _ => Demo.quiet 0))
            (Demo.world Demo.disk [])) = Done tt
  /\ fst (Cli.checkNPMVersion (Demo.host (fun _ => Ok ("5.7.0" ++ nl)) (fun _ _ => Demo.quiet 0))
            (Demo.world Demo.disk [])) = Exited 1.
Proof.
  split; [| split; [| split]].
  - exact (f_equal fst (proj2 (X3_npm_version_threshold Demo.machine (Demo.world Demo.disk [])
                                 (6, 14, 8)%N "" (safe_of_leb (6, 14, 8)%N eq_refl) eq_refl))).
  - exact (f_equal fst (proj2 (X3_npm_version_threshold
                                 (Demo.host (fun _ => Ok ("5.7.1" ++ nl)) (fun _ _ => Demo.quiet 0))
                                 (Demo.world Demo.disk [])
                                 (5, 7, 1)%N "" (safe_of_leb (5, 7, 1)%N eq_refl) eq_refl))).
  - exact (f_equal fst (proj2 (X3_npm_version_threshold
                                 (Demo.host (fun _ => Ok ("5.10.0" ++ nl)) (fun _ _ => Demo.quiet 0))
                                 (Demo.world Demo.disk [])
                                 (5, 10, 0)%N "" (safe_of_leb (5, 10, 0)%N eq_refl) eq_refl))).
  - exact (f_equal fst (proj2 (X3_npm_version_threshold
                                 (Demo.host (fun _ => Ok ("5.7.0" ++ nl)) (fun _ _ => Demo.quiet 0))
                                 (Demo.world Demo.disk [])
                                 (5, 7, 0)%N "" (safe_of_leb (5, 7, 0)%N eq_refl) eq_refl))).
Defined.

(** X4.  [getGitUserAsync] never throws and logs nothing: it returns
    the first line git prints, or the empty string when the command
    fails. *)
Theorem X4_git_user_never_fails (h : Host) (w : World) :
  exists email,
    Utils.getGitUserAsync h w = (Done email, w)
    /\ (forall e, exec h "git config user.email" = Throw e -> email = "")
    /\ (forall u rest, one_line u = true ->
          exec h "git config user.email" = Ok (u ++ nl ++ rest) -> email = u).
Proof.
  unfold Utils.getGitUserAsync, try_catch, bind, lift.
  destruct (exec h "git config user.email") as [out | e].
  - exists (JS.first_line out). split; [reflexivity | split].
    + intros e He. discriminate He.
    + intros u rest Hu [= ->]. apply (first_line_head u rest Hu).
  - exists "". split; [reflexivity | split]; [reflexivity |].
    intros u rest _ He. discriminate He.
Qed.

(** X5.  [getCliVersion] returns whenever the manifest of the tool
    loads: the [version] of an object, [undefined] when the file holds a
    falsy value; when the file does not load, the failure is logged and
    the error of the function is thrown. *)
Theorem X5_cli_version (h : Host) (dirname : string) (w : World) :
  (forall config w1, require (path_join h dirname "../package.json") w = (Done config, w1) ->
     exists v, Utils.getCliVersion h dirname w = (Done v, w1)
       /\ (forall fields, config = JObj fields -> v = Json.assoc "version" fields)
       /\ (Json.truthy (Some config) = false -> v = None))
  /\ (forall e w1, require (path_join h dirname "../package.json") w = (Thrown e, w1) ->
        Utils.getCliVersion h dirname w
        = (Thrown (Error "Failed to detect current version of the globally installed kr-library"),
           log_all [Failure (exn_to_string e)] w1)).
Proof.
  split.
  - intros config w1 Hr. unfold Utils.getCliVersion, try_catch, bind. rewrite Hr.
    destruct config as [|b|n|s|items props|fields]; cbn [Json.truthy].
    + exists None. repeat split; discriminate.
    + destruct b; exists None; repeat split; discriminate.
    + destruct (negb (n =? 0)%Z); exists None; repeat split; discriminate.
    + destruct (negb (String.eqb s "")); exists None; repeat split; discriminate.
    + exists (Json.assoc "version" props). repeat split; discriminate.
    + exists (Json.assoc "version" fields). split; [reflexivity | split]; [| discriminate].
      now intros ? [= <-].
  - intros e w1 Hr. unfold Utils.getCliVersion, try_catch, bind. rewrite Hr. reflexivity.
Qed.

(** The tool installed at 2.0.1; and a machine without its manifest. *)
Lemma X5_cli_version_witness :
  fst (Utils.getCliVersion Demo.machine "/opt/krlib/bin" (Demo.world Demo.cli_disk []))
  = Done (Some (JStr "2.0.1"))
  /\ fst (Utils.getCliVersion Demo.machine "/opt/krlib/bin" (Demo.world ∅ []))
     = Thrown (Error "Failed to detect current version of the globally installed kr-library").
Proof.
  split.
  - destruct (proj1 (X5_cli_version Demo.machine "/opt/krlib/bin" (Demo.world Demo.cli_disk []))
                (JObj [("name", JStr "krlib"); ("version", JStr "2.0.1")])
                (mkWorld Demo.cli_disk
                   (<["/opt/krlib/bin/../package.json" :=
                        JObj [("name", JStr "krlib"); ("version", JStr "2.0.1")]]> ∅)
                   None [] [] []) eq_refl) as (v & Hv & Hf & _).
    rewrite Hv, (Hf _ eq_refl). reflexivity.
  - assert (H : require (path_join Demo.machine "/opt/krlib/bin" "../package.json")
                   (Demo.world ∅ [])
                 = (Thrown (Error "Cannot find module '/opt/krlib/bin/../package.json'"),
                    Demo.world ∅ [])) by (vm_compute; reflexivity).
    rewrite (proj2 (X5_cli_version Demo.machine "/opt/krlib/bin" (Demo.world ∅ [])) _ _ H).
    reflexivity.
Defined.

(** X6.  [getLatestVersionAsync] ends in a string or [null], with the
    world unchanged, or in its own error after one logged failure;
    nothing else leaves it. *)
Theorem X6_latest_version_errors (h : Host) (w : World) :
  (exists v, Utils.getLatestVersionAsync h w = (Done (Some v), w)
             /\ (v = JNull \/ exists s, v = JStr s))
  \/ (exists e, Utils.getLatestVersionAsync h w
        = (Thrown (Error "Could not obtain latest version number from remote git"),
           log_all [Failure (exn_to_string e)] w)).
Proof.
  unfold Utils.getLatestVersionAsync, try_catch, bind, get_world, lift.
  destruct (exec h (Utils.ls_remote_command w)) as [out | e]; [| right; now exists e].
  unfold ret. destruct (Regex.match_all "refs/tags/v" out) as [ms |].
  - left. eexists. split; [reflexivity |].
    destruct (Semver.maxSatisfying _) as [s |]; [right; now exists s | now left].
  - right. eexists. reflexivity.
Qed.

(** ** The installer *)

Lemma on_data_cases (c : chunk) (e : event) :
  In e (PackageInstaller.on_data c) <->
  (exists d, c = Stdout d /\ e = Info d)
  \/ (exists d, c = Stderr d /\ e = Failure d /\ ~ occurs "npm update check failed" d).
Proof.
  destruct c as [d | d]; cbn [PackageInstaller.on_data].
  - split.
    + intros [<- | []]. left. now exists d.
    + intros [(d' & [= <-] & ->) | (d' & [=] & _)]. now left.
  - destruct (JS.includes "npm update check failed" d) eqn:E; cbn [negb].
    + split; [intros [] |]. intros [(d' & [=] & _) | (d' & [= <-] & _ & Hn)].
      destruct Hn. now apply includes_occurs.
    + split.
      * intros [<- | []]. right. exists d. repeat split. intros Ho.
        apply includes_occurs in Ho. congruence.
      * intros [(d' & [=] & _) | (d' & [= <-] & -> & _)]. now left.
Qed.

Lemma installPackage_spec (h : Host) (path : string) (args : list string) (w : World) :
  PackageInstaller._installPackage h path args w
  = (Done (exit_code (npm h path args)),
     log_all (Spawned path args :: concat (map PackageInstaller.on_data (output (npm h path args)))) w).
Proof.
  unfold PackageInstaller._installPackage, bind, emit.
  rewrite emit_all_spec. unfold ret, log_all. cbn.
  now rewrite <- List.app_assoc.
Qed.

(** X9.  What [_installPackage] logs after the spawn: every chunk of
    stdout as an information, every chunk of stderr as an error but
    those that hold <<npm update check failed>>, and nothing else.  The
    promise resolves with the code of [close]. *)
Theorem X9_install_output (h : Host) (path : string) (args : list string) (w : World) :
  exists es,
    PackageInstaller._installPackage h path args w
    = (Done (exit_code (npm h path args)), log_all (Spawned path args :: es) w)
    /\ (forall d, In (Info d) es <-> In (Stdout d) (output (npm h path args)))
    /\ (forall d, In (Failure d) es <->
                  In (Stderr d) (output (npm h path args))
                  /\ ~ occurs "npm update check failed" d)
    /\ (forall e, In e es -> exists d, e = Info d \/ e = Failure d).
Proof.
  exists (concat (map PackageInstaller.on_data (output (npm h path args)))).
  split; [apply installPackage_spec |].
  assert (H : forall e, In e (concat (map PackageInstaller.on_data (output (npm h path args))))
                        <-> exists c, In c (output (npm h path args))
                                      /\ In e (PackageInstaller.on_data c)).
  { intros e. rewrite in_concat. split.
    - intros (l & Hl & He). apply in_map_iff in Hl as (c & <- & Hc). now exists c.
    - intros (c & Hc & He). exists (PackageInstaller.on_data c). split; [| exact He].
      apply in_map_iff. now exists c. }
  split; [| split].
  - intros d. rewrite H. split.
    + intros (c & Hc & He). apply on_data_cases in He as [(d' & -> & [= ->]) | (d' & _ & [=] & _)].
      exact Hc.
    + intros Hd. exists (Stdout d). split; [exact Hd |]. apply on_data_cases. left. now exists d.
  - intros d. rewrite H. split.
    + intros (c & Hc & He). apply on_data_cases in He as [(d' & _ & [=]) | (d' & -> & [= ->] & Hn)].
      now split.
    + intros [Hd Hn]. exists (Stderr d). split; [exact Hd |]. apply on_data_cases. right.
      now exists d.
  - intros e He. apply H in He as (c & _ & He).
    apply on_data_cases in He as [(d & _ & ->) | (d & _ & -> & _)]; exists d; auto.
Qed.

Lemma installComponently_spec (h : Host) (path : string) (w : World) :
  PackageInstaller.installComponently h path w
  = (Done tt,
     log_all ([Info ("Please wait, Running 'npm install' at " ++ path ++ " . . .");
               Spawned path ["install"]]
              ++ concat (map PackageInstaller.on_data (output (npm h path ["install"])))
              ++ [PackageInstaller.report_install path (exit_code (npm h path ["install"]))]) w).
Proof.
  unfold PackageInstaller.installComponently, bind, Utils.loggerInfo, emit.
  rewrite installPackage_spec. unfold log_all. cbn.
  now rewrite <- !List.app_assoc.
Qed.

Lemma report_install_cases (path : string) (code : option Z) :
  (code = Some 0%Z ->
     PackageInstaller.report_install path code
     = Success ("Run 'npm install' at [" ++ path ++ "] successfully"))
  /\ (code <> Some 0%Z ->
      PackageInstaller.report_install path code
      = Failure ("Failed to run 'npm install' at [" ++ path ++ "] with code: "
                 ++ PackageInstaller.code_to_string code)).
Proof.
  split; [now intros -> |].
  destruct code as [[|p|p]|]; intros H; [now destruct H | reflexivity ..].
Qed.

(** X7.  [installComponently] around a child that prints [out] and
    closes with [code]: it logs that it waits, spawns <<npm install>> in
    its directory, logs the output as [_installPackage] does, and last
    the result: the success message exactly when [code] is 0 (the null
    code of a child that a signal ended is a failure). *)
Theorem X7_plain_install (h : Host) (path : string) (w : World) (out : list chunk)
  (code : option Z) :
  npm h path ["install"] = mkProc out code ->
  exists r,
    PackageInstaller.installComponently h path w
    = (Done tt,
       log_all ([Info ("Please wait, Running 'npm install' at " ++ path ++ " . . .");
                 Spawned path ["install"]]
                ++ concat (map PackageInstaller.on_data out) ++ [r]) w)
    /\ (code = Some 0%Z ->
        r = Success ("Run 'npm install' at [" ++ path ++ "] successfully"))
    /\ (code <> Some 0%Z ->
        r = Failure ("Failed to run 'npm install' at [" ++ path ++ "] with code: "
                     ++ PackageInstaller.code_to_string code)).
Proof.
  intros Hn. exists (PackageInstaller.report_install path code).
  rewrite installComponently_spec, Hn. cbn [output exit_code].
  split; [reflexivity | apply report_install_cases].
Qed.

(** In [Demo], the install in [a] succeeds and the one in [b] closes
    with code 1. *)
Lemma X7_plain_install_witness :
  PackageInstaller.installComponently Demo.machine "/repo/a" (Demo.merged Demo.disk [])
  = (Done tt,
     log_all [Info "Please wait, Running 'npm install' at /repo/a . . .";
              Spawned "/repo/a" ["install"];
              Info "added 1 package";
              Success "Run 'npm install' at [/repo/a] successfully"]
       (Demo.merged Demo.disk []))
  /\ PackageInstaller.installComponently Demo.machine "/repo/b" (Demo.merged Demo.disk [])
     = (Done tt,
        log_all [Info "Please wait, Running 'npm install' at /repo/b . . .";
                 Spawned "/repo/b" ["install"];
                 Failure "npm ERR! code E404";
                 Failure "Failed to run 'npm install' at [/repo/b] with code: 1"]
          (Demo.merged Demo.disk [])).
Proof.
  split.
  - destruct (X7_plain_install Demo.machine "/repo/a" (Demo.merged Demo.disk [])
                [Stdout "added 1 package"] (Some 0%Z) eq_refl) as (r & H & Hr & _).
    now rewrite H, (Hr eq_refl).
  - destruct (X7_plain_install Demo.machine "/repo/b" (Demo.merged Demo.disk [])
                [Stderr "npm ERR! code E404"] (Some 1%Z) eq_refl) as (r & H & _ & Hr).
    rewrite H, Hr by discriminate. reflexivity.
Defined.

Lemma job_of_installComponently (h : Host) (w : World) (path : string) :
  Timers.job_of (PackageInstaller.installComponently h path) w
  = (plain_events h path, Done tt).
Proof.
  unfold Timers.job_of. rewrite installComponently_spec. reflexivity.
Qed.

Lemma plain_spawns_once (h : Host) (path : string) :
  spawns_once (plain_events h path, Done tt)
  /\ spawns (plain_events h path) = [(path, ["install"])].
Proof.
  unfold spawns_once, plain_events. cbn [fst snd app Timers.sync spawns].
  rewrite spawns_app, spawns_output. unfold PackageInstaller.report_install.
  destruct (exit_code _) as [[|p|p]|]; split; reflexivity.
Qed.

(** X8.  [installPackagesAsync], for children that start and close:
    whatever the order in which the children that run together are
    heard, what the batch has logged when it resolves is made of the
    events of the plain installs of the components, each once, and those
    of an install in their order; and the children were spawned in the
    order of the array, each one <<npm install>> in the directory of its
    component. *)
Theorem X8_plain_installs_in_order (h : Host) (cs : list Component_t) (w : World) :
  exists es,
    LeyserkidsComponentCollection.installPackagesAsync h cs w = (Done tt, log_all es w)
    /\ Permutation es (concat (map (fun c => plain_events h (componentPath c)) cs))
    /\ spawns es = map (fun c => (componentPath c, ["install"])) cs
    /\ Forall (fun c => sublist (plain_events h (componentPath c)) es) cs.
Proof.
  unfold LeyserkidsComponentCollection.installPackagesAsync.
  destruct (await_all_resolved h
              (map (fun c => Timers.job_of
                               (PackageInstaller.installComponently h (componentPath c)) w)
                 cs) w)
    as (es & Hes & Hperm & Hsp & Hsub).
  - apply Forall_forall. intros j Hj. apply list_elem_of_fmap in Hj as (c & -> & _).
    now rewrite job_of_installComponently.
  - apply Forall_forall. intros j Hj. apply list_elem_of_fmap in Hj as (c & -> & _).
    rewrite job_of_installComponently. apply plain_spawns_once.
  - exists es. split; [exact Hes |]. rewrite List.map_map in Hperm, Hsp.
    split; [| split].
    + rewrite Hperm. erewrite map_ext; [reflexivity |].
      intros c. now rewrite job_of_installComponently.
    + rewrite Hsp. clear. induction cs as [|c cs IH]; [reflexivity |].
      cbn [map concat]. rewrite job_of_installComponently. cbn [fst].
      now rewrite (proj2 (plain_spawns_once h (componentPath c))), IH.
    + rewrite List.Forall_forall in Hsub |- *. intros c Hc.
      specialize (Hsub _ (in_map _ _ _ Hc)). cbv beta in Hsub.
      now rewrite job_of_installComponently in Hsub.
Qed.

(** A promise that rejects: when the install of the second of three
    components throws, [Promise.all] rejects as soon as that install has
    ended, and the timer of the third has not fired. *)
Example rejected_batch :
  Timers.all [0; 0; 1; 1]
    [([Info "wait a"; Spawned "/repo/a" ["install"]; Success "a"], Done tt);
     ([Info "wait b"], Thrown (Error "spawn"));
     ([Info "wait c"; Spawned "/repo/c" ["install"]; Success "c"], Done tt)]
  = ([Info "wait a"; Spawned "/repo/a" ["install"]; Success "a"; Info "wait b"],
     Thrown (Error "spawn")).
Proof. reflexivity. Qed.

(** X10.  Once [Constant] holds the configuration, [installLatestAsync]
    spawns for each component of the array, in order and in its
    directory, <<npm install git+URL#semver:LATEST>>, the same version
    for all; [installExpectAsync] does so with the expected version of
    each component. *)
Theorem X10_versioned_installs (h : Host) (pkgs : Collection_t) (cs : list Component_t)
  (w : World) (cfg : Config) :
  constant w = Some cfg ->
  (exists es,
     LeyserkidsComponentCollection.installLatestAsync h pkgs cs w = (Done tt, log_all es w)
     /\ spawns es
        = map (fun c => (componentPath c,
                         ["install"; ("git+" ++ url cfg ++ "#semver:")
                                     ++ Json.to_string (latestVersion pkgs)])) cs)
  /\ (exists es,
        LeyserkidsComponentCollection.installExpectAsync h cs w = (Done tt, log_all es w)
        /\ spawns es
           = map (fun c => (componentPath c,
                            ["install"; ("git+" ++ url cfg ++ "#semver:")
                                        ++ expectedVersion c])) cs).
Proof.
  intros Hc.
  assert (Hargs : forall v, PackageInstaller.install_args w v
                            = ["install"; ("git+" ++ url cfg ++ "#semver:") ++ Json.to_string v]).
  { intros v. unfold PackageInstaller.install_args, Constant.KR_LIB_NPM_URL. now rewrite Hc. }
  split.
  - destruct (installPackagesWithVersionAsync_spec h cs (fun _ => latestVersion pkgs) w)
      as (es & He & _ & Hsp & _).
    exists es. split; [exact He |]. rewrite Hsp. apply map_ext. intros c. now rewrite Hargs.
  - destruct (installPackagesWithVersionAsync_spec h cs
                (fun c => Some (JStr (expectedVersion c))) w) as (es & He & _ & Hsp & _).
    exists es. split; [exact He |]. rewrite Hsp. apply map_ext. intros c. now rewrite Hargs.
Qed.

(** The two components of [Demo], at the latest version 1.2.0. *)
Lemma X10_versioned_installs_witness :
  exists es,
    LeyserkidsComponentCollection.installLatestAsync Demo.machine Demo.collection
      [Demo.component_a; Demo.component_b] (Demo.merged Demo.disk [])
    = (Done tt, log_all es (Demo.merged Demo.disk []))
    /\ spawns es
       = [("/repo/a", ["install"; "git+https://git.example/gcleyser/kr-library.git#semver:1.2.0"]);
          ("/repo/b", ["install"; "git+https://git.example/gcleyser/kr-library.git#semver:1.2.0"])].
Proof.
  destruct (proj1 (X10_versioned_installs Demo.machine Demo.collection
                     [Demo.component_a; Demo.component_b] (Demo.merged Demo.disk [])
                     Demo.config eq_refl)) as (es & H & Hs).
  exists es. split; [exact H | exact Hs].
Defined.

(** ** The versions a component reads *)

(** X11.  [_getCurrentVersion]: without the installed manifest the
    version is the empty string and the file is not required; a manifest
    that is an object gives its [version] property ([undefined] when it
    has none) and enters the cache; a file that does not parse makes the
    function log and throw its error. *)
Theorem X11_installed_version (path : string) (w : World) :
  (files w !! path = None ->
     Component._getCurrentVersion path w = (Done (Some (JStr "")), w))
  /\ (forall fields,
        files w !! path = Some (Doc (JObj fields)) -> modules w !! path = None ->
        Component._getCurrentVersion path w
        = (Done (Json.assoc "version" fields),
           mkWorld (files w) (<[path := JObj fields]> (modules w)) (constant w) (stdin w)
             (listeners w) (trace w)))
  /\ (files w !! path = Some Garbage -> modules w !! path = None ->
        exists msg,
          Component._getCurrentVersion path w
          = (Thrown (Error ("Could load " ++ path ++ ", please make the file vailed")),
             log_all [Failure msg] w)).
Proof.
  unfold Component._getCurrentVersion, Component._checkExist, bind, existsSync.
  split; [| split].
  - intros ->. reflexivity.
  - intros fields Hf Hm. rewrite Hf. cbn [negb bool_decide decide_rel]. 
    rewrite bool_decide_eq_true_2 by (now eexists). cbn [negb].
    unfold try_catch, bind, require. rewrite Hm, Hf. reflexivity.
  - intros Hf Hm. rewrite Hf. rewrite bool_decide_eq_true_2 by (now eexists). cbn [negb].
    unfold try_catch, bind, require. rewrite Hm, Hf. eexists. reflexivity.
Qed.

(** In [Demo], [a] has no installed manifest and [b] holds 1.0.0. *)
Lemma X11_installed_version_witness :
  Component._getCurrentVersion "/repo/a/node_modules/kr-library/package.json"
    (Demo.merged Demo.disk [])
  = (Done (Some (JStr "")), Demo.merged Demo.disk [])
  /\ fst (Component._getCurrentVersion "/repo/b/node_modules/kr-library/package.json"
            (Demo.merged Demo.disk []))
     = Done (Some (JStr "1.0.0")).
Proof.
  split.
  - exact (proj1 (X11_installed_version "/repo/a/node_modules/kr-library/package.json"
                    (Demo.merged Demo.disk [])) eq_refl).
  - rewrite (proj1 (proj2 (X11_installed_version "/repo/b/node_modules/kr-library/package.json"
                             (Demo.merged Demo.disk [])))
               [("name", JStr "kr-library"); ("version", JStr "1.0.0")] eq_refl eq_refl).
    reflexivity.
Defined.

Lemma span_spec (p : ascii -> bool) (s d r : string) :
  JS.span p s = (d, r) -> JS.all p d = true /\ s = d ++ r.
Proof.
  revert d r. induction s as [|c s IH]; intros d r; cbn [JS.span].
  - now intros [= <- <-].
  - destruct (p c) eqn:E; [| now intros [= <- <-]].
    destruct (JS.span p s) as [a b]. intros [= <- <-].
    destruct (IH a b eq_refl) as [Ha ->]. cbn [JS.all String.append]. now rewrite E, Ha.
Qed.

Lemma match_at_shape (lit s m r : string) :
  Regex.match_at lit s = Some (m, r) ->
  exists x y z, Version.digits x /\ Version.digits y /\ Version.digits z
                /\ m = lit ++ Version.dotted x y z.
Proof.
  rewrite match_at_dots.
  destruct (JS.strip_prefix lit s) as [r0|]; [| discriminate].
  destruct (JS.span JS.is_digit r0) as [d1 r1] eqn:E1.
  destruct (JS.strip_prefix "." r1) as [r1'|]; [| discriminate].
  destruct (JS.span JS.is_digit r1') as [d2 r2] eqn:E2.
  destruct (JS.strip_prefix "." r2) as [r2'|]; [| discriminate].
  destruct (JS.span JS.is_digit r2') as [d3 r3] eqn:E3.
  intros [= <- <-]. exists d1, d2, d3.
  apply span_spec in E1 as [H1 _]. apply span_spec in E2 as [H2 _].
  apply span_spec in E3 as [H3 _]. now repeat split.
Qed.

Lemma scan_shape (lit : string) (s : string) :
  forall k m, In m (Regex.scan lit k s) ->
  exists x y z, Version.digits x /\ Version.digits y /\ Version.digits z
                /\ m = lit ++ Version.dotted x y z.
Proof.
  induction s as [|c s IH]; intros k m; cbn [Regex.scan]; [intros [] |].
  destruct k as [|k]; [| apply IH].
  destruct (Regex.match_at lit (String c s)) as [[m' r]|] eqn:E; [| apply IH].
  intros [<- | H]; [exact (match_at_shape _ _ _ _ E) | exact (IH _ _ H)].
Qed.

Lemma pinned_version_shape (npmUrl : jsval) (v : string) :
  Component.pinned_version npmUrl = Ok v ->
  exists x y z, Version.digits x /\ Version.digits y /\ Version.digits z
                /\ v = Version.dotted x y z.
Proof.
  unfold Component.pinned_version. destruct npmUrl as [[| | |s| |]|]; try discriminate.
  unfold Regex.match_all.
  destruct (Regex.scan "#semver:" 0 s) as [|m ms] eqn:E; [discriminate |].
  intros [= <-].
  assert (Hin : In m (Regex.scan "#semver:" 0 s)) by (rewrite E; now left).
  destruct (scan_shape "#semver:" s 0 m Hin) as (x & y & z & Hx & Hy & Hz & ->).
  exists x, y, z. repeat split; assumption.
Qed.

Lemma getExpectedVersion_outcome (path : string) (w : World) :
  match fst (Component._getExpectedVersion path w) with
  | Done v =>
      v = "" \/ exists x y z, Version.digits x /\ Version.digits y /\ Version.digits z
                              /\ v = Version.dotted x y z
  | Thrown e => e = Error ("Could load " ++ path ++ ", please make the file vailed")
  | _ => False
  end.
Proof.
  unfold Component._getExpectedVersion, try_catch, bind.
  destruct (require path w) as [[pkg | e | code |] w1] eqn:Hr.
  - destruct (Json.get pkg "dependencies") as [deps | e]; cbn [lift]; unfold ret, throw;
      [| reflexivity].
    destruct (Json.get_val deps "kr-library") as [npmUrl | e]; cbn [lift]; unfold ret, throw;
      [| reflexivity].
    destruct (Json.truthy npmUrl); [| now left].
    destruct (Component.pinned_version npmUrl) as [v | e] eqn:Hp; cbn [lift]; unfold ret, throw;
      [| reflexivity].
    right. exact (pinned_version_shape _ _ Hp).
  - reflexivity.
  - unfold require in Hr. destruct (modules w !! path); [discriminate |].
    destruct (files w !! path) as [[]|]; discriminate.
  - unfold require in Hr. destruct (modules w !! path); [discriminate |].
    destruct (files w !! path) as [[]|]; discriminate.
Qed.

(** X12.  The expected version that [_getExpectedVersion] returns is
    the empty string or three runs of digits (any of them may be empty)
    with dots between; and the only exception that leaves the function
    is its own error. *)
Theorem X12_expected_version_shape (path : string) (w : World) :
  match fst (Component._getExpectedVersion path w) with
  | Done v =>
      v = "" \/ exists x y z, Version.digits x /\ Version.digits y /\ Version.digits z
                              /\ v = Version.dotted x y z
  | Thrown e => e = Error ("Could load " ++ path ++ ", please make the file vailed")
  | _ => False
  end.
Proof. exact (getExpectedVersion_outcome path w). Qed.

Lemma scan_none (a : ascii) (lit s : string) :
  JS.all (fun c => negb (Ascii.eqb a c)) s = true -> Regex.scan (String a lit) 0 s = [].
Proof.
  intros H. rewrite <- (append_nil_r s). now rewrite (scan_pass a lit s "" H).
Qed.

(** X13.  A dependency on kr-library that is a non-empty string
    without a [#] holds no pin: [match] gives [null], the [TypeError] of
    [null[0]] is logged and [_getExpectedVersion] throws its error. *)
Theorem X13_pin_without_semver (path : string) (w w1 : World) (pkg : json) (deps : jsval)
  (s : string) :
  require path w = (Done pkg, w1) ->
  Json.get pkg "dependencies" = Ok deps ->
  Json.get_val deps "kr-library" = Ok (Some (JStr s)) ->
  s <> "" ->
  JS.all (fun ch => negb (Ascii.eqb "#" ch)) s = true ->
  Component._getExpectedVersion path w
  = (Thrown (Error ("Could load " ++ path ++ ", please make the file vailed")),
     log_all [Failure "TypeError: Cannot read properties of null (reading '0')"] w1).
Proof.
  intros Hr Hd Hk Hs Hh.
  unfold Component._getExpectedVersion, try_catch, bind. rewrite Hr, Hd. cbn [lift]. unfold ret.
  rewrite Hk. cbn [lift]. unfold ret.
  assert (Ht : Json.truthy (Some (JStr s)) = true).
  { cbn [Json.truthy]. destruct (String.eqb_spec s "") as [-> | _]; [now destruct Hs | reflexivity]. }
  rewrite Ht. unfold Component.pinned_version, Regex.match_all.
  rewrite (scan_none "#" "semver:" s Hh). reflexivity.
Qed.

(** A manifest that asks for the range ^1.0.0. *)
Lemma X13_pin_without_semver_witness :
  fst (Component._getExpectedVersion "/repo/a/package.json" (Demo.merged Demo.ranged_disk []))
  = Thrown (Error "Could load /repo/a/package.json, please make the file vailed").
Proof.
  assert (Hs : "^1.0.0" <> "") by discriminate.
  rewrite (X13_pin_without_semver "/repo/a/package.json" (Demo.merged Demo.ranged_disk [])
             (mkWorld Demo.ranged_disk
                (<["/repo/a/package.json" :=
                     JObj [("name", JStr "a");
                           ("dependencies", JObj [("kr-library", JStr "^1.0.0")])]]> ∅)
                (Some Demo.config) [] [] [])
             (JObj [("name", JStr "a"); ("dependencies", JObj [("kr-library", JStr "^1.0.0")])])
             (Some (JObj [("kr-library", JStr "^1.0.0")])) "^1.0.0"
             eq_refl eq_refl eq_refl Hs eq_refl).
  reflexivity.
Defined.

(** ** The filters of the collection and the results of a comparison *)

Lemma parse_string_throws (s : string) (e : exn) :
  Semver.parse_string s = Throw e -> exists m, e = TypeError m.
Proof.
  unfold Semver.parse_string.
  destruct (_ <? _)%nat; [intros [= <-]; eauto |].
  destruct (Semver.match_full _) as [[[[ma mi] pa] pre]|]; [| intros [= <-]; eauto].
  repeat (destruct (_ <? _)%N; [intros [= <-]; eauto |]). discriminate.
Qed.

Lemma parse_throws (v : jsval) (e : exn) :
  Semver.parse v = Throw e -> exists m, e = TypeError m.
Proof.
  unfold Semver.parse. destruct v as [[| | |s| |]|]; try (intros [= <-]; eauto).
  apply parse_string_throws.
Qed.

Lemma lt_throws (a b : jsval) (e : exn) :
  Semver.lt a b = Throw e -> exists m, e = TypeError m.
Proof.
  unfold Semver.lt, Semver.compare.
  destruct (Semver.parse a) as [va | ea] eqn:Ea; cbn [rbind].
  - destruct (Semver.parse b) as [vb | eb] eqn:Eb; cbn [rbind]; [discriminate |].
    intros [= <-]. exact (parse_throws _ _ Eb).
  - intros [= <-]. exact (parse_throws _ _ Ea).
Qed.

Lemma lt_empty_l (b : jsval) :
  Semver.lt (Some (JStr "")) b = Throw (TypeError "Invalid Version: ").
Proof. reflexivity. Qed.

Lemma lt_empty_r (a : jsval) : exists m, Semver.lt a (Some (JStr "")) = Throw (TypeError m).
Proof.
  unfold Semver.lt, Semver.compare.
  destruct (Semver.parse a) as [va | ea] eqn:Ea; cbn [rbind].
  - eexists. reflexivity.
  - destruct (parse_throws _ _ Ea) as (m & ->). now exists m.
Qed.

Lemma filter_r_Ok {A} (p : A -> result bool) (xs l : list A) :
  LeyserkidsComponentCollection.filter_r p xs = Ok l ->
  Forall (fun x => exists b, p x = Ok b) xs /\ l = List.filter (fun x => holds (p x)) xs.
Proof.
  revert l. induction xs as [|x xs IH]; intros l; cbn [LeyserkidsComponentCollection.filter_r].
  - intros [= <-]. split; [constructor | reflexivity].
  - destruct (p x) as [b | e] eqn:E; cbn [rbind]; [| discriminate].
    destruct (LeyserkidsComponentCollection.filter_r p xs) as [ys | e]; cbn [rbind];
      [| discriminate].
    intros [= <-]. destruct (IH ys eq_refl) as [HF ->]. split.
    + constructor; [now exists b | exact HF].
    + cbn [List.filter]. rewrite E. now destruct b.
Qed.

Lemma filter_r_defined {A} (p : A -> result bool) (xs : list A) :
  Forall (fun x => exists b, p x = Ok b) xs ->
  LeyserkidsComponentCollection.filter_r p xs = Ok (List.filter (fun x => holds (p x)) xs).
Proof.
  induction 1 as [|x xs [b Hb] _ IH]; [reflexivity |].
  cbn [LeyserkidsComponentCollection.filter_r List.filter]. rewrite Hb, IH. cbn [rbind holds].
  now destruct b.
Qed.

Lemma filter_r_throw {A} (p : A -> result bool) (xs : list A) (x : A) (e0 : exn) :
  In x xs -> p x = Throw e0 ->
  exists e y, LeyserkidsComponentCollection.filter_r p xs = Throw e /\ p y = Throw e.
Proof.
  intros Hin Hx. induction xs as [|a xs IH]; [destruct Hin |].
  cbn [LeyserkidsComponentCollection.filter_r].
  destruct (p a) as [b | e] eqn:E; cbn [rbind]; [| now exists e, a].
  destruct Hin as [-> | Hin]; [congruence |].
  destruct (IH Hin) as (e & y & -> & Hy). now exists e, y.
Qed.

(** X14.  A component of the collection whose installed version or
    expected version is the empty string makes [getUnExpected] throw a
    [TypeError]; one whose expected version is empty makes
    [getUnLatested] throw too. *)
Theorem X14_empty_versions_break_filters (pkgs : Collection_t) (c : Component_t) :
  In c (components pkgs) ->
  (currentVersion c = Some (JStr "") \/ expectedVersion c = "" ->
     exists m, LeyserkidsComponentCollection.getUnExpected pkgs = Throw (TypeError m))
  /\ (expectedVersion c = "" ->
      exists m, LeyserkidsComponentCollection.getUnLatested pkgs = Throw (TypeError m)).
Proof.
  intros Hin. split.
  - intros H.
    assert (Hc : exists m, Semver.lt (currentVersion c) (Some (JStr (expectedVersion c)))
                           = Throw (TypeError m)).
    { destruct H as [-> | ->]; [eexists; apply lt_empty_l | apply lt_empty_r]. }
    destruct Hc as (m & Hc).
    destruct (filter_r_throw
                (fun c => Semver.lt (currentVersion c) (Some (JStr (expectedVersion c))))
                (components pkgs) c _ Hin Hc) as (e & y & He & Hy).
    destruct (lt_throws _ _ _ Hy) as (m' & ->). now exists m'.
  - intros H.
    assert (Hc : Semver.lt (Some (JStr (expectedVersion c))) (latestVersion pkgs)
                 = Throw (TypeError "Invalid Version: ")) by (rewrite H; apply lt_empty_l).
    destruct (filter_r_throw
                (fun c => Semver.lt (Some (JStr (expectedVersion c))) (latestVersion pkgs))
                (components pkgs) c _ Hin Hc) as (e & y & He & Hy).
    destruct (lt_throws _ _ _ Hy) as (m' & ->). now exists m'.
Qed.

(** The collection of [Demo], whose component [a] is not installed. *)
Lemma X14_empty_versions_witness :
  exists m, LeyserkidsComponentCollection.getUnExpected Demo.collection = Throw (TypeError m).
Proof.
  assert (Hin : In Demo.component_a (components Demo.collection)) by (now left).
  exact (proj1 (X14_empty_versions_break_filters Demo.collection Demo.component_a Hin)
           (or_introl eq_refl)).
Defined.

Lemma lt_standard (x y : N * N * N) :
  Version.safe x -> Version.safe y ->
  Semver.lt (Some (JStr (Version.to_string x))) (Some (JStr (Version.to_string y)))
  = Ok (before x y).
Proof.
  intros Hx Hy. unfold Semver.lt, before. rewrite (compare_standard x y Hx Hy). cbn [rbind].
  now destruct (Version.precedence x y).
Qed.

(** X15.  On a collection whose versions are standard, [getUnLatested]
    is the list of the components whose expected version is below the
    latest one by precedence, and [getUnExpected] the list of those
    whose installed version is below the expected one, both in the order
    of the collection. *)
Theorem X15_outdated_components (pkgs : Collection_t) (cur exp : Component_t -> N * N * N)
  (latest : N * N * N) :
  (forall c, In c (components pkgs) ->
             expectedVersion c = Version.to_string (exp c) /\ Version.safe (exp c)) ->
  latestVersion pkgs = Some (JStr (Version.to_string latest)) ->
  Version.safe latest ->
  LeyserkidsComponentCollection.getUnLatested pkgs
  = Ok (List.filter (fun c => before (exp c) latest) (components pkgs))
  /\ ((forall c, In c (components pkgs) ->
                 currentVersion c = Some (JStr (Version.to_string (cur c)))
                 /\ Version.safe (cur c)) ->
      LeyserkidsComponentCollection.getUnExpected pkgs
      = Ok (List.filter (fun c => before (cur c) (exp c)) (components pkgs))).
Proof.
  intros Hexp Hl Hs. split.
  - unfold LeyserkidsComponentCollection.getUnLatested. rewrite Hl.
    rewrite filter_r_defined.
    + f_equal. apply List.filter_ext_in. intros c Hc. destruct (Hexp c Hc) as [-> He].
      rewrite (lt_standard _ _ He Hs). cbn [holds]. now destruct (before _ _).
    + apply List.Forall_forall. intros c Hc. destruct (Hexp c Hc) as [-> He].
      rewrite (lt_standard _ _ He Hs). eauto.
  - intros Hcur. unfold LeyserkidsComponentCollection.getUnExpected.
    rewrite filter_r_defined.
    + f_equal. apply List.filter_ext_in. intros c Hc. destruct (Hexp c Hc) as [-> He].
      destruct (Hcur c Hc) as [-> Hc'].
      rewrite (lt_standard _ _ Hc' He). cbn [holds]. now destruct (before _ _).
    + apply List.Forall_forall. intros c Hc. destruct (Hexp c Hc) as [-> He].
      destruct (Hcur c Hc) as [-> Hc'].
      rewrite (lt_standard _ _ Hc' He). eauto.
Qed.

(** Two installs of 1.0.0, one pinned at 1.2.0 and one at 1.0.0, with
    the latest version 1.2.0. *)
Lemma X15_outdated_components_witness :
  LeyserkidsComponentCollection.getUnLatested
    (mkCollection "/repo" [Demo.component_b; Demo.component_c] (Some (JStr "1.2.0")))
  = Ok [Demo.component_c]
  /\ LeyserkidsComponentCollection.getUnExpected
       (mkCollection "/repo" [Demo.component_b; Demo.component_c] (Some (JStr "1.2.0")))
     = Ok [Demo.component_b].
Proof.
  pose (exp := fun c => if String.eqb (expectedVersion c) "1.2.0" then (1, 2, 0)%N
                        else (1, 0, 0)%N).
  assert (Hexp : forall c,
             In c [Demo.component_b; Demo.component_c] ->
             expectedVersion c = Version.to_string (exp c) /\ Version.safe (exp c)).
  { intros c [<- | [<- | []]]; (split; [reflexivity | now apply safe_of_leb]). }
  assert (Hcur : forall c,
             In c [Demo.component_b; Demo.component_c] ->
             currentVersion c = Some (JStr (Version.to_string (1, 0, 0)%N))
             /\ Version.safe (1, 0, 0)%N).
  { intros c [<- | [<- | []]]; (split; [reflexivity | now apply safe_of_leb]). }
  destruct (X15_outdated_components
              (mkCollection "/repo" [Demo.component_b; Demo.component_c] (Some (JStr "1.2.0")))
              (fun _ => (1, 0, 0)%N) exp (1, 2, 0)%N Hexp eq_refl
              (safe_of_leb (1, 2, 0)%N eq_refl)) as [H1 H2].
  split; [exact H1 | exact (H2 Hcur)].
Defined.

Lemma compare_num_range (a b : N) : sign_value (Semver.compare_num a b).
Proof.
  unfold Semver.compare_num, sign_value.
  destruct (a =? b)%N; [auto |]. destruct (a <? b)%N; auto.
Qed.

Lemma compare_str_range (a b : string) : sign_value (Semver.compare_str a b).
Proof. unfold Semver.compare_str, sign_value. destruct (String.compare a b); auto. Qed.

Lemma or_else_range (a b : Z) : sign_value a -> sign_value b -> sign_value (Semver.or_else a b).
Proof. unfold Semver.or_else. destruct (a =? 0)%Z; auto. Qed.

Lemma compareIdentifiers_range (a b : Semver.identifier) :
  sign_value (Semver.compareIdentifiers a b).
Proof.
  unfold Semver.compareIdentifiers.
  repeat match goal with
         | |- sign_value (match ?x with _ => _ end) => destruct x
         end;
    first [apply compare_num_range | apply compare_str_range | unfold sign_value; auto].
Qed.

Lemma compare_ids_range (a b : list Semver.identifier) : sign_value (Semver.compare_ids a b).
Proof.
  revert b. induction a as [|x a IH]; intros [|y b]; cbn [Semver.compare_ids];
    try (unfold sign_value; auto; fail).
  destruct (Semver.identifier_eqb x y); [apply IH | apply compareIdentifiers_range].
Qed.

Lemma compare_semver_range (a b : Semver.SemVer) : sign_value (Semver.compare_semver a b).
Proof.
  unfold Semver.compare_semver, Semver.compareMain, Semver.comparePre.
  repeat apply or_else_range; try apply compare_num_range.
  destruct (Semver.prerelease a), (Semver.prerelease b);
    first [apply compare_ids_range | unfold sign_value; auto].
Qed.

Lemma compare_range (a b : jsval) (r : Z) : Semver.compare a b = Ok r -> sign_value r.
Proof.
  unfold Semver.compare. destruct (Semver.parse a); cbn [rbind]; [| discriminate].
  destruct (Semver.parse b); cbn [rbind]; [| discriminate].
  intros [= <-]. apply compare_semver_range.
Qed.

(** X16.  [compareVersion] changes nothing, and its result tells
    whether kr-library was installed: -2 exactly when the installed
    manifest is missing, and -1, 0 or 1 when it exists. *)
Theorem X16_compareVersion_results (c : Component_t) (w w' : World) (r : Z) :
  Component.compareVersion c w = (Done r, w') ->
  w' = w
  /\ ((r = -2 /\ files w !! krLibraryPackageJson c = None)%Z
      \/ (sign_value r /\ is_Some (files w !! krLibraryPackageJson c))).
Proof.
  unfold Component.compareVersion, Component._checkExist, bind, existsSync.
  destruct (files w !! krLibraryPackageJson c) as [f|] eqn:Hf.
  - rewrite bool_decide_eq_true_2 by (now eexists). cbn [negb].
    destruct (Semver.compare _ _) as [r' | e] eqn:Hc; cbn [lift]; unfold ret, throw;
      [| discriminate].
    intros [= <- <-]. split; [reflexivity |]. right. split; [| now eexists].
    exact (compare_range _ _ _ Hc).
  - rewrite bool_decide_eq_false_2 by (intros [? [=]]). cbn [negb]. unfold ret.
    intros [= <- <-]. split; [reflexivity |]. now left.
Qed.

(** The component [b] of [Demo], installed at 1.0.0 and pinned at 1.2.0. *)
Lemma X16_compareVersion_witness :
  sign_value (-1)
  /\ Component.compareVersion Demo.component_b (Demo.merged Demo.disk [])
     = (Done (-1)%Z, Demo.merged Demo.disk []).
Proof.
  assert (H : Component.compareVersion Demo.component_b (Demo.merged Demo.disk [])
              = (Done (-1)%Z, Demo.merged Demo.disk [])) by (vm_compute; reflexivity).
  destruct (X16_compareVersion_results _ _ _ _ H) as [_ [[E _] | [Hs _]]];
    [discriminate E | split; [exact Hs | exact H]].
Defined.

(** ** The pin that is written, the components that are discovered *)

Lemma assoc_set_set {A} (k : string) (v v' : A) (l : list (string * A)) :
  Json.assoc_set k v (Json.assoc_set k v' l) = Json.assoc_set k v l.
Proof.
  induction l as [|[k' x] l IH]; cbn [Json.assoc_set].
  - now rewrite String.eqb_refl.
  - destruct (String.eqb k k') eqn:E; cbn [Json.assoc_set].
    + now rewrite String.eqb_refl.
    + now rewrite E, IH.
Qed.

Lemma set_get (j : jsval) (k : string) (v j1 : json) :
  Json.set j k v = Ok j1 -> Json.get j1 k = Ok (Some v).
Proof.
  destruct j as [[| | | |items props|fields]|]; cbn [Json.set]; try discriminate;
    intros [= <-]; cbn [Json.get]; now rewrite assoc_set_eq.
Qed.

Lemma set_set (j : jsval) (k : string) (v1 v2 j1 : json) :
  Json.set j k v1 = Ok j1 -> Json.set (Some j1) k v2 = Json.set j k v2.
Proof.
  destruct j as [[| | | |items props|fields]|]; cbn [Json.set]; try discriminate;
    intros [= <-]; cbn [Json.set]; now rewrite assoc_set_set.
Qed.

Lemma setVersionAsync_run (c : Component_t) (v : string) (w w0 : World) (pkg : json) :
  require (packageJson c) w = (Done pkg, w0) ->
  Component.setVersionAsync c v w
  = match Json.get pkg "dependencies" with
    | Throw e => (Thrown e, w0)
    | Ok deps =>
        match Json.set deps "kr-library"
                (JStr (Json.plus (Constant.KR_LIB_NPM_URL w0) (Some (JStr v)))) with
        | Throw e => (Thrown e, w0)
        | Ok deps' =>
            match Json.set (Some pkg) "dependencies" deps' with
            | Throw e => (Thrown e, w0)
            | Ok pkg' =>
                (Done tt,
                 mkWorld (<[packageJson c := Doc (Json.document pkg')]> (files w0))
                   (<[packageJson c := pkg']> (modules w0)) (constant w0) (stdin w0)
                   (listeners w0) (trace w0))
            end
        end
    end.
Proof.
  intros Hr. unfold Component.setVersionAsync, bind. rewrite Hr.
  destruct (Json.get pkg "dependencies") as [deps | e]; cbn [lift]; unfold ret, throw;
    [| reflexivity].
  unfold get_world.
  destruct (Json.set deps _ _) as [deps' | e]; cbn [lift]; unfold ret, throw; [| reflexivity].
  destruct (Json.set (Some pkg) _ _) as [pkg' | e]; cbn [lift]; unfold ret, throw;
    reflexivity.
Qed.

Lemma set_total (j : jsval) (k : string) (v1 v2 j1 : json) :
  Json.set j k v1 = Ok j1 -> exists j2, Json.set j k v2 = Ok j2.
Proof.
  destruct j as [[| | | |items props|fields]|]; cbn [Json.set]; try discriminate;
    intros _; eexists; reflexivity.
Qed.

(** X18.  The last [setVersionAsync] wins: after a first call that
    returned, a second call leaves the process and the disk as if it had
    been the only one. *)
Theorem X18_setVersion_last_write_wins (c : Component_t) (v1 v2 : string) (w w1 : World) :
  Component.setVersionAsync c v1 w = (Done tt, w1) ->
  Component.setVersionAsync c v2 w1 = Component.setVersionAsync c v2 w.
Proof.
  intros H.
  destruct (require (packageJson c) w) as [[pkg | e | code |] w0] eqn:Hr;
    try (unfold Component.setVersionAsync, bind in H; rewrite Hr in H; discriminate H).
  rewrite (setVersionAsync_run c v1 w w0 pkg Hr) in H.
  rewrite (setVersionAsync_run c v2 w w0 pkg Hr).
  set (u1 := JStr (Json.plus (Constant.KR_LIB_NPM_URL w0) (Some (JStr v1)))) in H.
  set (u2 := JStr (Json.plus (Constant.KR_LIB_NPM_URL w0) (Some (JStr v2)))).
  destruct (Json.get pkg "dependencies") as [deps | e]; [| discriminate H].
  destruct (Json.set deps "kr-library" u1) as [deps1 | e] eqn:Hd1; [| discriminate H].
  destruct (Json.set (Some pkg) "dependencies" deps1) as [pkg1 | e] eqn:Hp1; [| discriminate H].
  injection H as <-.
  assert (Hr1 : require (packageJson c)
                  (mkWorld (<[packageJson c := Doc (Json.document pkg1)]> (files w0))
                     (<[packageJson c := pkg1]> (modules w0)) (constant w0) (stdin w0)
                     (listeners w0) (trace w0))
                = (Done pkg1,
                   mkWorld (<[packageJson c := Doc (Json.document pkg1)]> (files w0))
                     (<[packageJson c := pkg1]> (modules w0)) (constant w0) (stdin w0)
                     (listeners w0) (trace w0))).
  { apply require_again. cbn [modules]. apply lookup_insert_eq. }
  rewrite (setVersionAsync_run c v2 _ _ pkg1 Hr1).
  rewrite (set_get _ _ _ _ Hp1).
  change (JStr (Json.plus (Constant.KR_LIB_NPM_URL _) (Some (JStr v2)))) with u2.
  rewrite (set_set _ _ _ _ _ Hd1).
  destruct (set_total deps "kr-library" u1 u2 deps1 Hd1) as [deps2 Hd2]. rewrite Hd2.
  rewrite (set_set _ _ _ _ _ Hp1).
  destruct (set_total (Some pkg) "dependencies" deps1 deps2 pkg1 Hp1) as [pkg2 Hp2].
  rewrite Hp2. cbn [files modules constant stdin listeners trace].
  now rewrite !insert_insert_eq.
Qed.

(** The component [a] of [Demo], set to 1.2.3, then to 2.0.0 or to
    1.2.3 again. *)
Lemma X18_last_write_witness :
  exists w1,
    Component.setVersionAsync Demo.component_a "1.2.3" (Demo.merged Demo.disk []) = (Done tt, w1)
    /\ Component.setVersionAsync Demo.component_a "2.0.0" w1
       = Component.setVersionAsync Demo.component_a "2.0.0" (Demo.merged Demo.disk [])
    /\ Component.setVersionAsync Demo.component_a "1.2.3" w1 = (Done tt, w1).
Proof.
  assert (H : exists w1,
             Component.setVersionAsync Demo.component_a "1.2.3" (Demo.merged Demo.disk [])
             = (Done tt, w1)) by (eexists; vm_compute; reflexivity).
  destruct H as [w1 H]. exists w1. split; [exact H | split].
  - exact (X18_setVersion_last_write_wins _ _ _ _ _ H).
  - rewrite (X18_setVersion_last_write_wins _ _ _ _ _ H). exact H.
Defined.

Lemma initialize_fields (h : Host) (name path : string) (w w' : World) (c : Component_t) :
  Component.initialize h name path w = (Done c, w') ->
  componentName c = name /\ componentPath c = path
  /\ packageJson c = path_join h path Constant.COMPONENT_PKG_FILE
  /\ krLibraryPackageJson c = path_join h path Constant.KR_LIB_PKG_FILE.
Proof.
  unfold Component.initialize. intros H.
  apply bind_inv in H as (e & w1 & _ & H).
  apply bind_inv in H as (cur & w2 & _ & H).
  apply bind_inv in H as (ex & w3 & _ & H).
  injection H as <- _. now repeat split.
Qed.

(** A key of the configuration is its own. *)
Lemma assoc_in {A} (k : string) (v : A) (l : list (string * A)) :
  In (k, v) l -> is_Some (Json.assoc k l).
Proof.
  induction l as [|[k' v'] l IH]; intros Hin; [destruct Hin |].
  cbn [Json.assoc]. destruct (String.eqb_spec k k') as [-> | Hne]; [now eexists |].
  destruct Hin as [[= <- <-] | Hin]; [now destruct Hne | exact (IH Hin)].
Qed.

Lemma hasOwnProperty_cases (cfg : list (string * string)) (key dir : string) :
  In (key, dir) cfg ->
  match Json.assoc "hasOwnProperty" cfg with
  | Some _ => exists msg, LeyserkidsComponentCollection.hasOwnProperty cfg key
                          = Throw (TypeError msg)
  | None => LeyserkidsComponentCollection.hasOwnProperty cfg key = Ok true
  end.
Proof.
  intros Hin. unfold LeyserkidsComponentCollection.hasOwnProperty.
  destruct (Json.assoc "hasOwnProperty" cfg); [now eexists |].
  now rewrite (bool_decide_eq_true_2 _ (assoc_in key dir cfg Hin)).
Qed.

Lemma init_each_fields (h : Host) (rootp : string) (cfg keys : list (string * string)) :
  (forall kv, In kv keys -> In kv cfg) ->
  forall w w' cs,
    LeyserkidsComponentCollection.init_each h rootp cfg keys w = (Done cs, w') ->
    Forall2 (fun kv c =>
               componentName c = fst kv
               /\ componentPath c = path_join h rootp (snd kv)
               /\ packageJson c = path_join h (componentPath c) Constant.COMPONENT_PKG_FILE
               /\ krLibraryPackageJson c
                  = path_join h (componentPath c) Constant.KR_LIB_PKG_FILE) keys cs.
Proof.
  induction keys as [|[k d] keys IH]; intros Hsub w w' cs;
    cbn [LeyserkidsComponentCollection.init_each].
  - intros [= <- _]. constructor.
  - intros H. apply bind_inv in H as (own & w0 & Hown & H).
    pose proof (hasOwnProperty_cases cfg k d (Hsub _ (or_introl eq_refl))) as Hcases.
    destruct (Json.assoc "hasOwnProperty" cfg).
    { destruct Hcases as [msg Hcases]. rewrite Hcases in Hown. discriminate Hown. }
    rewrite Hcases in Hown. injection Hown as <- <-.
    apply bind_inv in H as (c & w1 & Hc & H).
    apply bind_inv in H as (cs' & w2 & Hcs & H). injection H as <- _.
    apply initialize_fields in Hc as (Hn & Hp & Hj & Hk).
    constructor; [| exact (IH (fun kv Hkv => Hsub kv (or_intror Hkv)) _ _ _ Hcs)].
    cbn [fst snd]. rewrite Hp. now repeat split.
Qed.

(** X19.  The collection that the constructor builds has one component
    per entry of the configuration, in its order, named by the key and
    placed at [path.join(root, dir)]; each component looks for its
    manifest and for the installed manifest under its own path. *)
Theorem X19_discovery_order (h : Host) (rootp : string) (latest : jsval) (w w' : World)
  (pkgs : Collection_t) :
  LeyserkidsComponentCollection.new h rootp latest w = (Done pkgs, w') ->
  root pkgs = rootp /\ latestVersion pkgs = latest
  /\ map (fun c => (componentName c, componentPath c)) (components pkgs)
     = map (fun kv => (fst kv, path_join h rootp (snd kv)))
         (match constant w with Some cfg => component cfg | None => [] end)
  /\ Forall (fun c =>
               packageJson c = path_join h (componentPath c) "package.json"
               /\ krLibraryPackageJson c
                  = path_join h (componentPath c) "node_modules/kr-library/package.json")
       (components pkgs).
Proof.
  unfold LeyserkidsComponentCollection.new, LeyserkidsComponentCollection._initComponents.
  intros H. apply bind_inv in H as (cs & w1 & Hcs & H). injection H as <- _.
  cbn [root latestVersion components]. split; [reflexivity | split; [reflexivity |]].
  unfold bind, get_world, Constant.COMPONENT_DIRECTORIES in Hcs.
  destruct (constant w) as [cfg|]; cbn [fmap option_fmap option_map] in Hcs.
  - apply init_each_fields in Hcs; [| auto].
    induction Hcs as [|kv c cfg' cs (Hn & Hp & Hj & Hk) _ [IH1 IH2]]; [split; constructor |].
    split.
    + cbn [map]. now rewrite Hn, Hp, IH1.
    + constructor; [now split | exact IH2].
  - injection Hcs as <- _. split; [reflexivity | constructor].
Qed.

(** The discovery in the repository of [Demo]. *)
Lemma X19_discovery_order_witness :
  exists pkgs w',
    LeyserkidsComponentCollection.new Demo.machine "/repo" (Some (JStr "1.2.0"))
      (Demo.merged Demo.disk []) = (Done pkgs, w')
    /\ map (fun c => (componentName c, componentPath c)) (components pkgs)
       = [("a", "/repo/a"); ("b", "/repo/b")].
Proof.
  assert (H : exists pkgs w',
             LeyserkidsComponentCollection.new Demo.machine "/repo" (Some (JStr "1.2.0"))
               (Demo.merged Demo.disk []) = (Done pkgs, w'))
    by (eexists _, _; vm_compute; reflexivity).
  destruct H as (pkgs & w' & H). exists pkgs, w'. split; [exact H |].
  exact (proj1 (proj2 (proj2 (X19_discovery_order _ _ _ _ _ _ H)))).
Defined.

(** ** A manifest that is missing *)

Lemma getExpectedVersion_missing (path : string) (w : World) :
  files w !! path = None -> modules w !! path = None ->
  exists msg,
    Component._getExpectedVersion path w
    = (Thrown (Error ("Could load " ++ path ++ ", please make the file vailed")),
       log_all [Failure msg] w).
Proof.
  intros Hf Hm. unfold Component._getExpectedVersion, try_catch, bind, require.
  rewrite Hm, Hf. eexists. reflexivity.
Qed.

Lemma getCurrentVersion_outcome (path : string) (w : World) :
  match fst (Component._getCurrentVersion path w) with
  | Done _ => True
  | Thrown e => could_load e
  | _ => False
  end.
Proof.
  unfold Component._getCurrentVersion, Component._checkExist, bind, existsSync.
  destruct (negb _); [exact I |].
  unfold try_catch, bind.
  destruct (require path w) as [[m | e | code |] w1] eqn:Hr.
  - destruct (Json.get m "version"); cbn; [exact I | now exists path].
  - cbn. now exists path.
  - unfold require in Hr. destruct (modules w !! path); [discriminate |].
    destruct (files w !! path) as [[]|]; discriminate.
  - unfold require in Hr. destruct (modules w !! path); [discriminate |].
    destruct (files w !! path) as [[]|]; discriminate.
Qed.

Lemma initialize_outcome (h : Host) (name path : string) (w : World) :
  match fst (Component.initialize h name path w) with
  | Done _ => True
  | Thrown e => could_load e
  | _ => False
  end.
Proof.
  unfold Component.initialize, bind, Component._checkExist, existsSync.
  pose proof (getCurrentVersion_outcome (path_join h path Constant.KR_LIB_PKG_FILE) w) as H1.
  destruct (Component._getCurrentVersion _ w) as [[cur | e | code |] w1]; cbn [fst] in H1 |- *;
    try exact H1.
  pose proof (getExpectedVersion_outcome (path_join h path Constant.COMPONENT_PKG_FILE) w1) as H2.
  destruct (Component._getExpectedVersion _ w1) as [[ex | e | code |] w2]; cbn [fst] in H2 |- *;
    try exact H2; [exact I | rewrite H2; now eexists].
Qed.

Lemma initialize_missing (h : Host) (name path : string) (w : World) :
  files w !! path_join h path Constant.COMPONENT_PKG_FILE = None ->
  modules w !! path_join h path Constant.COMPONENT_PKG_FILE = None ->
  exists e w', Component.initialize h name path w = (Thrown e, w') /\ could_load e.
Proof.
  intros Hf Hm. unfold Component.initialize, bind, Component._checkExist, existsSync.
  pose proof (getCurrentVersion_outcome (path_join h path Constant.KR_LIB_PKG_FILE) w) as H1.
  pose proof (reads_getCurrentVersion (path_join h path Constant.KR_LIB_PKG_FILE) w) as Hx.
  destruct (Component._getCurrentVersion _ w) as [[cur | e | code |] w1]; cbn [fst] in H1;
    try (now destruct H1); [| now exists e, w1].
  destruct (Hx _ _ eq_refl) as [Hfiles Hmods].
  destruct (getExpectedVersion_missing (path_join h path Constant.COMPONENT_PKG_FILE) w1)
    as (msg & ->).
  - now rewrite Hfiles.
  - destruct (modules w1 !! _) as [j|] eqn:E; [| reflexivity].
    destruct (Hmods _ _ E) as [H | H]; congruence.
  - eexists _, _. split; [reflexivity | now eexists].
Qed.

Lemma init_each_missing (h : Host) (rootp name dir : string)
  (cfg keys : list (string * string)) :
  Json.assoc "hasOwnProperty" cfg = None ->
  (forall kv, In kv keys -> In kv cfg) ->
  In (name, dir) keys ->
  forall w,
    files w !! path_join h (path_join h rootp dir) Constant.COMPONENT_PKG_FILE = None ->
    modules w !! path_join h (path_join h rootp dir) Constant.COMPONENT_PKG_FILE = None ->
    exists e w',
      LeyserkidsComponentCollection.init_each h rootp cfg keys w = (Thrown e, w')
      /\ could_load e.
Proof.
  intros Hown. induction keys as [|[k d] keys IH]; intros Hsub Hin w Hf Hm; [destruct Hin |].
  cbn [LeyserkidsComponentCollection.init_each].
  pose proof (hasOwnProperty_cases cfg k d (Hsub _ (or_introl eq_refl))) as Hcases.
  rewrite Hown in Hcases. rewrite Hcases. unfold bind at 1. cbn [lift ret].
  unfold bind.
  pose proof (initialize_outcome h k (path_join h rootp d) w) as Ho.
  pose proof (reads_initialize h k (path_join h rootp d) w) as Hx.
  destruct (Component.initialize h k (path_join h rootp d) w) as [[c | e | code |] w1] eqn:Hi;
    cbn [fst] in Ho; try (now destruct Ho); [| now exists e, w1].
  destruct Hin as [[= -> ->] | Hin].
  - destruct (initialize_missing h name (path_join h rootp dir) w Hf Hm) as (e & w' & He & _).
    congruence.
  - destruct (Hx _ _ eq_refl) as [Hfiles Hmods].
    destruct (IH (fun kv Hkv => Hsub kv (or_intror Hkv)) Hin w1) as (e & w' & -> & He).
    + now rewrite Hfiles.
    + destruct (modules w1 !! _) as [j|] eqn:E; [| reflexivity].
      destruct (Hmods _ _ E) as [H | H]; congruence.
    + now exists e, w'.
Qed.

(** X20.  The constructor of the collection needs the manifest of
    every configured component: when one of them is neither on the disk
    nor in the cache of [require], it throws the error of [Component],
    and no collection without that component is built.  This is so
    unless a component is named <<hasOwnProperty>>: then the test of the
    loop calls its directory, a string, and the constructor throws a
    [TypeError] before it reads any manifest. *)
Theorem X20_discovery_needs_every_manifest (h : Host) (rootp : string) (latest : jsval)
  (w : World) (cfg : Config) :
  constant w = Some cfg ->
  (Json.assoc "hasOwnProperty" (component cfg) = None ->
   forall name dir,
     In (name, dir) (component cfg) ->
     files w !! path_join h (path_join h rootp dir) "package.json" = None ->
     modules w !! path_join h (path_join h rootp dir) "package.json" = None ->
     exists path w',
       LeyserkidsComponentCollection.new h rootp latest w
       = (Thrown (Error ("Could load " ++ path ++ ", please make the file vailed")), w'))
  /\ (forall dir,
        Json.assoc "hasOwnProperty" (component cfg) = Some dir ->
        exists msg,
          LeyserkidsComponentCollection.new h rootp latest w = (Thrown (TypeError msg), w)).
Proof.
  intros Hc. split.
  - intros Hown name dir Hin Hf Hm.
    unfold LeyserkidsComponentCollection.new, LeyserkidsComponentCollection._initComponents.
    unfold bind at 1. unfold bind at 1. unfold get_world, Constant.COMPONENT_DIRECTORIES.
    rewrite Hc. cbn [fmap option_fmap option_map].
    destruct (init_each_missing h rootp name dir (component cfg) (component cfg) Hown
                (fun kv Hkv => Hkv) Hin w Hf Hm)
      as (e & w' & -> & (path & ->)).
    now exists path, w'.
  - intros dir Hown.
    unfold LeyserkidsComponentCollection.new, LeyserkidsComponentCollection._initComponents.
    unfold bind at 1. unfold bind at 1. unfold get_world, Constant.COMPONENT_DIRECTORIES.
    rewrite Hc. cbn [fmap option_fmap option_map].
    destruct (component cfg) as [|[k d] keys] eqn:E; [discriminate Hown |].
    cbn [LeyserkidsComponentCollection.init_each].
    unfold LeyserkidsComponentCollection.hasOwnProperty. rewrite Hown.
    eexists. reflexivity.
Qed.

(** A repository in which [b] has no manifest; and a configuration with
    a component named <<hasOwnProperty>>. *)
Lemma X20_discovery_witness :
  (exists path w',
     LeyserkidsComponentCollection.new Demo.machine "/repo" (Some (JStr "1.2.0"))
       (Demo.merged Demo.ranged_disk [])
     = (Thrown (Error ("Could load " ++ path ++ ", please make the file vailed")), w'))
  /\ (exists msg,
        LeyserkidsComponentCollection.new Demo.machine "/repo" (Some (JStr "1.2.0"))
          (mkWorld Demo.disk ∅ (Some Demo.odd_config) [] [] [])
        = (Thrown (TypeError msg), mkWorld Demo.disk ∅ (Some Demo.odd_config) [] [] [])).
Proof.
  split.
  - assert (Hin : In ("b", "b") (component Demo.config)) by (right; now left).
    exact (proj1 (X20_discovery_needs_every_manifest Demo.machine "/repo" (Some (JStr "1.2.0"))
                    (Demo.merged Demo.ranged_disk []) Demo.config eq_refl)
             eq_refl "b" "b" Hin eq_refl eq_refl).
  - exact (proj2 (X20_discovery_needs_every_manifest Demo.machine "/repo" (Some (JStr "1.2.0"))
                    (mkWorld Demo.disk ∅ (Some Demo.odd_config) [] [] []) Demo.odd_config
                    eq_refl)
             "tools" eq_refl).
Defined.

(** ** The table and the prompt *)

Lemma cell_of_cases (v : jsval) (c : nat) :
  if is_text v then exists x, TableBuilder.cell_of v c = Ok x
  else exists msg, TableBuilder.cell_of v c = Throw (TypeError msg).
Proof. destruct v as [[| | |s| |]|]; cbn; eauto. Qed.

Lemma row_of_cases (pkgs : Collection_t) (c : Component_t) :
  if is_text (currentVersion c) && is_text (latestVersion pkgs)
  then exists r, TableBuilder.row_of pkgs c = Ok r
  else exists msg, TableBuilder.row_of pkgs c = Throw (TypeError msg).
Proof.
  unfold TableBuilder.row_of.
  pose proof (cell_of_cases (currentVersion c) 1) as H1.
  pose proof (cell_of_cases (latestVersion pkgs) 3) as H2.
  destruct (is_text (currentVersion c)); cbn [andb].
  - destruct H1 as (x & ->). cbn [rbind].
    destruct (is_text (latestVersion pkgs)).
    + destruct H2 as (y & ->). cbn [rbind]. eauto.
    + destruct H2 as (m & ->). cbn [rbind]. eauto.
  - destruct H1 as (m & ->). cbn [rbind]. eauto.
Qed.

Lemma map_r_rows (pkgs : Collection_t) (cs : list Component_t) :
  if forallb (fun c => is_text (currentVersion c) && is_text (latestVersion pkgs)) cs
  then exists data, TableBuilder.map_r (TableBuilder.row_of pkgs) cs = Ok data
  else exists msg, TableBuilder.map_r (TableBuilder.row_of pkgs) cs = Throw (TypeError msg).
Proof.
  induction cs as [|c cs IH]; cbn [forallb TableBuilder.map_r]; [eauto |].
  pose proof (row_of_cases pkgs c) as Hc.
  destruct (is_text (currentVersion c) && is_text (latestVersion pkgs)); cbn [andb].
  - destruct Hc as (r & ->). cbn [rbind].
    destruct (forallb _ cs).
    + destruct IH as (data & ->). cbn [rbind]. eauto.
    + destruct IH as (m & ->). cbn [rbind]. eauto.
  - destruct Hc as (m & ->). cbn [rbind]. eauto.
Qed.

Lemma displayable_forallb (pkgs : Collection_t) :
  displayable pkgs
  = forallb (fun c => is_text (currentVersion c) && is_text (latestVersion pkgs))
      (components pkgs).
Proof.
  unfold displayable. destruct (components pkgs) as [|c cs]; [reflexivity |].
  destruct (is_text (latestVersion pkgs)); cbn [andb].
  - generalize (c :: cs). intros l. induction l as [|x l IH]; [reflexivity |].
    cbn [forallb]. now rewrite andb_true_r, IH.
  - cbn [forallb]. now rewrite andb_false_r.
Qed.

(** X23.  [showInstalledStatus] prints the title and the table when the
    latest version and every installed version are strings, or the
    collection is empty; otherwise it throws a [TypeError] after the
    title and prints no table. *)
Theorem X23_display_needs_strings (pkgs : Collection_t) (w : World) :
  (displayable pkgs = true ->
     exists data,
       TableBuilder.readSourceDate pkgs = Ok data
       /\ Cli.showInstalledStatus pkgs w
          = (Done tt, log_all [overview; Info (TableBuilder.build data)] w))
  /\ (displayable pkgs = false ->
      exists msg,
        Cli.showInstalledStatus pkgs w = (Thrown (TypeError msg), log_all [overview] w)).
Proof.
  rewrite displayable_forallb. pose proof (map_r_rows pkgs (components pkgs)) as H.
  unfold Cli.showInstalledStatus, bind, Utils.loggerInfo, emit, TableBuilder.readSourceDate.
  split; intros Hd; rewrite Hd in H.
  - destruct H as (data & Hdata). exists data. split; [exact Hdata |].
    rewrite Hdata. cbn [lift]. unfold ret, log_all, overview. cbn.
    now rewrite <- List.app_assoc.
  - destruct H as (msg & Hmsg). exists msg. rewrite Hmsg. reflexivity.
Qed.

(** The collection of [Demo]; and one whose latest version is [null]. *)
Lemma X23_display_witness :
  (exists data,
     Cli.showInstalledStatus Demo.collection (Demo.merged Demo.disk [])
     = (Done tt, log_all [overview; Info (TableBuilder.build data)] (Demo.merged Demo.disk [])))
  /\ (exists msg,
        Cli.showInstalledStatus (mkCollection "/repo" [Demo.component_b] (Some JNull))
          (Demo.merged Demo.disk [])
        = (Thrown (TypeError msg), log_all [overview] (Demo.merged Demo.disk []))).
Proof.
  split.
  - destruct (proj1 (X23_display_needs_strings Demo.collection (Demo.merged Demo.disk []))
                eq_refl) as (data & _ & H).
    now exists data.
  - exact (proj2 (X23_display_needs_strings
                    (mkCollection "/repo" [Demo.component_b] (Some JNull))
                    (Demo.merged Demo.disk [])) eq_refl).
Defined.

Lemma class_scan_in (cls s m : string) :
  In m (Regex.class_scan cls s) -> exists c, m = String c "" /\ Regex.in_class cls c = true.
Proof.
  induction s as [|c s IH]; cbn [Regex.class_scan]; [intros [] |].
  destruct (Regex.in_class cls c) eqn:E; [| exact IH].
  intros [<- | H]; [now exists c | exact (IH H)].
Qed.

Lemma accepts_in (cls data m : string) :
  Cli.accepts cls data = Some m -> exists c, m = String c "" /\ Regex.in_class cls c = true.
Proof.
  unfold Cli.accepts, Regex.match_class.
  destruct (Regex.class_scan cls data) as [|x [|y l]] eqn:E; try discriminate.
  intros [= <-]. apply (class_scan_in cls data). rewrite E. now left.
Qed.

Lemma dispatch_warns (hs : list string) (data : string) :
  exists n, fst (Cli.dispatch hs data) = List.repeat (Warning "Invalied input") n.
Proof.
  induction hs as [|cls hs [n IH]]; [now exists 0%nat |].
  cbn [Cli.dispatch]. destruct (Cli.dispatch hs data) as [es p]. cbn [fst] in IH.
  destruct (Cli.accepts cls data); cbn [fst]; [now exists n | exists (S n); now rewrite IH].
Qed.

Lemma repeat_app' {A} (x : A) (n m : nat) :
  (List.repeat x n ++ List.repeat x m)%list = List.repeat x (n + m).
Proof. induction n as [|n IH]; cbn; [reflexivity | now rewrite IH]. Qed.

Lemma await_input_outcome (hs : list string) (cls : string) (input : list string) :
  match Cli.await_input hs cls input with
  | (o, r, es) =>
      (exists used, input = (used ++ r)%list)
      /\ (exists n, es = List.repeat (Warning "Invalied input") n)
      /\ match o with
         | Done m => exists c, m = String c "" /\ Regex.in_class cls c = true
         | Waiting => True
         | _ => False
         end
  end.
Proof.
  induction input as [|data input IH]; cbn [Cli.await_input].
  - split; [now exists [] | split; [now exists 0%nat | exact I]].
  - destruct (dispatch_warns hs data) as [n Hn].
    destruct (Cli.dispatch hs data) as [es paused]. cbn [fst] in Hn.
    destruct (Cli.accepts cls data) as [m|] eqn:E.
    + split; [now exists [data] | split; [now exists n | exact (accepts_in _ _ _ E)]].
    + destruct paused.
      * split; [now exists [data] | split; [now exists n | exact I]].
      * destruct (Cli.await_input hs cls input) as [[o r] es'].
        destruct IH as ((used & ->) & (k & ->) & Ho).
        split; [now exists (data :: used) | split; [| exact Ho]].
        exists (n + k)%nat. now rewrite Hn, repeat_app'.
Qed.

Lemma in_class_yes_no_bar (c : ascii) :
  Regex.in_class "y|n" c = true -> c = "y"%char \/ c = "n"%char \/ c = "|"%char.
Proof.
  cbn [Regex.in_class]. rewrite orb_false_r.
  destruct (Ascii.eqb_spec "y" c) as [<- | _]; [auto |].
  destruct (Ascii.eqb_spec "|" c) as [<- | _]; [auto |].
  destruct (Ascii.eqb_spec "n" c) as [<- | _]; [auto | discriminate].
Qed.

Lemma getUserInputAsync_outcome (w : World) :
  match Cli.getUserInputAsync Cli.yes_no w with
  | (o, w') =>
      files w' = files w /\ modules w' = modules w /\ constant w' = constant w
      /\ listeners w' = (listeners w ++ ["y|n"])%list
      /\ (exists used, stdin w = (used ++ stdin w')%list)
      /\ (exists n, trace w' = (trace w ++ List.repeat (Warning "Invalied input") n)%list)
      /\ match o with
         | Done m => m = "y" \/ m = "n" \/ m = "|"
         | Waiting => True
         | _ => False
         end
  end.
Proof.
  unfold Cli.getUserInputAsync. rewrite matcher_yes_no.
  pose proof (await_input_outcome (listeners w ++ ["y|n"]) "y|n" (stdin w)) as H.
  destruct (Cli.await_input _ _ _) as [[o r] es].
  destruct H as (Hu & (n & ->) & Ho). cbn [files modules constant listeners stdin trace].
  repeat split; try assumption; [now exists n |].
  destruct o as [m | | |]; try exact Ho.
  destruct Ho as (c & -> & Hc).
  destruct (in_class_yes_no_bar c Hc) as [-> | [-> | ->]]; auto.
Qed.

(** X24.  A yes/no prompt never throws or exits: it resolves with [y],
    [n] or [|], or stays pending.  It changes neither the disk, the
    cache of [require] nor [Constant]; it leaves one more handler on
    stdin, consumes a prefix of the input and logs only the warning
    <<Invalied input>>. *)
Theorem X24_prompt_outcome (w : World) :
  match Cli.getUserInputAsync Cli.yes_no w with
  | (o, w') =>
      files w' = files w /\ modules w' = modules w /\ constant w' = constant w
      /\ listeners w' = (listeners w ++ ["y|n"])%list
      /\ (exists used, stdin w = (used ++ stdin w')%list)
      /\ (exists n, trace w' = (trace w ++ List.repeat (Warning "Invalied input") n)%list)
      /\ match o with
         | Done m => m = "y" \/ m = "n" \/ m = "|"
         | Waiting => True
         | _ => False
         end
  end.
Proof. exact (getUserInputAsync_outcome w). Qed.

(** ** The steps of the reconciliation *)

(** X25.  [checkFullyInstalled] does nothing when every component is
    installed; otherwise any answer but [y] exits with code 0 without an
    install, so that the later steps are not reached; and while the
    prompt is pending, so is the step. *)
Theorem X25_declined_install_exits (h : Host) (pkgs : Collection_t) (w : World) :
  (LeyserkidsComponentCollection.getUnInstalled pkgs = [] ->
     Cli.checkFullyInstalled h pkgs w = (Done tt, w))
  /\ (forall ipt w2,
        LeyserkidsComponentCollection.getUnInstalled pkgs <> [] ->
        Cli.getUserInputAsync Cli.yes_no (log_all [not_fully_installed] w) = (Done ipt, w2) ->
        ipt <> "y" ->
        Cli.checkFullyInstalled h pkgs w = (Exited 0, w2)
        /\ Cli.reconcile h pkgs w = (Exited 0, w2))
  /\ (forall w2,
        LeyserkidsComponentCollection.getUnInstalled pkgs <> [] ->
        Cli.getUserInputAsync Cli.yes_no (log_all [not_fully_installed] w) = (Waiting, w2) ->
        Cli.checkFullyInstalled h pkgs w = (Waiting, w2)
        /\ Cli.reconcile h pkgs w = (Waiting, w2)).
Proof.
  unfold Cli.reconcile. unfold bind at 1 3. unfold Cli.checkFullyInstalled.
  destruct (LeyserkidsComponentCollection.getUnInstalled pkgs) as [|c l];
    cbn [List.length Nat.ltb Nat.leb].
  - split; [reflexivity | split; intros; congruence].
  - split; [discriminate |].
    unfold bind, Utils.loggerError, emit.
    change (mkWorld (files w) (modules w) (constant w) (stdin w) (listeners w)
              (trace w ++ [Failure (nl ++ "Oops, The kr-library is not fully installed, " ++ nl
                                    ++ nl ++ "Type [y] to confirm install or [n] to exit")]))
      with (log_all [not_fully_installed] w).
    split.
    + intros ipt w2 _ Hp Hn. rewrite Hp.
      destruct (String.eqb_spec ipt "y") as [-> | _]; [now destruct Hn |]. now split.
    + intros w2 _ Hp. rewrite Hp. now split.
Qed.

(** The answer [n] in the repository of [Demo]: no child is spawned. *)
Lemma X25_declined_install_witness :
  fst (Cli.checkFullyInstalled Demo.machine Demo.collection
         (Demo.merged Demo.disk ["n" ++ nl])) = Exited 0
  /\ spawns (trace (snd (Cli.checkFullyInstalled Demo.machine Demo.collection
                           (Demo.merged Demo.disk ["n" ++ nl])))) = [].
Proof.
  assert (Hne : LeyserkidsComponentCollection.getUnInstalled Demo.collection <> [])
    by discriminate.
  assert (Hn : "n" <> "y") by discriminate.
  assert (Hp : Cli.getUserInputAsync Cli.yes_no
                 (log_all [not_fully_installed] (Demo.merged Demo.disk ["n" ++ nl]))
               = (Done "n",
                  mkWorld Demo.disk ∅ (Some Demo.config) [] ["y|n"] [not_fully_installed]))
    by reflexivity.
  destruct (proj1 (proj2 (X25_declined_install_exits Demo.machine Demo.collection
                            (Demo.merged Demo.disk ["n" ++ nl]))) _ _ Hne Hp Hn) as [H _].
  rewrite H. split; reflexivity.
Defined.

(** X26.  [checkExpectedVersion]: an exception of [getUnExpected]
    passes through; with no outdated component there is no prompt;
    otherwise any answer but [y] goes on to the next step, and the
    answer [y] runs the installs of the outdated components, each at its
    expected version, and exits with code 0: whatever the order in which
    the children are heard, what is logged is made of the events of
    these installs, each once and those of an install in their order,
    and the children are spawned in the order of the components. *)
Theorem X26_outdated_step (h : Host) (pkgs : Collection_t) (w : World) :
  (forall e, LeyserkidsComponentCollection.getUnExpected pkgs = Throw e ->
             Cli.checkExpectedVersion h pkgs w = (Thrown e, w))
  /\ (LeyserkidsComponentCollection.getUnExpected pkgs = Ok [] ->
      Cli.checkExpectedVersion h pkgs w = (Done tt, w))
  /\ (forall l ipt w2,
        LeyserkidsComponentCollection.getUnExpected pkgs = Ok l -> l <> [] ->
        Cli.getUserInputAsync Cli.yes_no (log_all [outdated] w) = (Done ipt, w2) ->
        ipt <> "y" ->
        Cli.checkExpectedVersion h pkgs w = (Done tt, w2))
  /\ (forall l w2,
        LeyserkidsComponentCollection.getUnExpected pkgs = Ok l -> l <> [] ->
        Cli.getUserInputAsync Cli.yes_no (log_all [outdated] w) = (Done "y", w2) ->
        exists es,
          Cli.checkExpectedVersion h pkgs w = (Exited 0, log_all es w2)
          /\ Permutation es
               (concat (map (fun c => PackageInstaller.events h w2 (componentPath c)
                                        (Some (JStr (expectedVersion c)))) l))
          /\ spawns es
             = map (fun c => (componentPath c,
                              PackageInstaller.install_args w2
                                (Some (JStr (expectedVersion c))))) l
          /\ Forall (fun c => sublist (PackageInstaller.events h w2 (componentPath c)
                                         (Some (JStr (expectedVersion c)))) es) l).
Proof.
  assert (Hprompt : forall l, l <> [] ->
            LeyserkidsComponentCollection.getUnExpected pkgs = Ok l ->
            Cli.checkExpectedVersion h pkgs w
            = match Cli.getUserInputAsync Cli.yes_no (log_all [outdated] w) with
              | (Done ipt, w2) =>
                  if String.eqb ipt "y"
                  then (LeyserkidsComponentCollection.installExpectAsync h l;; exit 0) w2
                  else (Done tt, w2)
              | (Thrown e, w2) => (Thrown e, w2)
              | (Exited c, w2) => (Exited c, w2)
              | (Waiting, w2) => (Waiting, w2)
              end).
  { intros l Hl Hg. unfold Cli.checkExpectedVersion. unfold bind at 1. rewrite Hg.
    cbn [lift]. unfold ret. destruct l as [|c l]; [now destruct Hl |].
    change (0 <? List.length (c :: l))%nat with true. cbv beta iota.
    unfold bind at 1. unfold Utils.loggerError, emit.
    change (mkWorld (files w) (modules w) (constant w) (stdin w) (listeners w)
              (trace w ++ [Failure (nl ++ "Oops, The kr-library is outdated, " ++ nl ++ nl
                                    ++ "Type [y] to confirm install or [n] to ignore")]))
      with (log_all [outdated] w).
    unfold bind at 1.
    destruct (Cli.getUserInputAsync Cli.yes_no (log_all [outdated] w)) as [[ipt| | |] w2];
      try reflexivity.
    now destruct (String.eqb ipt "y"). }
  unfold Cli.checkExpectedVersion. unfold bind at 1 2.
  split; [| split; [| split]].
  - intros e ->. reflexivity.
  - intros ->. reflexivity.
  - intros l ipt w2 Hg Hl Hp Hn. fold (Cli.checkExpectedVersion h pkgs).
    rewrite (Hprompt l Hl Hg), Hp.
    destruct (String.eqb_spec ipt "y") as [-> | _]; [now destruct Hn | reflexivity].
  - intros l w2 Hg Hl Hp. fold (Cli.checkExpectedVersion h pkgs).
    rewrite (Hprompt l Hl Hg), Hp. cbn [String.eqb Ascii.eqb Bool.eqb].
    exact (installs_then_exit h l (fun c => Some (JStr (expectedVersion c))) w2).
Qed.

(** The component [b] of [Demo], behind its pin, with the answers [y]
    and [n]. *)
Lemma X26_outdated_step_witness :
  fst (Cli.checkExpectedVersion Demo.machine
         (mkCollection "/repo" [Demo.component_b] (Some (JStr "1.2.0")))
         (Demo.merged Demo.disk ["y" ++ nl])) = Exited 0
  /\ fst (Cli.checkExpectedVersion Demo.machine
            (mkCollection "/repo" [Demo.component_b] (Some (JStr "1.2.0")))
            (Demo.merged Demo.disk ["n" ++ nl])) = Done tt.
Proof.
  assert (Hne : [Demo.component_b] <> []) by discriminate.
  assert (Hn : "n" <> "y") by discriminate.
  split.
  - destruct (proj2 (proj2 (proj2 (X26_outdated_step Demo.machine
                             (mkCollection "/repo" [Demo.component_b] (Some (JStr "1.2.0")))
                             (Demo.merged Demo.disk ["y" ++ nl]))))
               [Demo.component_b]
               (mkWorld Demo.disk ∅ (Some Demo.config) [] ["y|n"] [outdated])
               eq_refl Hne eq_refl) as (es & H & _).
    now rewrite H.
  - rewrite (proj1 (proj2 (proj2 (X26_outdated_step Demo.machine
                             (mkCollection "/repo" [Demo.component_b] (Some (JStr "1.2.0")))
                             (Demo.merged Demo.disk ["n" ++ nl]))))
               [Demo.component_b] "n"
               (mkWorld Demo.disk ∅ (Some Demo.config) [] ["y|n"] [outdated])
               eq_refl Hne eq_refl Hn).
    reflexivity.
Defined.

(** X27.  [checkLatestVersion]: an exception of [getUnLatested] passes
    through; with no component behind the latest version there is no
    prompt; otherwise any answer but [y] ends the step, and the answer
    [y] runs the installs of the latest version in those components and
    exits with code 0: whatever the order in which the children are
    heard, what is logged is made of the events of these installs, each
    once and those of an install in their order, and the children are
    spawned in the order of the components. *)
Theorem X27_latest_step (h : Host) (pkgs : Collection_t) (w : World) :
  (forall e, LeyserkidsComponentCollection.getUnLatested pkgs = Throw e ->
             Cli.checkLatestVersion h pkgs w = (Thrown e, w))
  /\ (LeyserkidsComponentCollection.getUnLatested pkgs = Ok [] ->
      Cli.checkLatestVersion h pkgs w = (Done tt, w))
  /\ (forall l ipt w2,
        LeyserkidsComponentCollection.getUnLatested pkgs = Ok l -> l <> [] ->
        Cli.getUserInputAsync Cli.yes_no (log_all [latest_available] w) = (Done ipt, w2) ->
        ipt <> "y" ->
        Cli.checkLatestVersion h pkgs w = (Done tt, w2))
  /\ (forall l w2,
        LeyserkidsComponentCollection.getUnLatested pkgs = Ok l -> l <> [] ->
        Cli.getUserInputAsync Cli.yes_no (log_all [latest_available] w) = (Done "y", w2) ->
        exists es,
          Cli.checkLatestVersion h pkgs w = (Exited 0, log_all es w2)
          /\ Permutation es
               (concat (map (fun c => PackageInstaller.events h w2 (componentPath c)
                                        (latestVersion pkgs)) l))
          /\ spawns es
             = map (fun c => (componentPath c,
                              PackageInstaller.install_args w2 (latestVersion pkgs))) l
          /\ Forall (fun c => sublist (PackageInstaller.events h w2 (componentPath c)
                                         (latestVersion pkgs)) es) l).
Proof.
  assert (Hprompt : forall l, l <> [] ->
            LeyserkidsComponentCollection.getUnLatested pkgs = Ok l ->
            Cli.checkLatestVersion h pkgs w
            = match Cli.getUserInputAsync Cli.yes_no (log_all [latest_available] w) with
              | (Done ipt, w2) =>
                  if String.eqb ipt "y"
                  then (LeyserkidsComponentCollection.installLatestAsync h pkgs l;; exit 0) w2
                  else (Done tt, w2)
              | (Thrown e, w2) => (Thrown e, w2)
              | (Exited c, w2) => (Exited c, w2)
              | (Waiting, w2) => (Waiting, w2)
              end).
  { intros l Hl Hg. unfold Cli.checkLatestVersion. unfold bind at 1. rewrite Hg.
    cbn [lift]. unfold ret. destruct l as [|c l]; [now destruct Hl |].
    change (0 <? List.length (c :: l))%nat with true. cbv beta iota.
    unfold bind at 1. unfold Utils.loggerWarning, emit.
    change (mkWorld (files w) (modules w) (constant w) (stdin w) (listeners w)
              (trace w ++ [Warning (nl ++ "The latest version kr-library is available, " ++ nl
                                    ++ nl
                                    ++ "Type [y] to confirm update to latest or [n] to ignore")]))
      with (log_all [latest_available] w).
    unfold bind at 1.
    destruct (Cli.getUserInputAsync Cli.yes_no (log_all [latest_available] w))
      as [[ipt| | |] w2]; try reflexivity.
    now destruct (String.eqb ipt "y"). }
  unfold Cli.checkLatestVersion. unfold bind at 1 2.
  split; [| split; [| split]].
  - intros e ->. reflexivity.
  - intros ->. reflexivity.
  - intros l ipt w2 Hg Hl Hp Hn. fold (Cli.checkLatestVersion h pkgs).
    rewrite (Hprompt l Hl Hg), Hp.
    destruct (String.eqb_spec ipt "y") as [-> | _]; [now destruct Hn | reflexivity].
  - intros l w2 Hg Hl Hp. fold (Cli.checkLatestVersion h pkgs).
    rewrite (Hprompt l Hl Hg), Hp. cbn [String.eqb Ascii.eqb Bool.eqb].
    exact (installs_then_exit h l (fun _ => latestVersion pkgs) w2).
Qed.

(** A component pinned at 1.0.0 when the latest version is 1.2.0. *)
Lemma X27_latest_step_witness :
  exists es,
    Cli.checkLatestVersion Demo.machine
      (mkCollection "/repo" [Demo.component_c] (Some (JStr "1.2.0")))
      (Demo.merged Demo.disk ["y" ++ nl])
    = (Exited 0,
       log_all es (mkWorld Demo.disk ∅ (Some Demo.config) [] ["y|n"] [latest_available]))
    /\ spawns es
       = [("/repo/b", ["install"; "git+https://git.example/gcleyser/kr-library.git#semver:1.2.0"])].
Proof.
  assert (Hne : [Demo.component_c] <> []) by discriminate.
  destruct (proj2 (proj2 (proj2 (X27_latest_step Demo.machine
                           (mkCollection "/repo" [Demo.component_c] (Some (JStr "1.2.0")))
                           (Demo.merged Demo.disk ["y" ++ nl]))))
             [Demo.component_c]
             (mkWorld Demo.disk ∅ (Some Demo.config) [] ["y|n"] [latest_available])
             eq_refl Hne eq_refl) as (es & H & _ & Hs & _).
  exists es. split; [exact H | exact Hs].
Defined.

(** ** The exits of the program *)

Lemma exits01_ret {A} (a : A) : exits01 (ret a).
Proof. intros w. exact I. Qed.

Lemma exits01_throw {A} (e : exn) : exits01 (@throw A e).
Proof. intros w. exact I. Qed.

Lemma exits01_lift {A} (r : result A) : exits01 (lift r).
Proof. destruct r; [apply exits01_ret | apply exits01_throw]. Qed.

Lemma exits01_emit (e : event) : exits01 (emit e).
Proof. intros w. exact I. Qed.

Lemma exits01_get_world : exits01 get_world.
Proof. intros w. exact I. Qed.

Lemma exits01_exit0 {A} : exits01 (@exit A 0).
Proof. intros w. now left. Qed.

Lemma exits01_exit1 {A} : exits01 (@exit A 1).
Proof. intros w. now right. Qed.

Lemma exits01_existsSync (path : string) : exits01 (existsSync path).
Proof. intros w. exact I. Qed.

Lemma exits01_require (path : string) : exits01 (require path).
Proof.
  intros w. unfold require. destruct (modules w !! path); [exact I |].
  destruct (files w !! path) as [[]|]; exact I.
Qed.

Lemma exits01_bind {A B} (m : M A) (k : A -> M B) :
  exits01 m -> (forall a, exits01 (k a)) -> exits01 (bind m k).
Proof.
  intros Hm Hk w. unfold bind. specialize (Hm w).
  destruct (m w) as [[a | e | c |] w1]; cbn [fst] in *; [apply Hk | exact I | exact Hm | exact I].
Qed.

Lemma exits01_try_catch {A} (m : M A) (k : exn -> M A) :
  exits01 m -> (forall e, exits01 (k e)) -> exits01 (try_catch m k).
Proof.
  intros Hm Hk w. unfold try_catch. specialize (Hm w).
  destruct (m w) as [[a | e | c |] w1]; cbn [fst] in *; [exact I | apply Hk | exact Hm | exact I].
Qed.

Lemma exits01_logger (msg : string) :
  exits01 (Utils.loggerInfo msg) /\ exits01 (Utils.loggerSuccess msg)
  /\ exits01 (Utils.loggerWarning msg) /\ exits01 (Utils.loggerError msg).
Proof. repeat split; apply exits01_emit. Qed.

Create HintDb exits.
#[local] Hint Resolve exits01_ret exits01_throw exits01_lift exits01_emit exits01_get_world
  exits01_exit0 exits01_exit1 exits01_existsSync exits01_require : exits.

Ltac exits :=
  repeat first
    [ apply exits01_bind; [| intros ?]
    | apply exits01_try_catch; [| intros ?]
    | solve [auto with exits]
    | match goal with
      | |- exits01 (if ?b then _ else _) => destruct b
      | |- exits01 (match ?x with _ => _ end) => destruct x
      end ].

Lemma exits01_done {A} (m : M A) :
  (forall w, exists a w', m w = (Done a, w')) -> exits01 m.
Proof. intros H w. destruct (H w) as (a & w' & ->). exact I. Qed.

Lemma exits01_prompt : exits01 (Cli.getUserInputAsync Cli.yes_no).
Proof.
  intros w. pose proof (getUserInputAsync_outcome w) as H.
  destruct (Cli.getUserInputAsync Cli.yes_no w) as [[m | e | c |] w']; cbn [fst];
    try exact I. now destruct H as (_ & _ & _ & _ & _ & _ & []).
Qed.

Lemma exits01_installs (h : Host) (cs : list Component_t) (vf : Component_t -> jsval) :
  exits01 (LeyserkidsComponentCollection.installPackagesWithVersionAsync h cs vf).
Proof.
  intros w. destruct (installPackagesWithVersionAsync_spec h cs vf w) as (es & -> & _).
  exact I.
Qed.

Lemma exits01_init_each (h : Host) (rootp : string) (cfg keys : list (string * string)) :
  exits01 (LeyserkidsComponentCollection.init_each h rootp cfg keys).
Proof.
  induction keys as [|[k d] keys IH]; cbn [LeyserkidsComponentCollection.init_each];
    [apply exits01_ret |].
  apply exits01_bind; [apply exits01_lift |]. intros [|]; [| exact IH].
  apply exits01_bind.
  - intros w. pose proof (initialize_outcome h k (path_join h rootp d) w) as H.
    destruct (fst _); try exact I. destruct H.
  - intros c. apply exits01_bind; [exact IH | intros cs; apply exits01_ret].
Qed.

#[local] Hint Resolve exits01_prompt exits01_installs exits01_init_each : exits.

Lemma exits01_discover (h : Host) : exits01 (Cli.discover h).
Proof.
  unfold Cli.discover, Cli.showLogo, Cli.checkEnvironmentAsync, Cli.checkNPMVersion,
    Utils.checkLeyserkidsRepositoryAsync, Utils.getNpmVersionAsync,
    Utils.getGitRootDirectorySync, Constant.merge, Cli.obtainLatestVersionAsync,
    Utils.getLatestVersionAsync, LeyserkidsComponentCollection.new,
    LeyserkidsComponentCollection._initComponents, Cli.showInstalledStatus,
    Utils.loggerInfo, Utils.loggerError, Utils.loggerSuccess.
  exits.
Qed.

Lemma exits01_reconcile (h : Host) (pkgs : Collection_t) : exits01 (Cli.reconcile h pkgs).
Proof.
  unfold Cli.reconcile, Cli.checkFullyInstalled, Cli.checkExpectedVersion,
    Cli.checkLatestVersion, LeyserkidsComponentCollection.installExpectAsync,
    LeyserkidsComponentCollection.installLatestAsync,
    Utils.loggerError, Utils.loggerWarning.
  exits.
Qed.

(** X28.  No exception leaves [Cli.run], and its only exit codes are 0
    and 1. *)
Theorem X28_run_exit_codes (h : Host) (w : World) :
  match fst (Cli.run h w) with
  | Thrown _ => False
  | Exited c => (c = 0 \/ c = 1)%Z
  | _ => True
  end.
Proof.
  unfold Cli.run, try_catch.
  assert (H : exits01 (bind (Cli.discover h) (fun pkgs => Cli.reconcile h pkgs))).
  { apply exits01_bind; [apply exits01_discover | intros pkgs; apply exits01_reconcile]. }
  specialize (H w).
  destruct (bind (Cli.discover h) (fun pkgs => Cli.reconcile h pkgs) w) as [[a | e | c |] w1];
    cbn [fst] in *; [exact I | now right | exact H | exact I].
Qed.

(** X29.  When the discovery succeeds and nothing is to reconcile,
    [run] ends after the table, without a prompt and without a call of
    [process.exit]. *)
Theorem X29_nothing_to_reconcile (h : Host) (w0 w : World) (pkgs : Collection_t) :
  Cli.discover h w0 = (Done pkgs, w) ->
  LeyserkidsComponentCollection.getUnInstalled pkgs = [] ->
  LeyserkidsComponentCollection.getUnExpected pkgs = Ok [] ->
  LeyserkidsComponentCollection.getUnLatested pkgs = Ok [] ->
  Cli.run h w0 = (Done tt, w).
Proof.
  intros Hd H1 H2 H3. unfold Cli.run, try_catch. rewrite (bind_done _ _ _ _ _ Hd).
  unfold Cli.reconcile, Cli.checkFullyInstalled, Cli.checkExpectedVersion,
    Cli.checkLatestVersion, bind.
  rewrite H1, H2, H3. reflexivity.
Qed.

(** A repository whose components all hold the latest version. *)
Lemma X29_nothing_to_reconcile_witness :
  fst (Cli.run Demo.machine (Demo.world Demo.synced_disk [])) = Done tt.
Proof.
  assert (H : exists pkgs w,
             Cli.discover Demo.machine (Demo.world Demo.synced_disk []) = (Done pkgs, w)
             /\ LeyserkidsComponentCollection.getUnInstalled pkgs = []
             /\ LeyserkidsComponentCollection.getUnExpected pkgs = Ok []
             /\ LeyserkidsComponentCollection.getUnLatested pkgs = Ok []).
  { eexists _, _. split; [vm_compute; reflexivity | repeat split]. }
  destruct H as (pkgs & w & Hd & H1 & H2 & H3).
  now rewrite (X29_nothing_to_reconcile _ _ _ _ Hd H1 H2 H3).
Defined.

(** X30.  Outside a repository of gcleyser, [run] logs the logo and
    the message of the check and exits with code 1: npm is not asked its
    version and nothing is discovered. *)
Theorem X30_run_outside_repository (h : Host) (w : World) (u rest : string) :
  one_line u = true ->
  exec h "git remote get-url --push origin" = Ok (u ++ nl ++ rest) ->
  ~ occurs "gcleyser/" u ->
  Cli.run h w
  = (Exited 1,
     log_all [Info Cli.LOGO; Failure "Please run this command in leyserkids directory!"] w).
Proof.
  intros Hu Hx Ho. unfold Cli.run, try_catch, Cli.discover.
  unfold bind at 1. unfold bind at 1. unfold Cli.showLogo, Utils.loggerInfo, emit.
  unfold bind at 1. unfold Cli.checkEnvironmentAsync, bind at 1.
  rewrite (checkLeyserkidsRepositoryAsync_spec h _ u rest Hu Hx).
  destruct (JS.includes "gcleyser/" u) eqn:E; [destruct Ho; now apply includes_occurs |].
  cbn [negb]. unfold bind, Utils.loggerError, emit, exit, log_all. cbn.
  now rewrite <- List.app_assoc.
Qed.

(** A repository of someone else. *)
Lemma X30_run_outside_witness :
  Cli.run (Demo.host (fun _ => Ok ("git@git.example:someone/mono.git" ++ nl))
             (fun _ _ => Demo.quiet 0)) (Demo.world Demo.disk [])
  = (Exited 1,
     log_all [Info Cli.LOGO; Failure "Please run this command in leyserkids directory!"]
       (Demo.world Demo.disk [])).
Proof.
  refine (X30_run_outside_repository
            (Demo.host (fun _ => Ok ("git@git.example:someone/mono.git" ++ nl))
               (fun _ _ => Demo.quiet 0)) (Demo.world Demo.disk [])
            "git@git.example:someone/mono.git" "" eq_refl eq_refl _).
  intros H. apply includes_occurs in H. vm_compute in H. discriminate H.
Defined.

(** ** The comparator, the exported check, the rows of the table *)

Lemma compare_num_opp (a b : N) : Semver.compare_num b a = (- Semver.compare_num a b)%Z.
Proof.
  rewrite !compare_num_sign, (N.compare_antisym a b).
  now destruct (a ?= b)%N.
Qed.

Lemma compare_str_opp (a b : string) : Semver.compare_str b a = (- Semver.compare_str a b)%Z.
Proof.
  unfold Semver.compare_str. rewrite (String.compare_antisym b a).
  now destruct (String.compare a b).
Qed.

Lemma or_else_opp (a b : Z) : Semver.or_else (- a) (- b) = (- Semver.or_else a b)%Z.
Proof.
  unfold Semver.or_else. destruct (Z.eqb_spec a 0) as [-> | Ha]; [reflexivity |].
  destruct (Z.eqb_spec (- a) 0); [lia | reflexivity].
Qed.

Lemma compareIdentifiers_opp (a b : Semver.identifier) :
  Semver.compareIdentifiers b a = (- Semver.compareIdentifiers a b)%Z.
Proof.
  unfold Semver.compareIdentifiers.
  destruct a as [x | x], b as [y | y];
    repeat match goal with
           | |- context [if ?c then _ else _] => destruct c
           end;
    first [apply compare_num_opp | apply compare_str_opp | reflexivity].
Qed.

Lemma identifier_eqb_sym (a b : Semver.identifier) :
  Semver.identifier_eqb b a = Semver.identifier_eqb a b.
Proof.
  destruct a, b; cbn [Semver.identifier_eqb]; [apply N.eqb_sym | reflexivity ..| ].
  apply String.eqb_sym.
Qed.

Lemma compare_ids_opp (a b : list Semver.identifier) :
  Semver.compare_ids b a = (- Semver.compare_ids a b)%Z.
Proof.
  revert b. induction a as [|x a IH]; intros [|y b]; cbn [Semver.compare_ids]; try reflexivity.
  rewrite identifier_eqb_sym. destruct (Semver.identifier_eqb x y);
    [apply IH | apply compareIdentifiers_opp].
Qed.

Lemma compare_semver_opp (a b : Semver.SemVer) :
  Semver.compare_semver b a = (- Semver.compare_semver a b)%Z.
Proof.
  unfold Semver.compare_semver, Semver.compareMain, Semver.comparePre.
  rewrite (compare_num_opp (Semver.major a)), (compare_num_opp (Semver.minor a)),
    (compare_num_opp (Semver.patch a)).
  rewrite <- !or_else_opp. f_equal. f_equal.
  destruct (Semver.prerelease a) as [|x pa] eqn:Ea, (Semver.prerelease b) as [|y pb] eqn:Eb;
    try reflexivity.
  apply compare_ids_opp.
Qed.

(** X17.  [semver.compare] is antisymmetric on the versions it
    accepts: to exchange the arguments negates the result; so a version
    compares as 0 with itself, and [lt] does not hold both ways. *)
Theorem X17_comparator_antisymmetric (a b : jsval) (r : Z) :
  Semver.compare a b = Ok r ->
  Semver.compare b a = Ok (- r)%Z
  /\ (a = b -> r = 0%Z)
  /\ (Semver.lt a b = Ok true -> Semver.lt b a = Ok false).
Proof.
  intros H.
  assert (Hb : Semver.compare b a = Ok (- r)%Z).
  { unfold Semver.compare in *.
    destruct (Semver.parse a) as [va|]; cbn [rbind] in *; [| discriminate H].
    destruct (Semver.parse b) as [vb|]; cbn [rbind] in *; [| discriminate H].
    injection H as <-. now rewrite compare_semver_opp. }
  split; [exact Hb | split].
  - intros <-. rewrite H in Hb. injection Hb as Hb. lia.
  - unfold Semver.lt. rewrite H, Hb. cbn [rbind]. intros [= Hr]. f_equal.
    apply Z.ltb_lt in Hr. apply Z.ltb_ge. lia.
Qed.

(** 1.2.0 and 1.10.0, exchanged. *)
Lemma X17_comparator_witness :
  Semver.compare (Some (JStr "1.10.0")) (Some (JStr "1.2.0")) = Ok 1%Z
  /\ Semver.lt (Some (JStr "1.10.0")) (Some (JStr "1.2.0")) = Ok false.
Proof.
  assert (H : Semver.compare (Some (JStr "1.2.0")) (Some (JStr "1.10.0")) = Ok (-1)%Z)
    by reflexivity.
  destruct (X17_comparator_antisymmetric _ _ _ H) as (H1 & _ & H2).
  split; [exact H1 | exact (H2 eq_refl)].
Defined.

(** X21.  In a process that never ran [Cli.run], [Constant] has no
    configuration, the collection is empty and the exported
    [checkVersion] always throws (a [TypeError] on
    [find(...).compareVersion] once git gave the root); so
    [checkVersionWithAssert] neither passes nor exits. *)
Theorem X21_exported_checkVersion_throws (h : Host) (name : string) (w : World) :
  constant w = None ->
  exists e w',
    LeyserkidsComponentCollection.checkVersion h name w = (Thrown e, w')
    /\ LeyserkidsComponentCollection.checkVersionWithAssert h name w = (Thrown e, w')
    /\ (forall out, exec h "git rev-parse --show-toplevel" = Ok out ->
          e = TypeError "Cannot read properties of undefined (reading 'compareVersion')"
          /\ w' = w).
Proof.
  intros Hc.
  assert (H : exists e w',
             LeyserkidsComponentCollection.checkVersion h name w = (Thrown e, w')
             /\ (forall out, exec h "git rev-parse --show-toplevel" = Ok out ->
                   e = TypeError "Cannot read properties of undefined (reading 'compareVersion')"
                   /\ w' = w)).
  { unfold LeyserkidsComponentCollection.checkVersion, Utils.getGitRootDirectorySync,
      try_catch, bind, lift.
    destruct (exec h "git rev-parse --show-toplevel") as [out | e0].
    - unfold ret, LeyserkidsComponentCollection.new,
        LeyserkidsComponentCollection._initComponents, bind, get_world,
        Constant.COMPONENT_DIRECTORIES.
      rewrite Hc. cbn. eexists _, _. split; [reflexivity |]. intros out' _. now split.
    - cbn. eexists _, _. split; [reflexivity |]. intros out' [=]. }
  destruct H as (e & w' & He & Hout). exists e, w'. split; [exact He | split; [| exact Hout]].
  unfold LeyserkidsComponentCollection.checkVersionWithAssert, bind. now rewrite He.
Qed.

(** The repository of [Demo], in a process that did not run [Cli.run]. *)
Lemma X21_exported_checkVersion_witness :
  LeyserkidsComponentCollection.checkVersionWithAssert Demo.machine "a" (Demo.world Demo.disk [])
  = (Thrown (TypeError "Cannot read properties of undefined (reading 'compareVersion')"),
     Demo.world Demo.disk []).
Proof.
  destruct (X21_exported_checkVersion_throws Demo.machine "a" (Demo.world Demo.disk []) eq_refl)
    as (e & w' & _ & H & Hout).
  destruct (Hout ("/repo" ++ nl) eq_refl) as [He Hw]. rewrite He, Hw in H. exact H.
Defined.

(** X22.  For a collection of one component or more, the table is the
    header, the line of dashes and one row per component, joined by line
    feeds; every row is as long as the line and 4 more, the margin after
    the last column. *)
Theorem X22_table_rows (pkgs : Collection_t) (data : list TableBuilder.row) :
  TableBuilder.readSourceDate pkgs = Ok data ->
  components pkgs <> [] ->
  exists head line rows,
    TableBuilder.build data = JS.join nl (head :: line :: rows)
    /\ List.length rows = List.length (components pkgs)
    /\ line = JS.repeat "-" (String.length line)
    /\ Forall (fun t => String.length t = (String.length line + 4)%nat) (head :: rows).
Proof.
  intros Hd Hne.
  destruct (table_layout pkgs data Hd) as (w0 & w1 & w2 & w3 & Hcols & Hw & Hline & Hb & Hrows).
  cbv zeta in *.
  exists (TableBuilder.padded w0 w1 w2 w3 "Module" "Installed" "Expected" "Latest"),
    (TableBuilder.line (TableBuilder._computeLayout data)),
    (map (fun c => TableBuilder.padded w0 w1 w2 w3 (componentName c)
                     (Json.to_string (currentVersion c)) (expectedVersion c)
                     (Json.to_string (latestVersion pkgs))) (components pkgs)).
  split; [| split; [| split]].
  - rewrite Hb. destruct (components pkgs) as [|c cs]; [now destruct Hne | reflexivity].
  - now rewrite length_map.
  - unfold TableBuilder._computeLayout. cbn [TableBuilder.line].
    now rewrite length_repeat.
  - rewrite Hline. change (String.length TableBuilder.margin) with 4%nat.
    eapply Forall_impl; [exact Hrows |]. cbv beta. intros t ->. lia.
Qed.

(** The table of the component [b] of [Demo]. *)
Lemma X22_table_rows_witness :
  exists data head line rows,
    TableBuilder.readSourceDate (mkCollection "/repo" [Demo.component_b] (Some (JStr "1.2.0")))
    = Ok data
    /\ TableBuilder.build data = JS.join nl (head :: line :: rows)
    /\ List.length rows = 1%nat.
Proof.
  assert (Hne : components (mkCollection "/repo" [Demo.component_b] (Some (JStr "1.2.0"))) <> [])
    by discriminate.
  destruct (X22_table_rows (mkCollection "/repo" [Demo.component_b] (Some (JStr "1.2.0")))
              _ eq_refl Hne) as (head & line & rows & Hb & Hl & _).
  eexists _, head, line, rows. split; [reflexivity | split; [exact Hb | exact Hl]].
Defined.
